(* ===== verification/_CoqProject ===== *)
-Q . S2P
Prelude.v
Random.v
Mastery.v
Scheduler.v
Catalog.v
Csv.v
Options.v
Progress.v
Tts.v
Session.v
Audio.v
Invariant.v
Behaviour.v
Character.v
Warmup.v
Monotone.v
Scenarios.v
