(* ===== verification/Prelude.v ===== *)
(** * A verification development of the vocabulary-drill engine [src/script.js]

    The program is a single-page JavaScript app ([src/script.js], one
    object [app]).  After a warm-up screen and a language choice it loads a
    word package (a CSV index and a manifest of pictures), shuffles the
    words into a sequence, and drills them in windows of five: each question
    shows a spoken word and three pictures, a correct click raises the
    word's level (0..5, mastered at 5), and a removal button drops the word
    for good.  Its parts and how they call each other:
    - the warm-up ([startWarmUp], [playWarmUpAudio],
      [handleWarmUpSelection]) asks for one of three pictures and then
      shows the language screen;
    - the word catalog ([loadData], [parseScaleCSV], [normalizeText]) builds
      [wordMap], [sequence], [allKeys] and one progress record per word;
    - the scheduler ([updateActivePool]) computes the active pool of the
      current window, advances windows and reloads the page on completion;
    - the question selector ([nextQuestion], [generateOptions],
      [shuffleArray]) draws a target from the pool and a set of options;
    - the mastery tracker ([handleSelection]) updates the records on a
      click, then plays the [posi] sound whose callback asks the next
      question;
    - word removal ([removeCurrentWord]) deletes the word everywhere,
      counts it in [deletedCount] and asks the next question;
    - the progress accountant ([updateProgressBar]) shows
      [round((mastered + deleted) / (length + deleted) * 100)].

    Files (in dependency order), and what they model:
    - [Prelude]: JavaScript arrays ([slice], [indexOf]/[splice] as
      [js_remove]) and [Map]s with string keys as insertion-ordered
      association lists ([JsMap]), the scope [drill_scope], the hint
      database [drill], the shared list lemmas, and the equations of
      string append as the rewrite database [strs].
    - [Random]: [Math.random()] as a 53-bit integer drawn from an [Entropy]
      source (a type class; [Rng] is the concrete stream), a small state
      monad [Rand] with the notation [x <-$ m ;; k], and [shuffleArray]
      (Fisher-Yates, lines 546-551) with the indices its loop draws
      ([shuffle_draws]).  The swap [js_swap] leaves the array as it is
      when an index is out of range (JavaScript would write [undefined]
      and grow it); the loop never draws such an index, and the theorem on
      [shuffleArray] fails for a loop that could.
    - [Mastery] (Module [Mastery]): the progress record and the level rule
      of [handleSelection] (lines 855-875), [updateLevelIndicator].
    - [Scheduler] (Module [Scheduler]): [updateActivePool] (lines 561-580)
      as a fuelled [Fixpoint], its abstract contract [pool_spec], and the
      refinement theorem between them.
    - [Catalog] (Module [Catalog]): [normalizeText] with [toLowerCase],
      [\s] and [trim] on Latin-1, and [parseScaleCSV] (lines 500-544).
    - [Csv] (Module [Csv]): the models of [split] and [trim] against
      their specifications ([Array.prototype.join] and the white space at
      both ends), used to read back a catalog printed as CSV through
      [parseScaleCSV] (the round trip, and the last row winning for a
      repeated key), and the German articles of [normalizeText].
    - [Options] (Modules [Options], [OptionsFacts]): [generateOptions]
      (lines 656-669) with its rejection loop as a fuelled [Fixpoint] in the
      [Rand] monad.
    - [Progress] (Module [ProgressBar]): [updateProgressBar] (lines
      908-976) in IEEE-754 binary64 ([Floats.SpecFloat]).
    - [Tts] (Module [Tts]): [CONFIG.googleTTS]'s voice and language code
      tables, the request of [synthesize] and the value it resolves to,
      which the event loop of [Session] feeds to [playAudio].
    - [Session] (Module [Session]): the [app.state] record with the parts of
      the page the handlers read back (cards, progress text, screen, the
      replay button, the warm-up screen), every handler that changes it
      ([startLoading], [loadData], [startGame], [nextQuestion],
      [handleSelection], [removeCurrentWord], the [posi] callback,
      [playAudio], the replay button, [startWarmUp] and the warm-up's
      listeners) and the event loop [step] with its reachable states
      [reachable].  A handler returns [Done], a [Crash] state (a
      [TypeError] aborted it; earlier mutations stay) or [Hang] (the
      options loop does not return); [location.reload()] loads a fresh
      page, on which [app.init()] runs [startWarmUp] ([page_load]).
      [playAudio] (lines 671-725) is modelled by its unfinished calls
      ([audioJobs]: waiting for the TTS answer, playing a clip, or speaking
      through [speechSynthesis]), the cache [currentAudioCache] and a log
      [completed] of the calls whose [onEnd] ran; the browser answers with
      the events [EvSynthDone] (the TTS reply, a parsed body or a
      failure, which [synthesize] turns into a clip or [null]),
      [EvPlaybackEnd] ([onended], [onerror] or the utterance's [onend])
      and [EvPlayRejected] (the [play()] promise rejected).  Whether the
      browser has [speechSynthesis] is a parameter.  The warm-up's sounds
      and timer are events too ([EvWarmAudioEnd], [EvWarmEffectDone],
      [EvWarmTimer]), and so is the character's idle timer
      ([EvIdleTimer]); a button or option can be clicked only while it is
      shown.  The character ([app.state.character], [idleTimer] and the
      pose [updateCharacter] shows) is a record of the state.
    - [Audio] (Module [Audio]): every [playAudio] call completes, every
      question starts its audio afresh, a TTS answer is not checked
      against the question on screen, and the double [onEnd].
    - [Invariant] (Module [Invariant]): the session invariant and its
      preservation by every handler; every reachable state satisfies it.
    - [Behaviour] (Module [Behaviour]): the answer rules, the accounting of
      removals, the removal that stalls the session, the permanence of the
      stall and the crash on a stale card, and what a restart keeps, on
      whole states.
    - [Character] (Module [Character]): the character is [idle] exactly
      when no idle timer is pending, and its timer always brings it back.
    - [Warmup] (Module [Warmup]): the warm-up shows every item once with
      one target, can always be passed and keeps its target clickable, and
      its pending switches to the language screen outlive it.
    - [Monotone] (Module [Monotone]): during a game, levels and mastery
      never go back, no record appears and the window pointer only moves
      forward.
    - [Scenarios] (Module [Scenarios]): concrete sessions from the initial
      page that exhibit the findings (the stall is reachable, a stale
      callback after a restart, a stale sound end, the warm-up's second
      timer during a game), and the witnesses of the theorems.

    Groups of theorems: the scheduler refines its contract and terminates,
    and completes only when every later word is mastered;
    [generateOptions] returns distinct options of the right number (and
    never returns on a two-word catalog); [shuffleArray] is a Fisher-Yates
    shuffle; every reachable state has well-formed records, fresh cards
    and a character that is [idle] exactly when no idle timer is pending;
    correct and wrong answers follow the learning and testing rules;
    during a game no level decreases and the window pointer never moves
    back; every audio call ends by running its [onEnd]; the percentage
    stays in 0..100, is monotone, and differs from the exact rounding only
    at exact halves, by one (for up to 100 words, checked exhaustively by
    [vm_compute]); removals keep the total and count the word as done; a
    printed catalog parses back to its words; the warm-up can always be
    passed.  The findings are proved as general theorems: removing the
    only word of the last window stalls the session, which then never
    draws a question again, and a click on the removed word's card
    crashes; a removed word removed again is counted twice; a restart keeps
    the removal count and the pending [posi] callbacks; the answer of any
    pending TTS request fills the cache of the current question; an
    [onEnd] can run twice; the warm-up's pending switches survive every
    other event and can hide a running game; repeated keys are not
    deduplicated; [normalizeText] strips one article only.

    Bounds and fuel: [updateActivePool] runs on fuel [length sequence + 1],
    enough since every recursive call moves one window forward
    ([updateActivePool_fuel_enough]); the options loop takes its fuel as a
    parameter of the model (the JavaScript loop is unbounded: the theorems
    say when it ends and that it never ends with two words); the
    percentage bounds and its rounding are checked for totals up to 100
    words, the size of the packages.  The scenarios use 40 as fuel.

    Not modelled: the Google TTS service and the audio hardware (their
    answers and the ends of playback are events of the model, in any
    order; [speechSynthesis.cancel()] interrupting an older utterance is
    one of them), [playEffect]'s sound files (only its random draw is
    kept), the DOM beyond the cards, the progress text, the replay button,
    the warm-up's options and the character's pose, the treat animation
    ([playTreatAnimation] moves a DOM element and changes no state), the
    opening and closing of the settings modal, the language of the
    fallback utterance ([app.getVoiceLang]), the API key and the constant
    audio settings of the TTS request; [fetch] is an input (the CSV text or a
    failure) and [startLoading] runs to its end before the next event.
    [PACKAGE_MANIFEST] and [AUDIO_MANIFEST] are defined outside [src/] and
    are parameters.  A sound effect runs its callback once in the model:
    in the code the [play().catch] and the [onerror] of a [posi] effect
    (lines 736-760) can both run it, which would ask [nextQuestion] twice
    (and, on the warm-up, count a second timer, line 207); the double
    [onEnd] is proved for [playAudio]'s clips only. *)

From stdpp Require Export base list gmap strings.
From Stdlib Require Export ZArith Lia.

Declare Scope drill_scope.
Delimit Scope drill_scope with drill.

Create HintDb drill discriminated.

(** ** JavaScript array primitives *)

Section JsArray.
Context {A : Type} `{EqDecision A}.

(** [arr.slice(start, end)] for non-negative [start] and [end]; both ends
    are clamped to the length of the array, as JavaScript does. *)
Definition js_slice (l : list A) (start stop : nat) : list A :=
  take (stop - start) (drop start l).

(** [arr.indexOf(x)]: the first position of [x], or [-1]. *)
Fixpoint js_indexOf (l : list A) (x : A) : Z :=
  match l with
  | [] => (-1)%Z
  | y :: l' =>
      if decide (y = x) then 0%Z
      else match js_indexOf l' x with
           | (-1)%Z => (-1)%Z
           | i => (i + 1)%Z
           end
  end.

(** [arr.splice(i, 1)] on an in-range index [i]. *)
Definition js_splice1 (l : list A) (i : nat) : list A := delete i l.

(** The idiom [const i = arr.indexOf(x); if (i > -1) arr.splice(i, 1);]. *)
Definition js_remove (l : list A) (x : A) : list A :=
  let i := js_indexOf l x in
  if (i >? -1)%Z then js_splice1 l (Z.to_nat i) else l.

(** Reference definition: drop the first occurrence. *)
Fixpoint remove_first (x : A) (l : list A) : list A :=
  match l with
  | [] => []
  | y :: l' => if decide (y = x) then l' else y :: remove_first x l'
  end.

Lemma js_indexOf_range l x :
  (js_indexOf l x = -1 /\ x ∉ l)%Z \/
  (0 <= js_indexOf l x < Z.of_nat (length l) /\
   l !! Z.to_nat (js_indexOf l x) = Some x)%Z.
Proof.
  induction l as [|y l IH]; simpl.
  - left. split; [done | apply not_elem_of_nil].
  - case_decide as Hyx; subst.
    + right. simpl. split; [lia | done].
    + destruct IH as [[-> Hn] | [Hr Hl]].
      * left. split; [done |]. rewrite elem_of_cons. intros [-> | ?]; auto.
      * right. destruct (js_indexOf l x) as [|p|p] eqn:E; try lia;
          simpl in *; split; try lia.
        -- done.
        -- replace (Z.to_nat (Z.pos p + 1)) with (S (Z.to_nat (Z.pos p))) by lia. done.

Qed.

(** The indexOf/splice idiom removes exactly the first occurrence. *)
Lemma js_remove_first l x : js_remove l x = remove_first x l.
Proof.
  induction l as [|y l IH]; [done |].
  unfold js_remove in *. simpl. case_decide as Hyx; [done |].
  destruct (js_indexOf_range l x) as [[E _] | [Hr _]].
  - rewrite E in IH |- *. simpl in *. by rewrite <- IH.
  - destruct (js_indexOf l x) as [|p|p] eqn:E; try lia; simpl in *.
    + rewrite <- IH. done.
    + replace (Z.to_nat (Z.pos p + 1)) with (S (Z.to_nat (Z.pos p))) by lia.
      rewrite <- IH. done.
Qed.

Lemma remove_first_notin x l : x ∉ l -> remove_first x l = l.
Proof.
  induction l as [|y l IH]; intros Hn; simpl; [done |].
  rewrite elem_of_cons in Hn. case_decide; [subst; tauto |].
  rewrite IH; [done | tauto].
Qed.

Lemma remove_first_perm x l : x ∈ l -> l ≡ₚ x :: remove_first x l.
Proof.
  induction l as [|y l IH]; intros Hin; simpl.
  - by apply not_elem_of_nil in Hin.
  - case_decide as Hyx; [by subst |].
    rewrite elem_of_cons in Hin. destruct Hin as [-> | Hin]; [done |].
    rewrite (IH Hin) at 1. apply Permutation_swap.
Qed.

Lemma remove_first_sublist x l : remove_first x l `sublist_of` l.
Proof.
  induction l as [|y l IH]; simpl; [done |].
  case_decide; [by apply sublist_cons | by apply sublist_skip].
Qed.

Lemma elem_of_remove_first x y l :
  y ≠ x -> y ∈ remove_first x l <-> y ∈ l.
Proof.
  intros Hne. induction l as [|z l IH]; simpl; [done |].
  case_decide as Hz; subst.
  - rewrite elem_of_cons. naive_solver.
  - rewrite !elem_of_cons. naive_solver.
Qed.

Lemma length_remove_first x l :
  x ∈ l -> length (remove_first x l) = pred (length l).
Proof.
  intros Hin. rewrite (Permutation_length (remove_first_perm x l Hin)).
  done.
Qed.

Lemma NoDup_remove_first x l : NoDup l -> NoDup (remove_first x l).
Proof. intros H. by eapply sublist_NoDup, remove_first_sublist. Qed.

Lemma not_elem_of_remove_first x l : NoDup l -> x ∉ remove_first x l.
Proof.
  induction l as [|y l IH]; simpl; intros Hnd; [apply not_elem_of_nil |].
  apply NoDup_cons in Hnd as [Hy Hnd].
  case_decide; subst; [done |].
  rewrite elem_of_cons. intros [-> | ?]; [done | by apply IH].
Qed.

Lemma length_js_slice l start stop :
  length (js_slice l start stop) = min (stop - start) (length l - start).
Proof. unfold js_slice. by rewrite length_take, length_drop. Qed.

Lemma js_slice_sublist l start stop : js_slice l start stop `sublist_of` l.
Proof.
  unfold js_slice. etrans; [apply sublist_take | apply sublist_drop].
Qed.

Lemma remove_dups_length_equiv (l1 l2 : list A) :
  (forall x, x ∈ l1 <-> x ∈ l2) ->
  length (remove_dups l1) = length (remove_dups l2).
Proof.
  intros H. apply Permutation_length, NoDup_Permutation;
    try apply NoDup_remove_dups.
  intros x. rewrite !elem_of_remove_dups. apply H.
Qed.

Lemma remove_dups_length_NoDup (l : list A) :
  NoDup l -> length (remove_dups l) = length l.
Proof.
  intros Hnd. apply Permutation_length, NoDup_Permutation;
    [apply NoDup_remove_dups | done | intros; apply elem_of_remove_dups].
Qed.

Lemma NoDup_length_le (l k : list A) :
  NoDup l -> (forall x, x ∈ l -> x ∈ k) -> length l <= length k.
Proof.
  intros Hnd Hsub. apply NoDup_incl_length; [by apply NoDup_ListNoDup |].
  intros x Hx. apply list_elem_of_In, Hsub, list_elem_of_In, Hx.
Qed.

Lemma filter_id_all (f : A -> bool) (l : list A) :
  (forall x, x ∈ l -> f x = true) -> List.filter f l = l.
Proof.
  induction l as [|x l IH]; intros Hall; simpl; [done |].
  rewrite (Hall x) by (apply elem_of_cons; by left).
  rewrite IH; [done |]. intros y Hy. apply Hall. by right.
Qed.

Lemma length_filter_perm (f : A -> bool) (l l' : list A) :
  l ≡ₚ l' -> length (List.filter f l) = length (List.filter f l').
Proof.
  induction 1 as [| x l l' _ IH | x y l | l l' l'' _ IH1 _ IH2]; simpl;
    try destruct (f x); try destruct (f y); simpl; lia.
Qed.

Lemma length_remove_first_le x l : length (remove_first x l) <= length l.
Proof. apply sublist_length, remove_first_sublist. Qed.
End JsArray.

#[export] Hint Resolve remove_first_sublist NoDup_remove_first
  js_slice_sublist : drill.

(** ** JavaScript [Map] with string keys

    A JavaScript [Map] remembers the order in which keys were first
    inserted, and [Array.from(m.keys())] observes it; [set] on a present key
    keeps its position.  The model is an association list without duplicate
    keys, in insertion order. *)

Section JsMap.
Context {V : Type}.

Definition JsMap : Type := list (string * V).

Fixpoint jsmap_get (k : string) (m : JsMap) : option V :=
  match m with
  | [] => None
  | (k', v) :: m' => if String.eqb k' k then Some v else jsmap_get k m'
  end.

Fixpoint jsmap_set (k : string) (v : V) (m : JsMap) : JsMap :=
  match m with
  | [] => [(k, v)]
  | (k', v') :: m' =>
      if String.eqb k' k then (k', v) :: m' else (k', v') :: jsmap_set k v m'
  end.

Fixpoint jsmap_delete (k : string) (m : JsMap) : JsMap :=
  match m with
  | [] => []
  | (k', v') :: m' => if String.eqb k' k then m' else (k', v') :: jsmap_delete k m'
  end.

Definition jsmap_keys (m : JsMap) : list string := map fst m.

Lemma jsmap_get_set_eq k v m : jsmap_get k (jsmap_set k v m) = Some v.
Proof.
  induction m as [|[k' v'] m IH]; simpl; [by rewrite String.eqb_refl |].
  destruct (String.eqb_spec k' k); simpl.
  - subst. by rewrite String.eqb_refl.
  - rewrite <- String.eqb_neq in n. by rewrite n.
Qed.

Lemma jsmap_get_set_ne k k2 v m :
  k <> k2 -> jsmap_get k2 (jsmap_set k v m) = jsmap_get k2 m.
Proof.
  intros Hne. induction m as [|[k' v'] m IH]; simpl.
  - destruct (String.eqb_spec k k2); congruence.
  - destruct (String.eqb_spec k' k); simpl.
    + subst. destruct (String.eqb_spec k k2); congruence.
    + by rewrite IH.
Qed.

Lemma jsmap_get_delete k k2 m :
  NoDup (jsmap_keys m) ->
  jsmap_get k2 (jsmap_delete k m) = if String.eqb k k2 then None else jsmap_get k2 m.
Proof.
  unfold jsmap_keys. induction m as [|[k' v'] m IH]; simpl; intros Hnd.
  - by destruct (String.eqb k k2).
  - apply NoDup_cons in Hnd as [Hn Hnd].
    destruct (String.eqb_spec k' k); simpl.
    + subst. destruct (String.eqb_spec k k2); [subst |done].
      destruct (jsmap_get k2 m) eqn:E; [| done].
      exfalso. apply Hn. clear -E. induction m as [|[a b] m IH]; simpl in *;
        [done |]. destruct (String.eqb_spec a k2); subst; [left | right; auto].
    + rewrite IH by done. destruct (String.eqb_spec k k2); subst; [| done].
      by rewrite <- String.eqb_neq in n; rewrite n.
Qed.

Lemma jsmap_keys_set k v m :
  jsmap_keys (jsmap_set k v m) =
  if decide (k ∈ jsmap_keys m) then jsmap_keys m else jsmap_keys m ++ [k].
Proof.
  unfold jsmap_keys. induction m as [|[k' v'] m IH]; cbn [jsmap_set map fst].
  - destruct (decide (k ∈ [])) as [H | H]; [by apply not_elem_of_nil in H | done].
  - destruct (String.eqb_spec k' k); cbn [map fst].
    + subst. destruct (decide (k ∈ k :: map fst m)) as [H | H];
        [done | exfalso; apply H; left].
    + rewrite IH.
      destruct (decide (k ∈ map fst m)) as [H1 | H1],
        (decide (k ∈ k' :: map fst m)) as [H2 | H2]; try done.
      * exfalso. apply H2. by right.
      * exfalso. apply elem_of_cons in H2 as [-> | H2]; done.
Qed.

Lemma jsmap_keys_delete k m :
  jsmap_keys (jsmap_delete k m) = remove_first k (jsmap_keys m).
Proof.
  unfold jsmap_keys. induction m as [|[k' v'] m IH]; simpl; [done |].
  destruct (String.eqb_spec k' k); case_decide; simpl; congruence.
Qed.

Lemma jsmap_get_Some_keys k v m : jsmap_get k m = Some v -> k ∈ jsmap_keys m.
Proof.
  unfold jsmap_keys. induction m as [|[k' v'] m IH]; simpl; [done |].
  destruct (String.eqb_spec k' k); intros H; [subst; left | right; auto].
Qed.

Lemma jsmap_keys_get k m : k ∈ jsmap_keys m -> is_Some (jsmap_get k m).
Proof.
  unfold jsmap_keys. induction m as [|[k' v'] m IH]; simpl.
  - by intros ?%not_elem_of_nil.
  - rewrite elem_of_cons. destruct (String.eqb_spec k' k); [done |].
    intros [-> | H]; [done | auto].
Qed.

Lemma NoDup_jsmap_keys_set k v m :
  NoDup (jsmap_keys m) -> NoDup (jsmap_keys (jsmap_set k v m)).
Proof.
  rewrite jsmap_keys_set. case_decide as H; [done |].
  intros Hnd. apply NoDup_app. split; [done |]. split; [| apply NoDup_singleton].
  intros x Hx ->%list_elem_of_singleton. done.
Qed.
End JsMap.

Arguments JsMap : clear implicits.

(** ** Lists updated by index *)

Section ListIndex.
Context {A B : Type}.

Lemma map_as_fmap (f : A -> B) (l : list A) : map f l = f <$> l.
Proof. induction l as [|x l IH]; simpl; [done | by rewrite IH]. Qed.

Lemma list_elem_of_insert_inv (l : list A) i x y :
  y ∈ <[i:=x]> l -> y = x \/ y ∈ l.
Proof.
  revert i. induction l as [|z l IH]; intros i H.
  - by apply not_elem_of_nil in H.
  - destruct i as [|i]; simpl in H.
    + apply elem_of_cons in H as [-> | H]; [by left | right; by right].
    + apply elem_of_cons in H as [-> | H]; [right; by left |].
      destruct (IH i H) as [-> | H']; [by left | right; by right].
Qed.

Lemma NoDup_map_lookup_inj (f : A -> B) (l : list A) i j x y :
  NoDup (map f l) -> l !! i = Some x -> l !! j = Some y -> f x = f y -> i = j.
Proof.
  rewrite map_as_fmap. intros Hnd Hi Hj Hf.
  apply (NoDup_lookup (f <$> l) i j (f x) Hnd).
  - by rewrite list_lookup_fmap, Hi.
  - by rewrite list_lookup_fmap, Hj, Hf.
Qed.

Lemma map_insert_same (f : A -> B) (l : list A) i x y :
  l !! i = Some y -> f x = f y -> map f (<[i:=x]> l) = map f l.
Proof.
  rewrite !map_as_fmap, list_fmap_insert. intros Hi ->.
  apply list_insert_id. by rewrite list_lookup_fmap, Hi.
Qed.
End ListIndex.

(** ** Strings

    stdpp makes [String.append] ([+:+]) opaque to [simpl]; its equations
    are the rewrite database [strs]. *)

Create HintDb strs discriminated.

Lemma str_app_nil_l s : "" +:+ s = s.
Proof. reflexivity. Qed.

Lemma str_app_cons c s t : String c s +:+ t = String c (s +:+ t).
Proof. reflexivity. Qed.

Lemma str_app_nil_r s : s +:+ "" = s.
Proof. induction s as [|c s IH]; [done |]. by rewrite str_app_cons, IH. Qed.

Lemma str_app_assoc a b c : (a +:+ b) +:+ c = a +:+ (b +:+ c).
Proof. induction a as [|x a IH]; [done |]. by rewrite !str_app_cons, IH. Qed.

#[export] Hint Rewrite str_app_nil_l str_app_cons str_app_nil_r str_app_assoc : strs.
