(* ===== verification/Random.v ===== *)
(** * Random: [Math.random()], [Math.floor(Math.random() * n)] and [shuffleArray]

    [Math.random()] is the program's only source of nondeterminism.  Its
    result is a double [u / 2^53] with [u] a 53-bit integer; the interface
    [Entropy] says what the program relies on from it (each draw is such a
    [u]).  Draws are threaded through a small state monad [Rand].  The
    concrete source [Rng] reads a stream of integers kept to 53 bits.
    [shuffleArray] (lines 546-551) is shown to be a Fisher-Yates shuffle:
    a permutation of its input whose result, on distinct elements,
    determines every index its loop drew. *)

From S2P Require Import Prelude.

Local Open Scope Z_scope.

(** ** The interface of the random source *)

Definition random_scale : Z := 2 ^ 53.

Class Entropy (R : Type) := {
  draw : R -> Z * R;
  draw_range : forall r, 0 <= fst (draw r) < random_scale
}.

(** ** The random-draw monad *)

Definition Rand (R A : Type) : Type := R -> A * R.

Definition rret {R A} (x : A) : Rand R A := fun r => (x, r).
Definition rbind {R A B} (m : Rand R A) (k : A -> Rand R B) : Rand R B :=
  fun r => let '(x, r') := m r in k x r'.

Notation "x <-$ m ;; k" := (rbind m (fun x => k))
  (at level 100, m at next level, right associativity) : drill_scope.
Local Open Scope drill_scope.

(** [Math.floor(Math.random() * n)], with the product computed exactly. *)
Definition floor_random (u : Z) (n : nat) : nat :=
  Z.to_nat (u * Z.of_nat n / random_scale).

Definition random_index {R} `{Entropy R} (n : nat) : Rand R nat :=
  u <-$ draw ;; rret (floor_random u n).

(** ** A concrete source: a stream of 53-bit values and a cursor *)

Record Rng := mkRng { rng_stream : nat -> Z; rng_pos : nat }.

Definition rng_draw (r : Rng) : Z * Rng :=
  (rng_stream r (rng_pos r) mod random_scale,
   mkRng (rng_stream r) (S (rng_pos r))).

#[export] Program Instance Rng_entropy : Entropy Rng := {| draw := rng_draw |}.
Next Obligation.
  intros r. unfold rng_draw, random_scale. simpl.
  apply Z.mod_pos_bound. lia.
Qed.

(** A fixed source for concrete runs: [Math.random()] returns
    [0, 1/4, 1/2, 3/4, 0, ...]. *)
Definition ex_rng : Rng := mkRng (fun i => Z.of_nat i * 2 ^ 51) 0.

(** ** [shuffleArray] (Fisher-Yates, in place) *)

Section Shuffle.
Context {A : Type} {R : Type} `{Entropy R}.

(** [[array[i], array[j]] = [array[j], array[i]]]: the right-hand side is
    read first, then [array[i]] and [array[j]] are assigned in order.  In
    [shuffleArray] both indices are always in range ([j <= i < length]);
    out of range, where JavaScript would write [undefined] and extend the
    array, the model leaves the list unchanged.  [shuffleArray_fisher_yates]
    below fails for a loop that draws [j] out of range, so this case does
    not hide such a bug. *)
Definition js_swap (a : list A) (i j : nat) : list A :=
  match a !! i, a !! j with
  | Some xi, Some xj => <[j := xi]> (<[i := xj]> a)
  | _, _ => a
  end.

(** The loop body for [i = S i'] down to [1]; [j] is drawn in [0..i]. *)
Fixpoint shuffle_from (i : nat) (a : list A) : Rand R (list A) :=
  match i with
  | O => rret a
  | S i' =>
      j <-$ random_index (S (S i')) ;;
      shuffle_from i' (js_swap a (S i') j)
  end.

Definition shuffleArray (a : list A) : Rand R (list A) :=
  shuffle_from (length a - 1) a.

(** The indices [Math.floor(Math.random() * (i + 1))] the loop draws, for
    [i] from [S i'] down to [1]. *)
Fixpoint shuffle_draws (i : nat) : Rand R (list nat) :=
  match i with
  | O => rret []
  | S i' =>
      j <-$ random_index (S (S i')) ;;
      js <-$ shuffle_draws i' ;;
      rret (j :: js)
  end.
End Shuffle.

(** ** Lemmas *)

Lemma floor_random_lt u n :
  0 <= u < random_scale -> (0 < n)%nat -> (floor_random u n < n)%nat.
Proof.
  intros [Hu0 Hu1] Hn. unfold floor_random.
  assert (u * Z.of_nat n / random_scale < Z.of_nat n).
  { apply Z.div_lt_upper_bound; unfold random_scale in *; nia. }
  assert (0 <= u * Z.of_nat n / random_scale).
  { apply Z.div_pos; unfold random_scale; lia. }
  lia.
Qed.

Lemma random_index_lt {R} `{Entropy R} (n : nat) (r : R) :
  (0 < n)%nat -> (fst (random_index n r) < n)%nat.
Proof.
  intros Hn. unfold random_index, rbind, rret.
  pose proof (draw_range r) as Hr.
  destruct (draw r) as [u r']. by apply floor_random_lt.
Qed.

#[export] Hint Resolve random_index_lt : drill.

Section ShuffleFacts.
Context {A : Type} {R : Type} `{Entropy R}.

Lemma js_swap_perm (a : list A) i j : js_swap a i j ≡ₚ a.
Proof.
  unfold js_swap.
  destruct (a !! i) eqn:Ei, (a !! j) eqn:Ej; try done.
  by apply Permutation_insert_swap.
Qed.

Lemma shuffle_from_perm i (a : list A) (r : R) :
  fst (shuffle_from i a r) ≡ₚ a.
Proof.
  revert a r. induction i as [|i IH]; intros a r; simpl; [done |].
  unfold rbind at 1. destruct (random_index _ r) as [j r'].
  etrans; [apply IH | apply js_swap_perm].
Qed.

Local Open Scope nat_scope.

Lemma js_swap_length (a : list A) i j : length (js_swap a i j) = length a.
Proof. apply Permutation_length, js_swap_perm. Qed.

Lemma js_swap_lookup_i (a : list A) i j x :
  i < length a -> a !! j = Some x -> js_swap a i j !! i = Some x.
Proof.
  intros Hi Hj. unfold js_swap. rewrite Hj.
  destruct (lookup_lt_is_Some_2 a i Hi) as [xi Hxi]. rewrite Hxi.
  destruct (decide (i = j)) as [-> | Hne].
  - rewrite list_lookup_insert_eq; [congruence |]. by rewrite length_insert.
  - rewrite list_lookup_insert_ne by done. by rewrite list_lookup_insert_eq.
Qed.

Lemma js_swap_lookup_other (a : list A) i j k :
  k <> i -> k <> j -> js_swap a i j !! k = a !! k.
Proof.
  intros Hi Hj. unfold js_swap.
  destruct (a !! i), (a !! j); try done. by rewrite !list_lookup_insert_ne.
Qed.

(** The loop at [i] only swaps positions up to [i]. *)
Lemma shuffle_from_high i (a : list A) (r : R) k :
  i < k -> fst (shuffle_from i a r) !! k = a !! k.
Proof.
  revert a r. induction i as [|i IH]; intros a r Hk; [done |]. cbn [shuffle_from].
  unfold rbind at 1. pose proof (random_index_lt (S (S i)) r) as Hj.
  destruct (random_index _ r) as [j r']. cbn [fst] in Hj.
  rewrite IH by lia. apply js_swap_lookup_other; lia.
Qed.

(** Distinct draws give distinct arrays: the draw at [i] is the position
    of the element that ends at [i], and the rest of the loop does not
    move it. *)
Lemma shuffle_from_inj i (a : list A) (r1 r2 : R) :
  NoDup a -> i < length a ->
  fst (shuffle_from i a r1) = fst (shuffle_from i a r2) ->
  fst (shuffle_draws i r1) = fst (shuffle_draws i r2).
Proof.
  revert a r1 r2. induction i as [|i IH]; intros a r1 r2 Hnd Hlen Heq; [done |].
  cbn [shuffle_from shuffle_draws] in *. unfold rbind in *.
  pose proof (random_index_lt (S (S i)) r1) as Hj1.
  pose proof (random_index_lt (S (S i)) r2) as Hj2.
  destruct (random_index _ r1) as [j1 r1'], (random_index _ r2) as [j2 r2'].
  cbn [fst] in Hj1, Hj2.
  assert (Hlast : forall j r', j < S (S i) ->
            fst (shuffle_from i (js_swap a (S i) j) r') !! S i = a !! j).
  { intros j r' Hj. rewrite shuffle_from_high by lia.
    destruct (lookup_lt_is_Some_2 a j) as [x Hx]; [lia |].
    rewrite Hx. by apply js_swap_lookup_i. }
  assert (j1 = j2) as <-.
  { destruct (lookup_lt_is_Some_2 a j1) as [x Hx]; [lia |].
    apply (NoDup_lookup a j1 j2 x Hnd Hx).
    by rewrite <- (Hlast j2 r2'), <- Heq, Hlast by lia. }
  assert (Hdraws : fst (shuffle_draws i r1') = fst (shuffle_draws i r2')).
  { apply (IH (js_swap a (S i) j1)); [| rewrite js_swap_length; lia | exact Heq].
    by rewrite js_swap_perm. }
  destruct (shuffle_draws i r1') as [js1 r1''], (shuffle_draws i r2') as [js2 r2''].
  cbn [fst] in *. by subst.
Qed.
End ShuffleFacts.

Section FisherYates.
Context {A : Type} {R : Type} `{Entropy R}.

(** C19: [shuffleArray] is a Fisher-Yates shuffle: whatever the random
    draws, it returns a permutation of its input, and on an array of
    distinct elements two runs return the same array only if they drew the
    same indices [Math.floor(Math.random() * (i + 1))] at every step; so
    the [n!] draw sequences give [n!] different orders. *)
Theorem shuffleArray_fisher_yates (a : list A) (r1 r2 : R) :
  NoDup a ->
  fst (shuffleArray a r1) ≡ₚ a /\
  (fst (shuffleArray a r1) = fst (shuffleArray a r2) ->
   fst (shuffle_draws (length a - 1) r1) = fst (shuffle_draws (length a - 1) r2)).
Proof.
  intros Hnd. split; [apply shuffle_from_perm |]. intros Heq.
  destruct a as [|x a]; [done |]. apply (shuffle_from_inj _ (x :: a)); [done | cbn; lia | done].
Qed.
End FisherYates.

Lemma shuffleArray_fisher_yates_witness :
  NoDup [0; 1; 2] /\ fst (shuffleArray [0; 1; 2] ex_rng) ≡ₚ [0; 1; 2].
Proof.
  assert (Hnd : NoDup [0; 1; 2]) by (apply (bool_decide_unpack _); vm_compute; reflexivity).
  split; [exact Hnd |]. exact (proj1 (shuffleArray_fisher_yates [0; 1; 2] ex_rng ex_rng Hnd)).
Defined.
