(* ===== verification/Mastery.v ===== *)
(** * Mastery: the per-word progress record and its update rules

    Models the entries of [app.state.progressMap] ([src/script.js] lines
    90, 494), the level-advance rule of the correct branch of
    [handleSelection] (lines 855-875), the seen counter of [nextQuestion]
    (line 602), the pool membership test of [updateActivePool] (lines
    566-569) and the status text of [updateLevelIndicator] (lines
    637-654).  The invariant [progress_wf] (level at most the threshold,
    mastered exactly at the threshold) is preserved by every update the
    program makes to a word that is still in the active pool. *)

From S2P Require Import Prelude.

Module Mastery.

(** [{ level: 0, mastered: false, seenCount: 0 }] *)
Record Progress := mkProgress {
  level : nat;
  mastered : bool;
  seenCount : nat
}.

(** [CONFIG.masteryThreshold] (line 7). *)
Definition masteryThreshold : nat := 5.

(** The record [loadData] creates for every key of the sequence. *)
Definition initial_progress : Progress := mkProgress 0 false 0.

(** [shouldAdvance]: always in the learning phase ([level < 2]); in the
    testing phase only on a perfect first try. *)
Definition shouldAdvance (p : Progress) (currentQuestionFailed : bool) : bool :=
  if level p <? 2 then true else negb currentQuestionFailed.

(** [progress.level++; if (progress.level >= threshold) progress.mastered = true;] *)
Definition advance (p : Progress) : Progress :=
  let l := S (level p) in
  mkProgress l (if masteryThreshold <=? l then true else mastered p) (seenCount p).

Definition on_correct (p : Progress) (currentQuestionFailed : bool) : Progress :=
  if shouldAdvance p currentQuestionFailed then advance p else p.

(** [progress.seenCount = (progress.seenCount || 0) + 1]. *)
Definition mark_seen (p : Progress) : Progress :=
  mkProgress (level p) (mastered p) (S (seenCount p)).

(** [const p = progressMap.get(key); return p && !p.mastered;] *)
Definition is_active (o : option Progress) : bool :=
  match o with
  | Some p => negb (mastered p)
  | None => false
  end.

(** The status shown by [updateLevelIndicator]: [Learning] below level 2,
    else [Test: (level - 1)/3]. *)
Inductive LevelStatus := Learning | Test (stage : nat).

Definition updateLevelIndicator (lvl : nat) : LevelStatus :=
  if lvl <? 2 then Learning else Test (lvl - 1).

(** The record invariant: the level never passes the threshold, and the
    word is mastered exactly when the level reaches it. *)
Definition progress_wf (p : Progress) : bool :=
  (level p <=? masteryThreshold) && Bool.eqb (mastered p) (level p =? masteryThreshold).

(** *** Lemmas *)

Lemma progress_wf_iff p :
  progress_wf p = true <->
  level p <= masteryThreshold /\ (mastered p = true <-> level p = masteryThreshold).
Proof.
  unfold progress_wf. rewrite andb_true_iff, Nat.leb_le.
  destruct (mastered p), (Nat.eqb_spec (level p) masteryThreshold);
    simpl; intuition congruence.
Qed.

Lemma initial_progress_wf : progress_wf initial_progress = true.
Proof. reflexivity. Qed.

Lemma on_correct_wf p f :
  progress_wf p = true -> mastered p = false -> progress_wf (on_correct p f) = true.
Proof.
  intros H Hnm. apply progress_wf_iff in H as [Hl Hm]. apply progress_wf_iff.
  unfold on_correct, advance, masteryThreshold in *. rewrite Hnm in Hm.
  assert (level p <> 5) by (intros E; apply Hm in E; discriminate).
  destruct (shouldAdvance p f); cbn [level mastered];
    [destruct (Nat.leb_spec 5 (S (level p))) |]; rewrite ?Hnm;
    (split; [lia | split; intros; first [done | congruence | lia | exfalso; lia]]).
Qed.

Lemma on_correct_level p f :
  level (on_correct p f) =
  if (level p <? 2) || negb f then S (level p) else level p.
Proof.
  unfold on_correct, shouldAdvance.
  destruct (level p <? 2), f; reflexivity.
Qed.

Lemma on_correct_mono p f :
  level p <= level (on_correct p f) /\
  (mastered p = true -> mastered (on_correct p f) = true).
Proof.
  unfold on_correct, advance.
  destruct (shouldAdvance p f); cbn [level mastered]; [| done].
  split; [lia |]. intros ->. by destruct (masteryThreshold <=? S (level p)).
Qed.

Lemma on_correct_seen p f : seenCount (on_correct p f) = seenCount p.
Proof. unfold on_correct. by destruct (shouldAdvance p f). Qed.

Lemma mark_seen_wf p : progress_wf (mark_seen p) = progress_wf p.
Proof. reflexivity. Qed.

Lemma is_active_Some p : is_active (Some p) = true <-> mastered p = false.
Proof. simpl. by destruct (mastered p). Qed.

End Mastery.

#[export] Hint Resolve Mastery.on_correct_wf Mastery.initial_progress_wf : drill.
