(* ===== verification/Scheduler.v ===== *)
(** * Scheduler: the windowed active pool ([updateActivePool])

    Models [app.updateActivePool] ([src/script.js] lines 561-580): the
    shuffled [sequence] is cut into windows of [groupSize] keys; the active
    pool is the current window without its mastered keys; when that pool
    is empty but the window is not, the group index advances (recursively)
    or, on the last window, the session completes.  The recursion is a
    [Fixpoint] on fuel; [updateActivePool_fuel_enough] shows that
    [length sequence + 1] steps always suffice.  [pool_spec] is the
    abstract contract of the scheduler, and [updateActivePool_refines]
    shows the code meets it and is determined by it. *)

From S2P Require Import Prelude Mastery.
Import Mastery.

Module Scheduler.

(** What [updateActivePool] leaves in the state: [currentGroupIndex],
    [activePool], and whether it reached the
    [alert(...); location.reload()] branch. *)
Record PoolResult := mkPoolResult {
  pr_group : nat;
  pr_pool : list string;
  pr_complete : bool
}.

Section Pool.
Context (sequence : list string) (progressMap : gmap string Progress)
        (groupSize : nat).

(** [groupKeys]: [sequence.slice(start, end)] for window [g]. *)
Definition window (g : nat) : list string :=
  js_slice sequence (g * groupSize) (g * groupSize + groupSize).

(** [groupKeys.filter(key => p && !p.mastered)] *)
Definition window_pool (g : nat) : list string :=
  List.filter (fun k => is_active (progressMap !! k)) (window g).

Fixpoint updateActivePool_fuel (fuel gi : nat) : option PoolResult :=
  match fuel with
  | O => None
  | S fuel' =>
      let start := gi * groupSize in
      let stop := start + groupSize in
      let groupKeys := js_slice sequence start stop in
      let activePool :=
        List.filter (fun k => is_active (progressMap !! k)) groupKeys in
      if (length activePool =? 0) && (0 <? length groupKeys) then
        if stop <? length sequence then updateActivePool_fuel fuel' (S gi)
        else Some (mkPoolResult gi activePool true)
      else Some (mkPoolResult gi activePool false)
  end.

Definition updateActivePool (gi : nat) : PoolResult :=
  match updateActivePool_fuel (S (length sequence)) gi with
  | Some r => r
  | None => mkPoolResult gi [] false
  end.

(** A window the code leaves: non-empty with every key mastered. *)
Definition exhausted (g : nat) : Prop :=
  window_pool g = [] /\ window g <> [].

(** The scheduler's contract, from group index [gi]. *)
Definition pool_spec (gi : nat) (r : PoolResult) : Prop :=
  gi <= pr_group r /\
  (forall g, gi <= g < pr_group r ->
             exhausted g /\ g * groupSize + groupSize < length sequence) /\
  pr_pool r = window_pool (pr_group r) /\
  (pr_complete r = true <->
     exhausted (pr_group r) /\
     ~ (pr_group r * groupSize + groupSize < length sequence)) /\
  (pr_complete r = false ->
     ~ exhausted (pr_group r)).

(** *** Lemmas *)

Lemma window_nil_iff g :
  window g = [] <-> length sequence <= g * groupSize \/ groupSize = 0.
Proof.
  rewrite <- length_zero_iff_nil. unfold window.
  rewrite length_js_slice. lia.
Qed.

Lemma exhausted_dec_eq g :
  ((length (window_pool g) =? 0) && (0 <? length (window g))) = true <->
  exhausted g.
Proof.
  unfold exhausted. rewrite andb_true_iff, Nat.eqb_eq, Nat.ltb_lt,
    length_zero_iff_nil.
  split; intros [H1 H2]; split; try done.
  - intros E. rewrite E in H2. simpl in H2. lia.
  - destruct (window g); [done | simpl; lia].
Qed.

Lemma updateActivePool_fuel_step fuel gi :
  updateActivePool_fuel (S fuel) gi =
  if (length (window_pool gi) =? 0) && (0 <? length (window gi)) then
    if gi * groupSize + groupSize <? length sequence
    then updateActivePool_fuel fuel (S gi)
    else Some (mkPoolResult gi (window_pool gi) true)
  else Some (mkPoolResult gi (window_pool gi) false).
Proof. reflexivity. Qed.

(** Each advance moves past a non-empty window, so it consumes at least
    one key of the sequence: the loop runs at most
    [length sequence - gi] times. *)
Lemma updateActivePool_fuel_some fuel gi :
  length sequence - gi < fuel ->
  exists r, updateActivePool_fuel fuel gi = Some r /\ pool_spec gi r.
Proof.
  revert gi. induction fuel as [|fuel IH]; intros gi Hf; [lia |].
  rewrite updateActivePool_fuel_step.
  destruct ((length (window_pool gi) =? 0) && (0 <? length (window gi)))
    eqn:Ex.
  - apply exhausted_dec_eq in Ex as Hex.
    destruct (Nat.ltb_spec (gi * groupSize + groupSize) (length sequence))
      as [Hlt | Hge].
    + assert (groupSize <> 0).
      { intros E. apply (proj2 Hex). apply window_nil_iff. lia. }
      destruct (IH (S gi)) as (r & Hr & Hs1 & Hs2 & Hs3 & Hs4 & Hs5); [nia |].
      exists r. split; [done |].
      split; [lia |]. split; [| done].
      intros g' Hg'. destruct (decide (g' = gi)) as [-> | Hne]; [done |].
      apply Hs2. lia.
    + eexists. split; [done |].
      split; [simpl; lia |]. split; [simpl; lia |]. split; [done |].
      split; [| done]. simpl. split; [| done]. intros _. split; [done | lia].
  - eexists. split; [done |].
    split; [simpl; lia |]. split; [simpl; lia |]. split; [done |]. simpl.
    split.
    + split; [discriminate |].
      intros [Hc _]. apply exhausted_dec_eq in Hc. congruence.
    + intros _ Hc. apply exhausted_dec_eq in Hc. congruence.
Qed.

(** The contract determines the result. *)
(** The group a result of the contract rests on is not one the code
    would advance past. *)
Lemma pool_spec_stops gi r :
  pool_spec gi r ->
  ~ (exhausted (pr_group r) /\
     pr_group r * groupSize + groupSize < length sequence).
Proof.
  intros (_ & _ & _ & D & E) [Hex Hlt]. destruct (pr_complete r) eqn:Hc.
  - by apply (proj1 D eq_refl).
  - by apply (E eq_refl).
Qed.

Lemma pool_spec_unique gi r1 r2 :
  pool_spec gi r1 -> pool_spec gi r2 -> r1 = r2.
Proof.
  intros S1 S2.
  pose proof (pool_spec_stops _ _ S1) as T1.
  pose proof (pool_spec_stops _ _ S2) as T2.
  destruct S1 as (A1 & B1 & C1 & D1 & E1), S2 as (A2 & B2 & C2 & D2 & E2).
  assert (Hg : pr_group r1 = pr_group r2).
  { destruct (Nat.lt_total (pr_group r1) (pr_group r2)) as [Hlt | [Heq | Hlt]];
      [| done |].
    - exfalso. apply T1, B2. lia.
    - exfalso. apply T2, B1. lia. }
  destruct r1 as [g1 p1 c1], r2 as [g2 p2 c2]; simpl in *; subst.
  f_equal; try done.
  destruct c1, c2; try done; exfalso.
  - by apply (E2 eq_refl), (proj1 D1 eq_refl).
  - by apply (E1 eq_refl), (proj1 D2 eq_refl).
Qed.

Lemma window_lookup g i k :
  g * groupSize <= i < g * groupSize + groupSize ->
  sequence !! i = Some k -> k ∈ window g.
Proof.
  intros Hi Hk. unfold window, js_slice.
  apply list_elem_of_lookup. exists (i - g * groupSize).
  rewrite lookup_take_lt by lia. rewrite lookup_drop.
  by replace (g * groupSize + (i - g * groupSize)) with i by lia.
Qed.

Lemma window_pool_nil_inactive g k :
  window_pool g = [] -> k ∈ window g -> is_active (progressMap !! k) = false.
Proof.
  unfold window_pool. intros Hnil Hk.
  destruct (is_active (progressMap !! k)) eqn:Ha; [| done].
  assert (Hin : In k (List.filter (fun k => is_active (progressMap !! k)) (window g))).
  { apply filter_In. split; [by apply list_elem_of_In | done]. }
  rewrite Hnil in Hin. destruct Hin.
Qed.

(** C10: Termination of the window-advance recursion: with the fuel
    [length sequence + 1] the loop always returns. *)
Theorem updateActivePool_fuel_enough gi :
  updateActivePool_fuel (S (length sequence)) gi = Some (updateActivePool gi).
Proof.
  unfold updateActivePool.
  destruct (updateActivePool_fuel_some (S (length sequence)) gi) as (r & -> & _);
    [lia | done].
Qed.

Lemma updateActivePool_spec gi : pool_spec gi (updateActivePool gi).
Proof.
  destruct (updateActivePool_fuel_some (S (length sequence)) gi)
    as (r0 & Hr0 & Hs0); [lia |].
  unfold updateActivePool. by rewrite Hr0.
Qed.

Lemma updateActivePool_eq gi r : pool_spec gi r -> updateActivePool gi = r.
Proof. intros Hs. exact (pool_spec_unique gi _ _ (updateActivePool_spec gi) Hs). Qed.

(** C1: Refinement: [updateActivePool] meets the scheduler contract
    [pool_spec], and the contract admits no other result. *)
Theorem updateActivePool_refines gi r :
  pool_spec gi r <-> updateActivePool gi = r.
Proof.
  split; [apply updateActivePool_eq | intros <-; apply updateActivePool_spec].
Qed.

Lemma updateActivePool_pool_progress gi k :
  k ∈ pr_pool (updateActivePool gi) ->
  exists p, progressMap !! k = Some p /\ mastered p = false.
Proof.
  destruct (updateActivePool_spec gi) as (_ & _ & Hpool & _).
  rewrite Hpool. unfold window_pool. rewrite list_elem_of_In, filter_In.
  intros [_ Ha]. destruct (progressMap !! k) as [p|]; [| done].
  exists p. split; [done |]. by apply is_active_Some.
Qed.

(** Running the scheduler again from where it stopped changes nothing:
    [startGame] and [nextQuestion] both call it. *)
Lemma updateActivePool_idem gi :
  updateActivePool (pr_group (updateActivePool gi)) = updateActivePool gi.
Proof.
  apply updateActivePool_eq.
  destruct (updateActivePool_spec gi) as (A & B & C & D & E).
  split; [lia |]. split; [intros g Hg; lia |]. done.
Qed.

(** C11: Completion is only signalled when every key at or after the
    current window is mastered (or was removed from [progressMap]). *)
Theorem updateActivePool_complete_all_mastered gi i k :
  pr_complete (updateActivePool gi) = true ->
  gi * groupSize <= i -> sequence !! i = Some k ->
  is_active (progressMap !! k) = false.
Proof.
  intros Hc Hi Hk.
  destruct (updateActivePool_spec gi) as (A & B & _ & D & _).
  apply D in Hc as [[Hnil Hne] Hlast].
  assert (Hgs : groupSize <> 0).
  { intros E. apply Hne, window_nil_iff. lia. }
  pose proof (lookup_lt_Some _ _ _ Hk) as Hlen.
  set (g := i / groupSize).
  assert (Hg : g * groupSize <= i < g * groupSize + groupSize).
  { subst g. pose proof (Nat.div_mod_eq i groupSize).
    pose proof (Nat.mod_upper_bound i groupSize Hgs). nia. }
  assert (Hgi : gi <= g).
  { subst g. apply Nat.div_le_lower_bound; lia. }
  apply (window_pool_nil_inactive g); [| by eapply window_lookup].
  destruct (Nat.lt_total g (pr_group (updateActivePool gi))) as [Hlt | [-> | Hlt]].
  - by apply B.
  - done.
  - exfalso. apply Hlast. nia.
Qed.

(** A window starting at or past the end of the sequence neither
    advances nor completes: the pool is empty and no completion is
    signalled. *)
Lemma updateActivePool_past_end gi :
  length sequence <= gi * groupSize ->
  updateActivePool gi = mkPoolResult gi [] false.
Proof.
  intros Hlen. apply updateActivePool_eq.
  assert (Hw : window gi = []) by (apply window_nil_iff; lia).
  assert (Hp : window_pool gi = []) by (unfold window_pool; by rewrite Hw).
  unfold pool_spec, exhausted; simpl. rewrite Hp, Hw.
  split; [lia |]. split; [intros; lia |]. split; [done |].
  split; [split; [discriminate | intros [[_ []] _]; done] |].
  intros _ [_ []]. done.
Qed.
End Pool.

(** *** Concrete instances *)

(** Windows of two over [a; b; c]: [a] is mastered, [b] and [c] are not. *)
Definition ex_sequence : list string := ["a"; "b"; "c"]%string.
Definition ex_progress : gmap string Progress :=
  <["a" := mkProgress 5 true 3]> (<["b" := mkProgress 1 false 2]>
    (<["c" := mkProgress 0 false 0]> ∅)).
Definition ex_done : gmap string Progress :=
  <["a" := mkProgress 5 true 3]> (<["b" := mkProgress 5 true 6]>
    (<["c" := mkProgress 5 true 5]> ∅)).

Lemma updateActivePool_complete_all_mastered_witness :
  is_active (ex_done !! "c"%string) = false.
Proof.
  apply (updateActivePool_complete_all_mastered ex_sequence ex_done 2 0 2).
  - vm_compute. reflexivity.
  - lia.
  - reflexivity.
Defined.

(** After the last key of a three-key sequence was removed, window 1 of
    size 2 is empty. *)
End Scheduler.
