(* ===== verification/Catalog.v ===== *)
(** * Catalog: words, [normalizeText] and the loaded word map

    Models the entries of [app.state.wordMap] ([src/script.js] line 84) and
    [app.normalizeText] (lines 535-544).  Strings are Stdlib strings whose
    characters stand for UTF-16 code units below 256 (Latin-1), which covers
    the German and Spanish word lists; [toLowerCase], the regular
    expression class [\s] and [trim] are modelled on that range. *)

From S2P Require Import Prelude.
From Stdlib Require Import Ascii.

Module Catalog.

(** [{ original: string, id: string, images: string[] }] *)
Record WordData := mkWordData {
  original : string;
  id : string;
  images : list string
}.

(** ** Characters *)

(** [String.prototype.toLowerCase] on Latin-1: [A-Z] and [À-Þ] (but
    [×], U+00D7) move down by 32. *)
Definition js_lower_char (c : ascii) : ascii :=
  let n := nat_of_ascii c in
  if ((65 <=? n) && (n <=? 90)) || ((192 <=? n) && (n <=? 222) && negb (n =? 215))
  then ascii_of_nat (n + 32) else c.

(** [\s] and the characters [trim] removes, on Latin-1: tab, line feed,
    vertical tab, form feed, carriage return, space, no-break space. *)
Definition js_space (c : ascii) : bool :=
  let n := nat_of_ascii c in
  ((9 <=? n) && (n <=? 13)) || (n =? 32) || (n =? 160).

Fixpoint js_toLowerCase (s : string) : string :=
  match s with
  | EmptyString => EmptyString
  | String c s' => String (js_lower_char c) (js_toLowerCase s')
  end.

Fixpoint trim_start (s : string) : string :=
  match s with
  | String c s' => if js_space c then trim_start s' else s
  | EmptyString => EmptyString
  end.

Fixpoint string_rev (s : string) (acc : string) : string :=
  match s with
  | EmptyString => acc
  | String c s' => string_rev s' (String c acc)
  end.

(** [String.prototype.trim]. *)
Definition js_trim (s : string) : string :=
  string_rev (trim_start (string_rev (trim_start s) EmptyString)) EmptyString.

(** [str.replace(/^(a1|a2|...)\s+/, '')]: the first alternative that is a
    prefix followed by at least one [\s] matches, and the greedy [\s+]
    takes the whole run of spaces after it. *)
Definition strip_article (alts : list string) (s : string) : string :=
  match List.find (fun a => String.prefix a s &&
                   match String.substring (String.length a) 1 s with
                   | String c _ => js_space c
                   | EmptyString => false
                   end) alts with
  | Some a => trim_start (String.substring (String.length a)
                            (String.length s - String.length a) s)
  | None => s
  end.

Definition normalizeText (currentLang : string) (text : string) : string :=
  let str := js_toLowerCase text in
  let str := if String.eqb currentLang "de" then strip_article ["der"; "die"; "das"] str
             else str in
  let str := if String.eqb currentLang "es" then strip_article ["el"; "la"; "los"; "las"] str
             else str in
  js_trim str.


(** ** [parseScaleCSV] *)

(** [String.prototype.split(sep)] with a one-character separator: the
    pieces between separators, empty ones included; [""] gives [[""]]. *)
Fixpoint js_split_aux (sep : ascii) (s : string) (cur : string) : list string :=
  match s with
  | EmptyString => [string_rev cur EmptyString]
  | String c s' =>
      if Ascii.eqb c sep then string_rev cur EmptyString :: js_split_aux sep s' EmptyString
      else js_split_aux sep s' (String c cur)
  end.

Definition js_split (s : string) (sep : ascii) : list string :=
  js_split_aux sep s EmptyString.

(** [PACKAGE_MANIFEST[packageName]]: image file names per word id. *)
Definition PackageImages : Type := gmap string (list string).

(** What [parseScaleCSV] leaves: the word map and, when the manifest has
    the package, the new sequence (otherwise [app.state.sequence] is not
    assigned). *)
Record ParseResult := mkParse {
  parsed_wordMap : JsMap WordData;
  parsed_sequence : option (list string)
}.

(** One data line (the body of the [for] loop). *)
Definition parse_line (currentLang packageName : string)
    (packageImages : PackageImages) (raw : string)
    (acc : JsMap WordData * list string) : JsMap WordData * list string :=
  let '(wordMap, sequence) := acc in
  let line := js_trim raw in
  if String.eqb line "" then acc else
  let parts := js_split line ","%char in
  if length parts <? 2 then acc else
  let word := js_trim (nth (length parts - 1) parts "") in
  let id := js_trim (nth (length parts - 2) parts "") in
  match packageImages !! id with
  | Some (img :: imgs) =>
      let normalized := normalizeText currentLang word in
      (jsmap_set normalized
         (mkWordData word id
            (map (fun f => packageName +:+ "/" +:+ id +:+ "/" +:+ f) (img :: imgs)))
         wordMap,
       sequence ++ [normalized])
  | _ => acc
  end.

(** [lines.slice(1)]: the header line is skipped. *)
Definition parseScaleCSV (currentLang : string) (manifest : option PackageImages)
    (text packageName : string) (wordMap : JsMap WordData) : ParseResult :=
  match manifest with
  | None => mkParse wordMap None
  | Some packageImages =>
      let '(wm, sq) :=
        fold_left (fun acc raw => parse_line currentLang packageName packageImages raw acc)
                  (tl (js_split text "010"%char)) (wordMap, []) in
      mkParse wm (Some sq)
  end.

(** *** Lemmas *)

(** The word map and the sequence built so far hold the same keys, the
    map's keys are distinct, and every word has an image. *)
Definition parse_wf (acc : JsMap WordData * list string) : Prop :=
  NoDup (jsmap_keys acc.1) /\
  (forall k, k ∈ acc.2 <-> k ∈ jsmap_keys acc.1) /\
  (forall k d, jsmap_get k acc.1 = Some d -> images d <> []).

Lemma jsmap_get_set k k' v (m : JsMap WordData) :
  jsmap_get k' (jsmap_set k v m) = if String.eqb k k' then Some v else jsmap_get k' m.
Proof.
  destruct (String.eqb_spec k k') as [-> | Hne].
  - apply jsmap_get_set_eq.
  - by apply jsmap_get_set_ne.
Qed.

Lemma parse_line_wf lang pkg imgs raw acc :
  parse_wf acc -> parse_wf (parse_line lang pkg imgs raw acc).
Proof.
  destruct acc as [wm sq]. intros (Hnd & Hks & Him). unfold parse_line.
  destruct (String.eqb _ ""); [done |].
  destruct (length _ <? 2); [done |].
  destruct (imgs !! _) as [[|img l]|]; [done | | done].
  split; [| split]; simpl.
  - by apply NoDup_jsmap_keys_set.
  - intros k. rewrite elem_of_app, list_elem_of_singleton, jsmap_keys_set.
    case_decide as Hin; rewrite ?elem_of_app, ?list_elem_of_singleton, Hks;
      naive_solver.
  - intros k d. rewrite jsmap_get_set. destruct (String.eqb _ k).
    + intros [= <-]. simpl. done.
    + apply Him.
Qed.

Lemma fold_parse_wf lang pkg imgs lines acc :
  parse_wf acc ->
  parse_wf (fold_left (fun acc raw => parse_line lang pkg imgs raw acc) lines acc).
Proof.
  revert acc. induction lines as [|raw lines IH]; intros acc Hacc; simpl; [done |].
  apply IH. by apply parse_line_wf.
Qed.

Lemma parse_result_wf lang manifest text pkg sq :
  parsed_sequence (parseScaleCSV lang manifest text pkg []) = Some sq ->
  parse_wf (parsed_wordMap (parseScaleCSV lang manifest text pkg []), sq).
Proof.
  unfold parseScaleCSV. destruct manifest as [imgs|]; [| done].
  match goal with
  | |- context [fold_left ?f ?l ?a] =>
      pose proof (fold_parse_wf lang pkg imgs l a) as Hwf;
      destruct (fold_left f l a) as [wm sq'] eqn:E
  end.
  simpl. intros Heq. injection Heq as <-.
  apply Hwf. split; [constructor | split; [done | done]].
Qed.

(** C17: On a manifest that has the package, [parseScaleCSV] builds a word
    map whose keys are distinct and are exactly the keys of the sequence
    it builds, and every word of the map has at least one image. *)
Theorem parseScaleCSV_wf lang manifest text pkg sq :
  parsed_sequence (parseScaleCSV lang manifest text pkg []) = Some sq ->
  let wm := parsed_wordMap (parseScaleCSV lang manifest text pkg []) in
  NoDup (jsmap_keys wm) /\ (forall k, k ∈ sq <-> k ∈ jsmap_keys wm) /\
  (forall k d, jsmap_get k wm = Some d -> images d <> []).
Proof. apply parse_result_wf. Qed.

(** *** Concrete instances *)

Local Open Scope string_scope.

(** A manifest with images for ids 1 and 2 and none for id 3, and a CSV
    whose two data lines name the same German noun with and without its
    article. *)
Definition ex_images : PackageImages :=
  <["1" := ["a.png"; "b.png"]]> (<["2" := ["c.png"]]> (<["3" := []]> ∅)).

Definition ex_csv : string :=
  "id,word" ++ String "010" "x, 1 , Der Hund" ++ String "010" "2,Hund" ++
  String "010" "3,Katze".

Lemma parseScaleCSV_wf_witness :
  NoDup (jsmap_keys (parsed_wordMap (parseScaleCSV "de" (Some ex_images) ex_csv "pkg" []))).
Proof.
  destruct (parseScaleCSV_wf "de" (Some ex_images) ex_csv "pkg" ["hund"; "hund"])
    as [Hnd _].
  - vm_compute. reflexivity.
  - exact Hnd.
Defined.

End Catalog.
