(* ===== verification/Csv.v ===== *)
(** * Csv: the text functions of the parser against their specifications

    [parseScaleCSV] (lines 500-533 of [src/script.js]) reads its input with
    [String.prototype.split] and [String.prototype.trim], modelled in
    [Catalog] by accumulator loops ([js_split_aux] collects the current
    piece reversed, [js_trim] trims the start of the reversed string).
    This file proves them equal to their specifications: [js_split] is the
    inverse of [Array.prototype.join] on pieces free of the separator, and
    [js_trim] removes exactly the white space at both ends.  With these the
    parser reads back a catalog printed as CSV: every word comes back with
    its id, its spelling and its images, and a key repeated by several
    rows keeps the entry of the last one.  The last section shows that
    [normalizeText] strips a single German article. *)

From S2P Require Import Prelude Catalog.
From Stdlib Require Import Ascii.
Import Catalog.

Module Csv.

(** ** Specifications *)

(** Every character of [s] satisfies [f]. *)
Fixpoint str_forallb (f : ascii -> bool) (s : string) : bool :=
  match s with
  | EmptyString => true
  | String c s' => f c && str_forallb f s'
  end.

(** [s] does not contain [c]. *)
Definition sep_free (c : ascii) (s : string) : bool :=
  str_forallb (fun c' => negb (Ascii.eqb c' c)) s.

(** [s] is white space only. *)
Definition all_space (s : string) : bool := str_forallb js_space s.

(** [s] is empty or starts with a character that is not white space. *)
Definition edge_ok (s : string) : bool :=
  match s with
  | EmptyString => true
  | String c _ => negb (js_space c)
  end.

(** [t] neither starts nor ends with white space. *)
Definition trimmed (t : string) : bool := edge_ok t && edge_ok (string_rev t "").

(** [Array.prototype.join(sep)] on a list of strings. *)
Fixpoint js_join (sep : ascii) (parts : list string) : string :=
  match parts with
  | [] => ""
  | [p] => p
  | p :: ps => p +:+ String sep (js_join sep ps)
  end.

(** ** [string_rev] *)

Lemma string_rev_rev s acc : string_rev (string_rev s acc) "" = string_rev acc s.
Proof. revert acc. induction s as [|c s IH]; intros acc; [done |]. apply IH. Qed.

Lemma string_rev_involutive s : string_rev (string_rev s "") "" = s.
Proof. apply string_rev_rev. Qed.

Lemma string_rev_app s acc : string_rev s acc = string_rev s "" +:+ acc.
Proof.
  revert acc. induction s as [|c s IH]; intros acc; cbn [string_rev]; [done |].
  rewrite IH, (IH (String c "")). by autorewrite with strs.
Qed.

Lemma string_rev_app_distr a b : string_rev (a +:+ b) "" = string_rev b "" +:+ string_rev a "".
Proof.
  revert b. induction a as [|c a IH]; intros b.
  - by autorewrite with strs.
  - rewrite str_app_cons. cbn [string_rev].
    rewrite (string_rev_app (a +:+ b)), (string_rev_app a), IH. by autorewrite with strs.
Qed.

Lemma str_forallb_rev f s acc :
  str_forallb f (string_rev s acc) = str_forallb f s && str_forallb f acc.
Proof.
  revert acc. induction s as [|c s IH]; intros acc; [done |]. cbn [string_rev str_forallb].
  rewrite IH. cbn [str_forallb]. by destruct (f c), (str_forallb f s).
Qed.

Lemma str_forallb_rev_nil f s : str_forallb f (string_rev s "") = str_forallb f s.
Proof. by rewrite str_forallb_rev, andb_true_r. Qed.

Lemma str_forallb_app f a b : str_forallb f (a +:+ b) = str_forallb f a && str_forallb f b.
Proof.
  induction a as [|c a IH]; [done |]. rewrite str_app_cons. cbn [str_forallb].
  by rewrite IH, andb_assoc.
Qed.

(** ** [js_split] is the inverse of [js_join] *)

Section Split.
Context (sep : ascii).

Lemma js_split_aux_sep_free s rest cur :
  sep_free sep s = true ->
  js_split_aux sep (s +:+ rest) cur = js_split_aux sep rest (string_rev s cur).
Proof.
  revert cur. induction s as [|c s IH]; intros cur Hs; [done |].
  cbn [sep_free str_forallb] in Hs. apply andb_prop in Hs as [Hc Hs].
  apply negb_true_iff in Hc. rewrite str_app_cons. cbn [js_split_aux string_rev].
  rewrite Hc. by apply IH.
Qed.

Lemma js_split_aux_sep rest cur :
  js_split_aux sep (String sep rest) cur = string_rev cur "" :: js_split_aux sep rest "".
Proof. cbn [js_split_aux]. by rewrite Ascii.eqb_refl. Qed.

Lemma js_split_aux_nonempty s cur : js_split_aux sep s cur <> [].
Proof.
  revert cur. induction s as [|c s IH]; intros cur; cbn [js_split_aux]; [done |].
  by destruct (Ascii.eqb c sep).
Qed.

Lemma js_join_cons p ps : ps <> [] -> js_join sep (p :: ps) = p +:+ String sep (js_join sep ps).
Proof. by destruct ps. Qed.

Lemma js_join_split_aux s cur : js_join sep (js_split_aux sep s cur) = string_rev cur s.
Proof.
  revert cur. induction s as [|c s IH]; intros cur; cbn [js_split_aux]; [done |].
  destruct (Ascii.eqb_spec c sep) as [-> | Hne]; [| apply IH].
  rewrite js_join_cons by apply js_split_aux_nonempty. rewrite IH.
  cbn [string_rev]. by rewrite (string_rev_app cur (String sep s)).
Qed.

Lemma js_split_aux_pieces s cur :
  sep_free sep cur = true -> Forall (fun p => sep_free sep p = true) (js_split_aux sep s cur).
Proof.
  unfold sep_free.
  revert cur. induction s as [|c s IH]; intros cur Hcur; cbn [js_split_aux].
  - constructor; [by rewrite str_forallb_rev_nil | constructor].
  - destruct (Ascii.eqb c sep) eqn:Hc.
    + constructor; [by rewrite str_forallb_rev_nil | by apply IH].
    + apply IH. cbn [str_forallb]. by rewrite Hc, Hcur.
Qed.

Lemma js_split_join parts :
  parts <> [] -> Forall (fun p => sep_free sep p = true) parts ->
  js_split (js_join sep parts) sep = parts.
Proof.
  unfold js_split. induction parts as [|p ps IH]; intros Hne Hparts; [done |].
  apply Forall_cons in Hparts as [Hp Hps].
  destruct ps as [|q qs].
  - cbn [js_join]. rewrite <- (str_app_nil_r p) at 1. rewrite js_split_aux_sep_free by done.
    cbn [js_split_aux]. by rewrite string_rev_involutive.
  - rewrite js_join_cons, js_split_aux_sep_free, js_split_aux_sep, string_rev_involutive
      by done.
    by rewrite IH.
Qed.

(** [js_split] meets the specification of [String.prototype.split]
    with a one-character separator: it returns [parts] exactly when
    [parts] is a non-empty list of pieces free of the separator that
    [Array.prototype.join] puts back together into the input. *)
Theorem js_split_spec s parts :
  js_split s sep = parts <->
  parts <> [] /\ Forall (fun p => sep_free sep p = true) parts /\ js_join sep parts = s.
Proof.
  split.
  - intros <-. split; [apply js_split_aux_nonempty |].
    split; [by apply js_split_aux_pieces | apply js_join_split_aux].
  - intros (Hne & Hp & <-). by apply js_split_join.
Qed.
End Split.

(** ** [js_trim] removes exactly the white space at both ends *)

Lemma trim_start_split s :
  exists pre, s = pre +:+ trim_start s /\ all_space pre = true /\ edge_ok (trim_start s) = true.
Proof.
  induction s as [|c s IH]; [by exists "" |]. cbn [trim_start].
  destruct (js_space c) eqn:Hc.
  - destruct IH as (pre & Hs & Hpre & He). exists (String c pre).
    rewrite str_app_cons, <- Hs. unfold all_space in *. cbn [str_forallb]. by rewrite Hc, Hpre.
  - exists "". cbn [edge_ok]. by rewrite Hc.
Qed.

Lemma trim_start_spaces pre s : all_space pre = true -> trim_start (pre +:+ s) = trim_start s.
Proof.
  unfold all_space. induction pre as [|c pre IH]; intros Hpre; [done |].
  cbn [str_forallb] in Hpre. apply andb_prop in Hpre as [Hc Hpre].
  rewrite str_app_cons. cbn [trim_start]. rewrite Hc. by apply IH.
Qed.

Lemma trim_start_edge s : edge_ok s = true -> trim_start s = s.
Proof. destruct s as [|c s]; cbn [edge_ok trim_start]; [done |]. by destruct (js_space c). Qed.

Lemma edge_ok_app a b : a <> "" -> edge_ok (a +:+ b) = edge_ok a.
Proof. by destruct a. Qed.

Lemma string_rev_nonempty a : a <> "" -> string_rev a "" <> "".
Proof. intros Ha E. apply Ha. by rewrite <- (string_rev_involutive a), E. Qed.

(** [js_trim] meets the specification of [String.prototype.trim]: it
    returns [t] exactly when the input is [t] between a prefix and a
    suffix of white space, and [t] neither starts nor ends with white
    space. *)
Theorem js_trim_spec s t :
  js_trim s = t <->
  exists pre suf, s = pre +:+ t +:+ suf /\ all_space pre = true /\ all_space suf = true /\
                  trimmed t = true.
Proof.
  unfold js_trim. split.
  - intros <-. destruct (trim_start_split s) as (pre & Hs & Hpre & Hu).
    set (u := trim_start s) in *.
    destruct (trim_start_split (string_rev u "")) as (pre' & Hu' & Hpre' & Hv).
    set (v := trim_start (string_rev u "")) in *.
    exists pre, (string_rev pre' ""). split; [| split; [done | split]].
    + rewrite Hs, <- string_rev_app_distr, <- Hu', string_rev_involutive. done.
    + unfold all_space. by rewrite str_forallb_rev_nil.
    + unfold trimmed. rewrite string_rev_involutive, Hv, andb_true_r.
      destruct v as [|c v'] eqn:Ev; [done |].
      rewrite <- (string_rev_involutive u), Hu', string_rev_app_distr, edge_ok_app in Hu;
        [done | by apply string_rev_nonempty].
  - intros (pre & suf & -> & Hpre & Hsuf & Ht). rewrite trim_start_spaces by done.
    unfold trimmed in Ht. apply andb_prop in Ht as [Ht1 Ht2].
    destruct t as [|c t'].
    + rewrite str_app_nil_l, <- (str_app_nil_r suf), trim_start_spaces by done. done.
    + rewrite (trim_start_edge (String c t' +:+ suf)) by (by rewrite edge_ok_app).
      rewrite string_rev_app_distr, trim_start_spaces
        by (unfold all_space; by rewrite str_forallb_rev_nil).
      rewrite trim_start_edge by done. apply string_rev_involutive.
Qed.

(** ** Reading back a printed catalog *)

(** A catalog row: a word id and its word, printed as a CSV line under
    the header [id,word]. *)
Definition csv_line (row : string * string) : string := row.1 +:+ "," +:+ row.2.

Definition print_csv (rows : list (string * string)) : string :=
  js_join "010" ("id,word" :: map csv_line rows).

(** A field the printer can write: not empty, not padded with white space,
    without a comma or a line feed. *)
Definition clean_field (f : string) : bool :=
  negb (String.eqb f "") && trimmed f && sep_free "," f && sep_free "010" f.

(** The manifest lists at least one image for [id]. *)
Definition has_images (imgs : PackageImages) (id : string) : bool :=
  match imgs !! id with Some (_ :: _) => true | _ => false end.

(** The key of a row's word. *)
Definition row_key (lang : string) (row : string * string) : string := normalizeText lang row.2.

(** The entry [parseScaleCSV] makes for a row. *)
Definition row_entry (pkg : string) (imgs : PackageImages) (row : string * string) : WordData :=
  mkWordData row.2 row.1 (map (fun f => pkg +:+ "/" +:+ row.1 +:+ "/" +:+ f)
                            (default [] (imgs !! row.1))).

Lemma clean_field_parts f :
  clean_field f = true ->
  f <> "" /\ trimmed f = true /\ sep_free "," f = true /\ sep_free "010" f = true.
Proof.
  unfold clean_field. intros H. repeat apply andb_prop in H as [H ?].
  apply negb_true_iff, String.eqb_neq in H. done.
Qed.

Lemma js_trim_clean f : trimmed f = true -> js_trim f = f.
Proof.
  intros Ht. apply js_trim_spec. exists "", "". rewrite str_app_nil_r. done.
Qed.

Lemma csv_line_join row : csv_line row = js_join "," [row.1; row.2].
Proof. done. Qed.

Lemma parse_line_printed lang pkg imgs row acc :
  clean_field row.1 = true -> clean_field row.2 = true ->
  parse_line lang pkg imgs (csv_line row) acc =
  if has_images imgs row.1
  then (jsmap_set (normalizeText lang row.2) (row_entry pkg imgs row) acc.1,
        acc.2 ++ [normalizeText lang row.2])
  else acc.
Proof.
  intros (Hne1 & Ht1 & Hc1 & Hn1)%clean_field_parts (Hne2 & Ht2 & Hc2 & Hn2)%clean_field_parts.
  destruct acc as [wm sq]. unfold parse_line.
  assert (Hline : js_trim (csv_line row) = csv_line row).
  { apply js_trim_clean. unfold trimmed in *. apply andb_prop in Ht1 as [Ha1 Hb1].
    apply andb_prop in Ht2 as [Ha2 Hb2]. unfold csv_line.
    rewrite edge_ok_app, Ha1 by done. cbn [andb].
    rewrite !string_rev_app_distr, str_app_assoc, edge_ok_app;
      [exact Hb2 | by apply string_rev_nonempty]. }
  rewrite Hline. destruct (String.eqb_spec (csv_line row) "") as [E | _].
  { destruct row as [id w], id; [done | discriminate]. }
  rewrite csv_line_join, js_split_join by (done || (repeat constructor; done)).
  cbn [length nth Nat.ltb Nat.leb Nat.sub]. rewrite !js_trim_clean by done.
  unfold has_images, row_entry. destruct (imgs !! row.1) as [[|img l]|]; done.
Qed.

Lemma print_csv_lines rows :
  Forall (fun r => clean_field r.1 && clean_field r.2 = true) rows ->
  tl (js_split (print_csv rows) "010") = map csv_line rows.
Proof.
  intros Hrows. unfold print_csv. rewrite js_split_join; [done | done |].
  constructor; [reflexivity |]. apply Forall_map. eapply Forall_impl; [exact Hrows |].
  intros [id w] (Hid & Hw)%andb_prop. cbn [fst snd] in Hid, Hw.
  apply clean_field_parts in Hid as (_ & _ & _ & Hid).
  apply clean_field_parts in Hw as (_ & _ & _ & Hw).
  unfold csv_line, sep_free in *. cbn [fst snd]. by rewrite !str_forallb_app, Hid, Hw.
Qed.

(** A printable row whose id has images. *)
Definition row_ok (imgs : PackageImages) (row : string * string) : bool :=
  clean_field row.1 && clean_field row.2 && has_images imgs row.1.

(** The last of [rows] whose word has the key [k]. *)
Fixpoint last_row (lang k : string) (rows : list (string * string)) : option (string * string) :=
  match rows with
  | [] => None
  | r :: rows' =>
      match last_row lang k rows' with
      | Some r' => Some r'
      | None => if String.eqb (row_key lang r) k then Some r else None
      end
  end.

Section Fold.
Context (lang pkg : string) (imgs : PackageImages).

Lemma fold_printed rows acc :
  Forall (fun r => row_ok imgs r = true) rows ->
  fold_left (fun acc raw => parse_line lang pkg imgs raw acc) (map csv_line rows) acc =
  (fold_left (fun m r => jsmap_set (row_key lang r) (row_entry pkg imgs r) m) rows acc.1,
   acc.2 ++ map (row_key lang) rows).
Proof.
  revert acc. induction rows as [|r rows IH]; intros acc Hrows; cbn [map fold_left].
  - by rewrite app_nil_r, <- surjective_pairing.
  - apply Forall_cons in Hrows as [Hr Hrows]. unfold row_ok in Hr.
    apply andb_prop in Hr as [[H1 H2]%andb_prop H3].
    rewrite parse_line_printed, H3 by done. rewrite IH by done. cbn [fst snd].
    by rewrite <- app_assoc.
Qed.

Lemma fold_set_notin k rows m :
  k ∉ map (row_key lang) rows ->
  jsmap_get k (fold_left (fun m r => jsmap_set (row_key lang r) (row_entry pkg imgs r) m) rows m)
  = jsmap_get k m.
Proof.
  revert m. induction rows as [|r rows IH]; intros m Hk; [done |]. cbn [map fold_left].
  apply not_elem_of_cons in Hk as [Hk Hks]. rewrite IH by done.
  rewrite jsmap_get_set. destruct (String.eqb_spec (row_key lang r) k); congruence.
Qed.

Lemma fold_set_get rows m :
  NoDup (map (row_key lang) rows) ->
  Forall (fun r => jsmap_get (row_key lang r)
    (fold_left (fun m r => jsmap_set (row_key lang r) (row_entry pkg imgs r) m) rows m)
    = Some (row_entry pkg imgs r)) rows.
Proof.
  revert m. induction rows as [|r rows IH]; intros m Hnd; [constructor |].
  cbn [map] in Hnd. apply NoDup_cons in Hnd as [Hr Hnd]. cbn [fold_left].
  constructor; [| by apply IH].
  rewrite fold_set_notin by done. apply jsmap_get_set_eq.
Qed.

(** [Map.set] on the same key again overwrites: the last row wins. *)
Lemma fold_set_last k rows m :
  jsmap_get k (fold_left (fun m r => jsmap_set (row_key lang r) (row_entry pkg imgs r) m) rows m)
  = match last_row lang k rows with
    | Some r => Some (row_entry pkg imgs r)
    | None => jsmap_get k m
    end.
Proof.
  revert m. induction rows as [|r rows IH]; intros m; [done |]. cbn [fold_left last_row].
  rewrite IH. destruct (last_row lang k rows); [done |].
  rewrite jsmap_get_set. by destruct (String.eqb (row_key lang r) k).
Qed.
End Fold.

(** C18: Round trip of the catalog: printing rows of word ids and words
    (no field empty, padded, or holding a comma or a line feed) as a CSV
    file under its header and parsing it with a manifest that has images
    for every id gives back the sequence of the words' keys in order, and,
    when the keys are distinct, every word's entry with its id, its
    original spelling and its image paths. *)
Theorem csv_roundtrip lang pkg imgs rows :
  Forall (fun r => row_ok imgs r = true) rows ->
  parsed_sequence (parseScaleCSV lang (Some imgs) (print_csv rows) pkg []) =
    Some (map (row_key lang) rows) /\
  (NoDup (map (row_key lang) rows) ->
   Forall (fun r => jsmap_get (row_key lang r)
                      (parsed_wordMap (parseScaleCSV lang (Some imgs) (print_csv rows) pkg []))
                    = Some (row_entry pkg imgs r)) rows).
Proof.
  intros Hrows. unfold parseScaleCSV.
  rewrite print_csv_lines
    by (eapply Forall_impl; [exact Hrows | intros r Hr; by apply andb_prop in Hr as [-> _]]).
  rewrite fold_printed by done. cbn [fst snd parsed_sequence parsed_wordMap].
  split; [done |]. apply fold_set_get.
Qed.

(** C30: [parseScaleCSV] does not deduplicate words: for a printed
    catalog, whose rows may repeat a word (or two spellings with the same
    key, as [der Hund] and [Hund]), the word map holds, for every key, the
    entry of the last row with that key and none for a key of no row,
    while the sequence keeps the key once per row (see [csv_roundtrip]). *)
Theorem parseScaleCSV_last_wins lang pkg imgs rows k :
  Forall (fun r => row_ok imgs r = true) rows ->
  jsmap_get k (parsed_wordMap (parseScaleCSV lang (Some imgs) (print_csv rows) pkg [])) =
  row_entry pkg imgs <$> last_row lang k rows.
Proof.
  intros Hrows. unfold parseScaleCSV.
  rewrite print_csv_lines
    by (eapply Forall_impl; [exact Hrows | intros r Hr; by apply andb_prop in Hr as [-> _]]).
  rewrite fold_printed by done. cbn [fst snd parsed_wordMap].
  rewrite fold_set_last. by destruct (last_row lang k rows).
Qed.

(** ** Articles *)

Lemma js_toLowerCase_app a b : js_toLowerCase (a +:+ b) = js_toLowerCase a +:+ js_toLowerCase b.
Proof.
  induction a as [|c a IH]; [done |]. rewrite !str_app_cons. cbn [js_toLowerCase].
  by rewrite IH, str_app_cons.
Qed.

Lemma substring_full s : String.substring 0 (String.length s) s = s.
Proof. induction s as [|c s IH]; [done |]. cbn. by rewrite IH. Qed.

Lemma de_article_cases a :
  a ∈ ["der"; "die"; "das"] -> a = "der" \/ a = "die" \/ a = "das".
Proof. rewrite !elem_of_cons, elem_of_nil. tauto. Qed.

(** The German [replace]: an article followed by white space goes, with
    all the white space after it. *)
Lemma strip_de_article a r :
  a ∈ ["der"; "die"; "das"] ->
  strip_article ["der"; "die"; "das"] (a +:+ String " " r) = trim_start r.
Proof.
  intros [-> | [-> | ->]]%de_article_cases; rewrite !str_app_cons, str_app_nil_l;
    unfold strip_article; cbn -[trim_start]; rewrite (eq_refl : js_space " " = true);
    cbn -[trim_start]; rewrite substring_full; reflexivity.
Qed.

Lemma de_article_lower a :
  a ∈ ["der"; "die"; "das"] -> js_toLowerCase a = a /\ edge_ok a = true /\ a <> "".
Proof.
  intros [-> | [-> | ->]]%de_article_cases; (split; [done | split; [done | discriminate]]).
Qed.

Lemma trimmed_article_word b w :
  b ∈ ["der"; "die"; "das"] -> w <> "" -> trimmed w = true ->
  trimmed (b +:+ String " " w) = true.
Proof.
  intros Hb Hne Hw. apply de_article_lower in Hb as (_ & Hb & Hbne). unfold trimmed in *.
  apply andb_prop in Hw as [_ Hw]. apply andb_true_intro. split.
  - by rewrite edge_ok_app.
  - rewrite string_rev_app_distr. cbn [string_rev]. rewrite string_rev_app.
    pose proof (string_rev_nonempty w Hne) as Hr.
    rewrite edge_ok_app; [by rewrite edge_ok_app |].
    destruct (string_rev w "") as [|c x]; [done |]. rewrite str_app_cons. discriminate.
Qed.

(** C31: [normalizeText] is not idempotent, as the spec requires it to be:
    in German it strips one article only, so for every text that reads
    (in lower case) as two articles and a word, [Die der Hund] say, one
    pass leaves the second article and a second pass strips it too. *)
Theorem normalizeText_not_idempotent text a b w :
  a ∈ ["der"; "die"; "das"] -> b ∈ ["der"; "die"; "das"] ->
  w <> "" -> trimmed w = true -> js_toLowerCase w = w ->
  js_toLowerCase text = a +:+ " " +:+ b +:+ " " +:+ w ->
  normalizeText "de" text = b +:+ " " +:+ w /\
  normalizeText "de" (normalizeText "de" text) = w.
Proof.
  intros Ha Hb Hne Hw Hlw Hlt.
  assert (Hsp : forall x, " " +:+ x = String " " x)
    by (intros x; by rewrite str_app_cons, str_app_nil_l).
  rewrite !Hsp in *.
  assert (H1 : normalizeText "de" text = b +:+ String " " w).
  { unfold normalizeText. rewrite Hlt, strip_de_article by done. cbn [String.eqb Ascii.eqb Bool.eqb].
    destruct (de_article_lower b Hb) as (_ & He & Hbne).
    rewrite trim_start_edge by (by rewrite edge_ok_app).
    by apply js_trim_clean, trimmed_article_word. }
  split; [exact H1 |]. rewrite H1. unfold normalizeText.
  rewrite js_toLowerCase_app. cbn [js_toLowerCase js_lower_char]. rewrite Hlw, (proj1 (de_article_lower b Hb)).
  rewrite strip_de_article by done. cbn [String.eqb Ascii.eqb Bool.eqb].
  apply andb_prop in Hw as [Hw1 Hw2]. rewrite trim_start_edge by done.
  apply js_trim_clean. unfold trimmed. by rewrite Hw1, Hw2.
Qed.

(** *** A concrete catalog *)

Definition ex_rows : list (string * string) := [("1", "der Hund"); ("2", "Katze")].

Lemma csv_roundtrip_witness :
  parsed_sequence (parseScaleCSV "de" (Some ex_images) (print_csv ex_rows) "pkg" []) =
  Some ["hund"; "katze"].
Proof.
  destruct (csv_roundtrip "de" "pkg" ex_images ex_rows) as [H _].
  - vm_compute. repeat constructor.
  - rewrite H. vm_compute. reflexivity.
Defined.
(** Two spellings of one word: [Hund] comes last and wins. *)
Definition ex_dup_rows : list (string * string) := [("1", "der Hund"); ("2", "Hund")].

Lemma parseScaleCSV_last_wins_witness :
  jsmap_get "hund" (parsed_wordMap (parseScaleCSV "de" (Some ex_images) (print_csv ex_dup_rows) "pkg" []))
  = Some (mkWordData "Hund" "2" ["pkg/2/c.png"]).
Proof.
  rewrite (parseScaleCSV_last_wins "de" "pkg" ex_images ex_dup_rows "hund");
    [vm_compute; reflexivity | vm_compute; repeat constructor].
Defined.

Lemma normalizeText_not_idempotent_witness :
  normalizeText "de" "Die der Hund" = "der hund" /\
  normalizeText "de" (normalizeText "de" "Die der Hund") = "hund".
Proof.
  apply (normalizeText_not_idempotent "Die der Hund" "die" "der" "hund");
    first [apply (bool_decide_unpack _); vm_compute; reflexivity | vm_compute; reflexivity | discriminate].
Defined.
End Csv.
