(* ===== verification/Options.v ===== *)
(** * Options: [generateOptions], the multiple-choice set

    Models [app.generateOptions] ([src/script.js] lines 656-669): the
    target, then distractors drawn from [allKeys] without the target by
    rejection sampling until there are three options or no other key, then
    a Fisher-Yates shuffle.  The [while] loop is not structurally
    terminating (a draw may repeat a key already taken), so it is a
    [Fixpoint] on fuel that answers [None] when the fuel runs out.
    [options_loop_one_other] shows the loop never ends when exactly one
    other key exists, so that a two-word catalog hangs
    ([generateOptions_two_words_hangs]); [options_loop_terminates] shows it ends as soon as the
    draws have hit two different other keys. *)

From S2P Require Import Prelude Random Catalog.
Import Catalog.

Local Open Scope drill_scope.

Module Options.

(** [{ key: k, ...app.state.wordMap.get(k) }]: the spread of a missing
    entry adds no field, hence the [option]. *)
Record OptionItem := mkOption {
  opt_key : string;
  opt_data : option WordData
}.

Section Generate.
Context {R : Type} `{Entropy R}.
Context (wordMap : JsMap WordData).

Definition make_option (k : string) : OptionItem :=
  mkOption k (jsmap_get k wordMap).

(** [options.find(o => o.key === randomKey)] *)
Definition has_key (options : list OptionItem) (k : string) : bool :=
  existsb (fun o => String.eqb (opt_key o) k) options.

(** The [while] loop; [otherKeys[Math.floor(Math.random() * n)]] is in
    range by [random_index_lt]. *)
Fixpoint options_loop (fuel : nat) (otherKeys : list string)
    (options : list OptionItem) : Rand R (option (list OptionItem)) :=
  match fuel with
  | O => rret None
  | S fuel' =>
      if (length options <? 3) && (0 <? length otherKeys) then
        i <-$ random_index (length otherKeys) ;;
        let randomKey := nth i otherKeys ""%string in
        if has_key options randomKey
        then options_loop fuel' otherKeys options
        else options_loop fuel' otherKeys (options ++ [make_option randomKey])
      else rret (Some options)
  end.

Definition otherKeys_of (allKeys : list string) (correctKey : string) :=
  List.filter (fun k => negb (String.eqb k correctKey)) allKeys.

Definition generateOptions (fuel : nat) (allKeys : list string)
    (correctKey : string) : Rand R (option (list OptionItem)) :=
  res <-$ options_loop fuel (otherKeys_of allKeys correctKey)
            [make_option correctKey] ;;
  match res with
  | None => rret None
  | Some options => shuffled <-$ shuffleArray options ;; rret (Some shuffled)
  end.
End Generate.
End Options.

(** ** Properties of the option loop *)

Module OptionsFacts.
Import Options.

Section Facts.
Context {R : Type} `{Entropy R}.
Context (wordMap : JsMap WordData).

Definition keys_of (options : list OptionItem) : list string :=
  map opt_key options.

(** The keys the first [n] draws of the loop would pick. *)
Fixpoint draw_seq (n m : nat) (r : R) : list nat :=
  match n with
  | O => []
  | S n' => let '(i, r') := random_index m r in i :: draw_seq n' m r'
  end.

Definition drawn_keys (n : nat) (others : list string) (r : R) : list string :=
  map (fun i => nth i others ""%string) (draw_seq n (length others) r).

Lemma has_key_spec options k :
  has_key options k = true <-> k ∈ keys_of options.
Proof.
  unfold has_key, keys_of. rewrite existsb_exists, list_elem_of_In, in_map_iff.
  split.
  - intros (o & Hin & Heq). apply String.eqb_eq in Heq. eauto.
  - intros (o & <- & Hin). exists o. split; [done | apply String.eqb_refl].
Qed.

Lemma random_key_in others r :
  others <> [] ->
  nth (fst (random_index (length others) r)) others ""%string ∈ others.
Proof.
  intros Hne. apply list_elem_of_In. apply nth_In.
  apply (random_index_lt (length others) r).
  destruct others; [done | simpl; lia].
Qed.

Lemma options_loop_step fuel others options r :
  options_loop wordMap (S fuel) others options r =
  if (length options <? 3) && (0 <? length others) then
    let '(i, r') := random_index (length others) r in
    let k := nth i others ""%string in
    if has_key options k then options_loop wordMap fuel others options r'
    else options_loop wordMap fuel others (options ++ [make_option wordMap k]) r'
  else (Some options, r).
Proof.
  cbn [options_loop].
  destruct ((length options <? 3) && (0 <? length others)); [| reflexivity].
  unfold rbind. destruct (random_index (length others) r) as [i r'].
  by destruct (has_key options (nth i others "")).
Qed.

(** What the loop keeps true of the options it builds. *)
Definition options_ok (target : string) (others : list string)
    (options : list OptionItem) : Prop :=
  NoDup (keys_of options) /\
  head (keys_of options) = Some target /\
  (forall k, k ∈ keys_of options -> k = target \/ k ∈ others) /\
  Forall (fun o => opt_data o = jsmap_get (opt_key o) wordMap) options /\
  length options <= 3.

Lemma options_ok_init target others :
  options_ok target others [make_option wordMap target].
Proof.
  unfold options_ok, keys_of; simpl. split; [apply NoDup_singleton |].
  split; [done |]. split; [| split; [by constructor | lia]].
  intros k ->%list_elem_of_singleton. by left.
Qed.

Lemma options_ok_push target others options k :
  options_ok target others options -> length options < 3 ->
  k ∈ others -> k ∉ keys_of options ->
  options_ok target others (options ++ [make_option wordMap k]).
Proof.
  unfold options_ok, keys_of. rewrite map_app. simpl.
  intros (Hnd & Hhd & Hin & Hdat & Hlen) Hlt Hk Hnot.
  split; [| split; [| split; [| split]]].
  - apply NoDup_app. split; [done |]. split; [| apply NoDup_singleton].
    by intros x Hx ->%list_elem_of_singleton.
  - destruct options; [done | done].
  - intros x. rewrite elem_of_app, list_elem_of_singleton.
    intros [Hx | ->]; [by apply Hin | by right].
  - apply Forall_app. split; [done | by constructor].
  - rewrite length_app. simpl. lia.
Qed.

Lemma options_loop_ok fuel others target options r res r' :
  options_ok target others options ->
  options_loop wordMap fuel others options r = (Some res, r') ->
  options_ok target others res /\ (3 <= length res \/ others = []).
Proof.
  revert options r. induction fuel as [|fuel IH]; intros options r Hok Hrun;
    [done |].
  rewrite options_loop_step in Hrun.
  destruct ((length options <? 3) && (0 <? length others)) eqn:Hg.
  - apply andb_true_iff in Hg as [Hl Ho].
    apply Nat.ltb_lt in Hl, Ho.
    pose proof (random_key_in others r) as Hkin.
    destruct (random_index (length others) r) as [i r1].
    simpl in Hkin. cbv zeta in Hrun.
    destruct (has_key options (nth i others "")) eqn:Hk;
      (eapply IH; [| exact Hrun]); [done |].
    apply options_ok_push; try done.
    + apply Hkin. intros ->. simpl in Ho. lia.
    + by rewrite <- has_key_spec, Hk.
  - injection Hrun as <- <-. split; [done |].
    apply andb_false_iff in Hg as [Hl | Ho].
    + left. apply Nat.ltb_ge in Hl. lia.
    + right. apply Nat.ltb_ge in Ho. destruct others; [done | simpl in Ho; lia].
Qed.

Lemma elem_of_otherKeys allKeys t k :
  k ∈ otherKeys_of allKeys t <-> k ∈ allKeys /\ k <> t.
Proof.
  unfold otherKeys_of. rewrite !list_elem_of_In, filter_In, negb_true_iff,
    String.eqb_neq. done.
Qed.

Lemma length_otherKeys allKeys t :
  NoDup allKeys -> t ∈ allKeys ->
  length (otherKeys_of allKeys t) = length allKeys - 1.
Proof.
  unfold otherKeys_of. induction allKeys as [|k l IH]; intros Hnd Ht;
    [by apply not_elem_of_nil in Ht |].
  apply NoDup_cons in Hnd as [Hk Hnd]. simpl.
  destruct (String.eqb_spec k t) as [-> | Hne]; simpl.
  - rewrite filter_id_all; [lia |].
    intros x Hx. apply negb_true_iff, String.eqb_neq. by intros ->.
  - apply elem_of_cons in Ht as [-> | Ht]; [done |].
    rewrite IH by done. destruct l; [by apply not_elem_of_nil in Ht | simpl; lia].
Qed.

(** A loop that already holds the only other key can never grow. *)
Lemma options_loop_stuck x fuel options r :
  x ∈ keys_of options -> length options < 3 ->
  fst (options_loop wordMap fuel [x] options r) = None.
Proof.
  intros Hx Hl. revert r. induction fuel as [|fuel IH]; intros r; [done |].
  rewrite options_loop_step.
  assert (Hg : (length options <? 3) && (0 <? length [x]) = true).
  { apply andb_true_iff. split; apply Nat.ltb_lt; simpl; lia. }
  rewrite Hg. pose proof (random_index_lt (length [x]) r) as Hi.
  destruct (random_index (length [x]) r) as [i r1]. simpl in Hi.
  assert (i = 0) as -> by lia. simpl.
  assert (Hk : has_key options x = true) by by apply has_key_spec.
  rewrite Hk. apply IH.
Qed.

(** When exactly one key other than the target exists, the
    distractor loop of [generateOptions] never terminates, whatever the
    random draws and however much fuel it is given. *)
Theorem options_loop_one_other fuel r target x :
  target <> x ->
  fst (options_loop wordMap fuel [x] [make_option wordMap target] r) = None.
Proof.
  intros Hne. destruct fuel as [|fuel]; [done |].
  rewrite options_loop_step. simpl.
  pose proof (random_index_lt 1 r) as Hi.
  destruct (random_index 1 r) as [i r1]. simpl in Hi.
  assert (i = 0) as -> by lia. simpl.
  unfold has_key. simpl.
  destruct (String.eqb_spec target x); [done |]. simpl.
  apply options_loop_stuck; [| simpl; lia].
  unfold keys_of. simpl. apply elem_of_cons. right. by left.
Qed.

(** C20: With a catalog of exactly two words, [generateOptions] hangs for
    either target: the spec asks for a two-option question. *)
Theorem generateOptions_two_words_hangs fuel r a b correctKey :
  a <> b -> correctKey = a \/ correctKey = b ->
  fst (generateOptions wordMap fuel [a; b] correctKey r) = None.
Proof.
  intros Hab Hc. unfold generateOptions, rbind, otherKeys_of. simpl.
  destruct Hc as [-> | ->].
  - rewrite String.eqb_refl. simpl.
    destruct (String.eqb_spec b a); [congruence |]. simpl.
    pose proof (options_loop_one_other fuel r a b Hab) as Hd.
    destruct (options_loop wordMap fuel [b] [make_option wordMap a] r)
      as [[|] r1]; [done | done].
  - destruct (String.eqb_spec a b); [congruence |]. simpl.
    rewrite String.eqb_refl. simpl.
    pose proof (options_loop_one_other fuel r b a (not_eq_sym Hab)) as Hd.
    destruct (options_loop wordMap fuel [a] [make_option wordMap b] r)
      as [[|] r1]; [done | done].
Qed.

(** The keys of the options [generateOptions] returns are distinct. *)
Lemma generateOptions_NoDup fuel r r' allKeys correctKey res :
  generateOptions wordMap fuel allKeys correctKey r = (Some res, r') ->
  NoDup (keys_of res).
Proof.
  unfold generateOptions, rbind.
  destruct (options_loop wordMap fuel (otherKeys_of allKeys correctKey)
              [make_option wordMap correctKey] r) as [[opts|] r1] eqn:Hl; [| done].
  destruct (shuffleArray opts r1) as [sh r2] eqn:Hs. intros [= <- _].
  pose proof (shuffle_from_perm (length opts - 1) opts r1) as Hp.
  unfold shuffleArray in Hs. rewrite Hs in Hp. simpl in Hp.
  destruct (options_loop_ok _ _ _ _ _ _ _ (options_ok_init correctKey _) Hl)
    as [(Hnd' & _) _].
  by rewrite (Permutation_map opt_key Hp).
Qed.

(** C6: When [generateOptions] returns, its options have distinct keys,
    contain the target exactly once, are drawn from [allKeys], carry the
    word-map data of their key, and number [min 3 (length allKeys)]. *)
Theorem generateOptions_ok fuel r r' allKeys correctKey res :
  NoDup allKeys -> correctKey ∈ allKeys ->
  generateOptions wordMap fuel allKeys correctKey r = (Some res, r') ->
  NoDup (keys_of res) /\ correctKey ∈ keys_of res /\
  (forall k, k ∈ keys_of res -> k ∈ allKeys) /\
  Forall (fun o => opt_data o = jsmap_get (opt_key o) wordMap) res /\
  length res = Nat.min 3 (length allKeys).
Proof.
  intros Hnd Hin. unfold generateOptions, rbind.
  set (others := otherKeys_of allKeys correctKey).
  destruct (options_loop wordMap fuel others [make_option wordMap correctKey] r)
    as [[opts|] r1] eqn:Hl; [| done].
  destruct (shuffleArray opts r1) as [sh r2] eqn:Hs. intros [= <- _].
  pose proof (shuffle_from_perm (length opts - 1) opts r1) as Hp.
  unfold shuffleArray in Hs. rewrite Hs in Hp. simpl in Hp.
  destruct (options_loop_ok _ _ _ _ _ _ _ (options_ok_init correctKey others) Hl)
    as [(Hnd' & Hhd & Hsub & Hdat & Hle) Hlen].
  assert (Hkp : keys_of sh ≡ₚ keys_of opts) by (by apply Permutation_map).
  assert (Hsub' : forall k, k ∈ keys_of opts -> k ∈ correctKey :: others).
  { intros k Hk. apply elem_of_cons. by apply Hsub. }
  pose proof (NoDup_length_le _ _ Hnd' Hsub') as Hub. simpl in Hub.
  pose proof (length_otherKeys allKeys correctKey Hnd Hin) as Hol.
  fold others in Hol.
  assert (Hlen_eq : length (keys_of opts) = length opts) by apply length_map.
  split; [by rewrite Hkp |]. split.
  { rewrite Hkp. destruct (keys_of opts); [done |]. simpl in Hhd.
    injection Hhd as ->. apply elem_of_cons. by left. }
  split.
  { intros k Hk. rewrite Hkp in Hk. apply Hsub in Hk as [-> | Hk]; [done |].
    by apply elem_of_otherKeys in Hk as [? _]. }
  split; [by rewrite Hp |].
  rewrite (Permutation_length Hp).
  assert (1 <= length opts).
  { destruct opts; [done | simpl; lia]. }
  destruct Hlen as [H3 | Hnil].
  - lia.
  - rewrite Hnil in Hol. simpl in Hol.
    assert (length opts <= 1).
    { rewrite <- Hlen_eq. rewrite Hnil in Hsub'.
      apply (NoDup_length_le _ [correctKey]); [done |]. apply Hsub'. }
    apply list_elem_of_lookup in Hin as [? ?%lookup_lt_Some].
    lia.
Qed.

Lemma drawn_keys_S n others r :
  drawn_keys (S n) others r =
  let '(i, r1) := random_index (length others) r in
  nth i others ""%string :: drawn_keys n others r1.
Proof.
  unfold drawn_keys. simpl. by destruct (random_index (length others) r).
Qed.

Lemma drawn_keys_sub n others r k :
  others <> [] -> k ∈ drawn_keys n others r -> k ∈ others.
Proof.
  intros Hne. revert r. induction n as [|n IH]; intros r; [by intros ?%not_elem_of_nil |].
  rewrite drawn_keys_S. pose proof (random_key_in others r Hne) as Hk.
  destruct (random_index (length others) r) as [i r1]. simpl in Hk.
  intros [-> | Hin]%elem_of_cons; [done | by eapply IH].
Qed.

Lemma options_loop_progress others n options r :
  NoDup (keys_of options) ->
  3 <= length (remove_dups (keys_of options ++ drawn_keys n others r)) ->
  is_Some (fst (options_loop wordMap (S n) others options r)).
Proof.
  revert options r. induction n as [|n IH]; intros options r Hnd Hlen.
  - rewrite options_loop_step.
    unfold drawn_keys in Hlen. simpl in Hlen. rewrite app_nil_r in Hlen.
    rewrite remove_dups_length_NoDup in Hlen by done.
    unfold keys_of in Hlen. rewrite length_map in Hlen.
    assert (Hg : (length options <? 3) = false) by (apply Nat.ltb_ge; lia).
    by rewrite Hg.
  - rewrite options_loop_step.
    destruct ((length options <? 3) && (0 <? length others)); [| done].
    rewrite drawn_keys_S in Hlen.
    destruct (random_index (length others) r) as [i r1]. cbv zeta.
    set (k := nth i others ""%string) in *.
    destruct (has_key options k) eqn:Hk; apply IH.
    + done.
    + rewrite Hlen. apply Nat.eq_le_incl, remove_dups_length_equiv.
      apply has_key_spec in Hk. intros x. rewrite !elem_of_app, elem_of_cons.
      naive_solver.
    + unfold keys_of. rewrite map_app. simpl. apply NoDup_app.
      split; [done |]. split; [| apply NoDup_singleton].
      intros x Hx ->%list_elem_of_singleton.
      assert (Hk' : has_key options k = true) by by apply has_key_spec.
      congruence.
    + rewrite Hlen. apply Nat.eq_le_incl, remove_dups_length_equiv.
      unfold keys_of. rewrite map_app. simpl. intros x.
      rewrite !elem_of_app, elem_of_cons, list_elem_of_singleton. naive_solver.
Qed.

(** C13: Liveness of the distractor loop: if the first [n] random draws
    select at least two different keys among the other keys, the loop
    has returned after at most [n + 1] iterations. *)
Theorem options_loop_terminates n r target others :
  target ∉ others ->
  2 <= length (remove_dups (drawn_keys n others r)) ->
  is_Some (fst (options_loop wordMap (S n) others [make_option wordMap target] r)).
Proof.
  intros Hnot H2. destruct (decide (others = [])) as [-> | Hne].
  - rewrite options_loop_step. done.
  - apply options_loop_progress; [apply NoDup_singleton |].
    unfold keys_of. simpl.
    assert (target ∉ drawn_keys n others r).
    { intros Hin. by apply Hnot, (drawn_keys_sub n others r). }
    destruct (decide_rel elem_of target (drawn_keys n others r)); [done |].
    simpl. lia.
Qed.
End Facts.

(** *** Concrete instances *)

Lemma generateOptions_two_words_hangs_witness :
  fst (generateOptions [] 50 ["a"; "b"]%string "a"%string ex_rng) = None.
Proof. apply generateOptions_two_words_hangs; [discriminate | by left]. Defined.

Lemma generateOptions_ok_witness :
  length [mkOption "a" None; mkOption "b" None; mkOption "c" None]%string = 3.
Proof.
  destruct (generateOptions_ok [] 20 ex_rng (mkRng (rng_stream ex_rng) 5)
              ["a"; "b"; "c"; "d"]%string "b"%string
              [mkOption "a" None; mkOption "b" None; mkOption "c" None]%string)
    as (_ & _ & _ & _ & Hlen).
  - apply (bool_decide_unpack _). vm_compute. reflexivity.
  - apply (bool_decide_unpack _). vm_compute. reflexivity.
  - vm_compute. reflexivity.
  - exact Hlen.
Defined.

Lemma options_loop_terminates_witness :
  is_Some (fst (options_loop [] 4 ["a"; "c"; "d"]%string [make_option [] "b"%string] ex_rng)).
Proof.
  apply options_loop_terminates.
  - apply (bool_decide_unpack _). vm_compute. reflexivity.
  - vm_compute. lia.
Defined.
End OptionsFacts.
