(* ===== verification/Progress.v ===== *)
(** * Progress: the completion percentage of [updateProgressBar]

    Models [app.updateProgressBar] ([src/script.js] lines 908-976): the
    mastered records of [progressMap] plus the removed words, over the
    sequence length plus the removed words, as a percentage computed with
    JavaScript numbers, [Math.round((effectiveMastered / total) * 100)].
    JavaScript numbers are IEEE-754 binary64 values: the division and the
    product are the correctly rounded operations [SFdiv] and [SFmul] of the
    Standard Library's [SpecFloat] (precision 53, [emax] 1024), and
    [js_round] is [Math.round] on a finite double (round half up).  The
    exact rational rounding [percent_exact] is the spec's formula; for up
    to 100 words the two differ only at exact halves, by one (23 of 40
    words shows 57%, not 58%). *)

From S2P Require Import Prelude Mastery.
From Stdlib Require Import Floats.SpecFloat.
Import Mastery.

Module ProgressBar.

Definition prec : Z := 53.
Definition emax : Z := 1024.

(** A non-negative integer as a JavaScript number (exact below 2^53). *)
Definition js_number (n : nat) : spec_float :=
  binary_normalize prec emax (Z.of_nat n) 0 false.

(** [Math.round] on a double: the integer [floor (x + 1/2)]; the
    non-finite cases do not arise here and give [0]. *)
Definition js_round (x : spec_float) : Z :=
  match x with
  | S754_finite s m e =>
      let v := if s then Z.neg m else Z.pos m in
      if (0 <=? e)%Z then (v * 2 ^ e)%Z
      else ((2 * v + 2 ^ (- e)) / 2 ^ (1 - e))%Z
  | _ => 0%Z
  end.

(** [total > 0 ? Math.round((effectiveMastered / total) * 100) : 0] *)
Definition js_percentage (effectiveMastered total : nat) : Z :=
  if 0 <? total then
    js_round (SFmul prec emax
                (SFdiv prec emax (js_number effectiveMastered) (js_number total))
                (js_number 100))
  else 0%Z.

(** The spec's [round(100 * effectiveMastered / effectiveTotal)]. *)
Definition percent_exact (m t : nat) : Z :=
  if 0 <? t then ((200 * Z.of_nat m + Z.of_nat t) / (2 * Z.of_nat t))%Z else 0%Z.

(** [progressMap.forEach(p => { if (p.mastered) masteredCountFromMap++; })] *)
Definition masteredCount (progressMap : gmap string Progress) : nat :=
  length (List.filter (fun kv : string * Progress => mastered kv.2)
            (map_to_list progressMap)).

(** What the bar shows: the percentage and [(effectiveMastered/total)]. *)
Record Display := mkDisplay {
  shown_percentage : Z;
  shown_mastered : nat;
  shown_total : nat
}.

Definition updateProgressBar (progressMap : gmap string Progress)
    (sequence : list string) (deletedCount : nat) : Display :=
  let effectiveMastered := masteredCount progressMap + deletedCount in
  let total := length sequence + deletedCount in
  mkDisplay (js_percentage effectiveMastered total) effectiveMastered total.

(** The bounded exhaustive check behind [js_percentage_bounds]. *)
Definition percentage_table_ok (N : nat) : bool :=
  forallb (fun t =>
    forallb (fun m =>
      let p := js_percentage m t in
      (0 <=? p)%Z && (p <=? 100)%Z && (p <=? js_percentage (S m) t)%Z)
      (seq 0 (S t)) &&
    (js_percentage t t =? 100)%Z)
    (seq 1 N).

(** The bounded exhaustive check behind [js_percentage_rounding]: the
    binary64 percentage is the exact rounding, or one less at an exact
    half ([100 * m / t = k + 1/2]). *)
Definition rounding_table_ok (N : nat) : bool :=
  forallb (fun t =>
    forallb (fun m =>
      let p := js_percentage m t in
      let q := percent_exact m t in
      (p =? q)%Z || ((p =? q - 1)%Z && ((200 * m) mod (2 * t) =? t)))
      (seq 0 (S t)))
    (seq 1 N).

(** *** Lemmas *)

Lemma percentage_table_ok_spec N t m :
  percentage_table_ok N = true -> 1 <= t <= N -> m <= t ->
  (0 <= js_percentage m t <= 100)%Z /\
  (js_percentage m t <= js_percentage (S m) t)%Z /\
  js_percentage t t = 100%Z.
Proof.
  unfold percentage_table_ok. rewrite forallb_forall. intros Hall Ht Hm.
  specialize (Hall t). rewrite andb_true_iff, forallb_forall in Hall.
  destruct Hall as [Hall Hfull]; [apply in_seq; lia |].
  specialize (Hall m). rewrite !andb_true_iff, !Z.leb_le in Hall.
  destruct Hall as [[H0 H1] H2]; [apply in_seq; lia |].
  apply Z.eqb_eq in Hfull. lia.
Qed.

Lemma percentage_table_100 : percentage_table_ok 100 = true.
Proof. vm_compute. reflexivity. Qed.

(** Deleting a record removes its contribution to the mastered count. *)
Lemma masteredCount_delete pm k :
  masteredCount pm =
  match pm !! k with Some p => if mastered p then 1 else 0 | None => 0 end +
  masteredCount (delete k pm).
Proof.
  unfold masteredCount. destruct (pm !! k) as [p|] eqn:Hk.
  - rewrite <- (length_filter_perm _ _ _ (map_to_list_delete pm k p Hk)).
    simpl. by destruct (mastered p).
  - by rewrite delete_id.
Qed.

(** C7: For every catalog of at most 100 words, the percentage shown by
    [updateProgressBar] lies in [0..100], never decreases when one more
    word counts as done, and is [100] when every word is done. *)
Theorem js_percentage_bounds t m :
  1 <= t <= 100 -> m <= t ->
  (0 <= js_percentage m t <= 100)%Z /\
  (js_percentage m t <= js_percentage (S m) t)%Z /\
  js_percentage t t = 100%Z.
Proof.
  apply percentage_table_ok_spec, percentage_table_100.
Qed.


Lemma js_percentage_bounds_witness : (0 <= js_percentage 23 40 <= 100)%Z.
Proof. destruct (js_percentage_bounds 40 23) as [H _]; [lia | lia | exact H]. Defined.

Lemma rounding_table_100 : rounding_table_ok 100 = true.
Proof. vm_compute. reflexivity. Qed.

(** C29: The percentage is computed in binary64, not exactly as the spec's
    [round(100 * effectiveMastered / effectiveTotal)]: for every catalog
    of at most 100 words the bar shows the exact rounding, except at an
    exact half ([100 * m / t] ending in [.5]), where the rounding error of
    [(m / t) * 100] can make it one less (23 of 40 words shows 57, not
    58). *)
Theorem js_percentage_rounding t m :
  1 <= t <= 100 -> m <= t ->
  js_percentage m t = percent_exact m t \/
  (js_percentage m t = (percent_exact m t - 1)%Z /\ (200 * m) mod (2 * t) = t).
Proof.
  intros Ht Hm. pose proof rounding_table_100 as Hall.
  unfold rounding_table_ok in Hall. rewrite forallb_forall in Hall.
  specialize (Hall t). rewrite forallb_forall in Hall.
  specialize (Hall ltac:(apply in_seq; lia) m ltac:(apply in_seq; lia)).
  apply orb_prop in Hall as [H | H]; [left; by apply Z.eqb_eq |].
  apply andb_prop in H as [H1 H2]. right. split; [by apply Z.eqb_eq | by apply Nat.eqb_eq].
Qed.

Lemma js_percentage_rounding_witness :
  js_percentage 23 40 = (percent_exact 23 40 - 1)%Z /\ (200 * 23) mod (2 * 40) = 40.
Proof.
  destruct (js_percentage_rounding 40 23) as [H | H]; [lia | lia | | exact H].
  vm_compute in H. discriminate.
Defined.
End ProgressBar.
