(* ===== verification/Tts.v ===== *)
(** * Tts: the Google text-to-speech configuration

    [CONFIG.googleTTS] (lines 9-73 of [src/script.js]) picks a voice and a
    language code for the language of the page and builds the request of
    [synthesize].  The HTTP exchange is an input: the reply is the
    parsed JSON body or a failure ([fetch] or [json()] throwing).  The
    constant audio settings of the request (MP3, rate 0.9, gain 10 dB) and
    the API key are not modelled.  [Session] feeds every TTS answer of the
    event loop through [synthesize]: the event [EvSynthDone] carries the
    [TtsReply], and [playAudio]'s continuation [synthDone] receives what
    [synthesize] resolves to. *)

From S2P Require Import Prelude.

Module Tts.
Local Open Scope string_scope.

(** [getVoiceName(langCode)]; [langCode] is [app.state.currentLang], which
    is [null] until a language is chosen. *)
Definition getVoiceName (langCode : option string) : string :=
  match langCode with
  | Some l =>
      if String.eqb l "en" then "en-US-Wavenet-F"
      else if String.eqb l "zh" then "cmn-CN-Wavenet-A"
      else if String.eqb l "es" then "es-ES-Wavenet-F"
      else if String.eqb l "fr" then "fr-FR-Wavenet-F"
      else if String.eqb l "de" then "de-DE-Wavenet-G"
      else if String.eqb l "ja" then "ja-JP-Wavenet-A"
      else if String.eqb l "ko" then "ko-KR-Wavenet-A"
      else if String.eqb l "it" then "it-IT-Wavenet-E"
      else if String.eqb l "pt" then "pt-PT-Wavenet-E"
      else if String.eqb l "ru" then "ru-RU-Wavenet-C"
      else "en-US-Wavenet-F"
  | None => "en-US-Wavenet-F"
  end.

(** [getLanguageCode(langCode)]. *)
Definition getLanguageCode (langCode : option string) : string :=
  match langCode with
  | Some l =>
      if String.eqb l "de" then "de-DE"
      else if String.eqb l "ja" then "ja-JP"
      else if String.eqb l "es" then "es-ES"
      else "en-US"
  | None => "en-US"
  end.

(** The [input] and [voice] of the body [synthesize] posts. *)
Record TtsRequest := mkRequest {
  req_text : string;
  req_languageCode : string;
  req_voiceName : string
}.

Definition tts_request (text : string) (langCode : option string) : TtsRequest :=
  mkRequest text (getLanguageCode langCode) (getVoiceName langCode).

(** What [fetch] gives back: the parsed body, with its [audioContent] and
    [error.message] when present, or a failure (network error or a body
    that is not JSON). *)
Inductive TtsReply :=
| ReplyJson (audioContent : option string) (errorMessage : option string)
| ReplyFailure.

(** The value [synthesize] resolves to ([if (data.audioContent)]: an empty
    string is falsy); the two [console] branches only log. *)
Definition synthesize (reply : TtsReply) : option string :=
  match reply with
  | ReplyJson (Some c) _ => if String.eqb c "" then None else Some c
  | ReplyJson None _ => None
  | ReplyFailure => None
  end.

End Tts.
