(* ===== verification/Session.v ===== *)
(** * Session: the whole drill session as a state machine

    Models the [app] object of [src/script.js]: its [state] (lines 81-105)
    together with the parts of the page the handlers read back (the option
    cards and their classes, the progress text, the visible screen), and
    the handlers that change them: [startLoading]/[loadData]/[startGame]
    (lines 458-498, 553-559), [nextQuestion] (582-635), [handleSelection]
    (827-906), [removeCurrentWord] (378-417), the callback of the
    positive sound effect (885-891), [playAudio] (671-725) with the
    browser's answers to it (the TTS answer, the end or failure of
    playback, a rejected [play()]) and the replay button.  A handler returns an [Outcome]: the new state, a state in
    which a JavaScript [TypeError] aborted the handler (the mutations made
    before it stay), or [Hang] when [generateOptions] does not return within
    the fuel.  [step] is the event loop; [reachable] its reachable states. *)

From S2P Require Import Prelude Random Mastery Scheduler Catalog Options Progress Tts.
From Stdlib Require Import Ascii.
Import Mastery Scheduler Catalog Options ProgressBar Tts.

Local Open Scope drill_scope.

Module Session.

(** An option card [div.option-card]: its [data-key], the [targetKey] its
    click handler closes over, the image it shows, and the [checked] and
    [disabled] classes. *)
Record Card := mkCard {
  card_key : string;
  card_target : string;
  card_image : string;
  card_checked : bool;
  card_disabled : bool
}.

(** [CONFIG.langMap] (lines 2-6). *)
Record LangConfig := mkLangConfig { lang_name : string; lang_package : string }.

Definition langMap (lang : string) : option LangConfig :=
  if String.eqb lang "de" then Some (mkLangConfig "german" "mini-german-package-k3")
  else if String.eqb lang "ja" then Some (mkLangConfig "japanese" "mini-japanese-package-k3")
  else if String.eqb lang "es" then Some (mkLangConfig "spanish" "mini-spanish-package-k3")
  else None.

Inductive Screen := WarmupScreen | LanguageScreen | ModeScreen | LoadingScreen | GameScreen.

(** What the [onEnd] of a [playAudio] call does: the one of [nextQuestion]
    enables the option cards on the page (lines 632-634), the one of the
    replay button makes the button clickable again (lines 355-359). *)
Inductive AudioCallback := EnableCards | EnableReplay.

(** Where a [playAudio] call is: awaiting [googleTTS.synthesize] (line
    689); playing an [Audio] element, whose [play()] promise may already
    have been rejected (lines 674-684, 694-704); or speaking an utterance
    of the speech fallback (lines 718-724). *)
Inductive AudioPhase :=
| Synthesizing
| PlayingAudio (rejected : bool)
| Speaking.

(** A [playAudio] call that has not finished: its number, the text and
    the language it was called with, its [onEnd] and its phase. *)
Record AudioJob := mkJob {
  job_id : nat;
  job_text : string;
  job_lang : option string;
  job_onEnd : AudioCallback;
  job_phase : AudioPhase
}.

(** [app.warmUp] (lines 109-116; the three [items] are fixed) with the
    parts of the warm-up screen its handlers read back: [targetIndex], the
    item shown at each position ([displayIndices] after the shuffle),
    whether the start button has been clicked (the options are shown),
    whether the option cards have lost their [disabled] class, the [posi]
    effects whose callback has not run yet, and the pending
    [setTimeout(() => app.showScreen('language-screen'), 1000)]. *)
Record WarmUp := mkWarm {
  wu_targetIndex : option nat;
  wu_order : list nat;
  wu_started : bool;
  wu_enabled : bool;
  wu_effects : nat;
  wu_timers : nat
}.

(** The character: [app.state.character] (the chosen picture set), the
    pose its pictures show ([assets/img/<character>/<pose>.png], set by
    [updateCharacter]), [app.state.idleTimer], the pending timer that puts
    it back to [idle], and the number the next [setTimeout] returns. *)
Record Character := mkChar {
  ch_id : string;
  ch_pose : string;
  ch_idleTimer : option nat;
  ch_nextTimer : nat
}.

Record AppState := mkState {
  currentLang : option string;
  wordMap : JsMap WordData;
  sequence : list string;
  progressMap : gmap string Progress;
  currentGroupIndex : nat;
  groupSize : nat;
  activePool : list string;
  currentQuestionKey : option string;
  currentQuestionFailed : bool;
  currentAudioCache : option string;
  allKeys : list string;
  deletedCount : nat;
  treatCount : nat;
  cards : list Card;
  display : Display;
  screen : Screen;
  pendingNext : nat;
  reloadRequested : bool;
  audioJobs : list AudioJob;
  nextJobId : nat;
  completed : list nat;
  replayEnabled : bool;
  warm : WarmUp;
  chr : Character;
  rng : Rng
}.

(** The state the script starts from ([app.state] and [app.warmUp] as
    declared, before [app.init()] runs; the [deletedCount] property is
    absent, read as [0] by [|| 0], and [targetIndex] is [null]).  Besides
    [app.state] the record holds the parts of the page the handlers read
    back: the option cards, the progress text, the visible screen, the
    pending [posi] callbacks ([pendingNext]), a requested
    [location.reload()], the unfinished [playAudio] calls with the number
    of the next one, whether the replay button is clickable, the warm-up
    screen, the character (character ['1'], shown [idle] as
    [startWarmUp] sets it, lines 126-130), and the source of [Math.random()].  [completed] is ghost
    state: the numbers of the [playAudio] calls whose [onEnd] has run, in
    order. *)
Definition initial_state (r : Rng) : AppState :=
  mkState None [] [] ∅ 0 5 [] None false None [] 0 0 [] (mkDisplay 0 0 0)
          WarmupScreen 0 false [] 0 [] true (mkWarm None [] false false 0 0)
          (mkChar "1" "idle" None 1) r.

(** The outcome of one handler. *)
Inductive Outcome :=
| Done (s : AppState)
| Crash (s : AppState)
| Hang.

(** ** Field updates *)

Definition set_rng s r := mkState (currentLang s) (wordMap s) (sequence s) (progressMap s)
  (currentGroupIndex s) (groupSize s) (activePool s) (currentQuestionKey s)
  (currentQuestionFailed s) (currentAudioCache s) (allKeys s) (deletedCount s)
  (treatCount s) (cards s) (display s) (screen s) (pendingNext s) (reloadRequested s) (audioJobs s) (nextJobId s) (completed s) (replayEnabled s) (warm s) (chr s) r.

Definition set_pool s gi pool reload := mkState (currentLang s) (wordMap s) (sequence s)
  (progressMap s) gi (groupSize s) pool (currentQuestionKey s)
  (currentQuestionFailed s) (currentAudioCache s) (allKeys s) (deletedCount s)
  (treatCount s) (cards s) (display s) (screen s) (pendingNext s) reload (audioJobs s) (nextJobId s) (completed s) (replayEnabled s) (warm s) (chr s) (rng s).

Definition set_question s key failed cache := mkState (currentLang s) (wordMap s)
  (sequence s) (progressMap s) (currentGroupIndex s) (groupSize s) (activePool s)
  key failed cache (allKeys s) (deletedCount s)
  (treatCount s) (cards s) (display s) (screen s) (pendingNext s) (reloadRequested s) (audioJobs s) (nextJobId s) (completed s) (replayEnabled s) (warm s) (chr s) (rng s).

Definition set_progressMap s pm := mkState (currentLang s) (wordMap s) (sequence s) pm
  (currentGroupIndex s) (groupSize s) (activePool s) (currentQuestionKey s)
  (currentQuestionFailed s) (currentAudioCache s) (allKeys s) (deletedCount s)
  (treatCount s) (cards s) (display s) (screen s) (pendingNext s) (reloadRequested s) (audioJobs s) (nextJobId s) (completed s) (replayEnabled s) (warm s) (chr s) (rng s).

Definition set_cards s cs := mkState (currentLang s) (wordMap s) (sequence s)
  (progressMap s) (currentGroupIndex s) (groupSize s) (activePool s) (currentQuestionKey s)
  (currentQuestionFailed s) (currentAudioCache s) (allKeys s) (deletedCount s)
  (treatCount s) cs (display s) (screen s) (pendingNext s) (reloadRequested s) (audioJobs s) (nextJobId s) (completed s) (replayEnabled s) (warm s) (chr s) (rng s).

Definition set_failed s := mkState (currentLang s) (wordMap s) (sequence s)
  (progressMap s) (currentGroupIndex s) (groupSize s) (activePool s) (currentQuestionKey s)
  true (currentAudioCache s) (allKeys s) (deletedCount s)
  (treatCount s) (cards s) (display s) (screen s) (pendingNext s) (reloadRequested s) (audioJobs s) (nextJobId s) (completed s) (replayEnabled s) (warm s) (chr s) (rng s).

Definition set_screen s sc := mkState (currentLang s) (wordMap s) (sequence s)
  (progressMap s) (currentGroupIndex s) (groupSize s) (activePool s) (currentQuestionKey s)
  (currentQuestionFailed s) (currentAudioCache s) (allKeys s) (deletedCount s)
  (treatCount s) (cards s) (display s) sc (pendingNext s) (reloadRequested s) (audioJobs s) (nextJobId s) (completed s) (replayEnabled s) (warm s) (chr s) (rng s).

Definition set_lang s lang := mkState (Some lang) (wordMap s) (sequence s)
  (progressMap s) (currentGroupIndex s) (groupSize s) (activePool s) (currentQuestionKey s)
  (currentQuestionFailed s) (currentAudioCache s) (allKeys s) (deletedCount s)
  (treatCount s) (cards s) (display s) ModeScreen (pendingNext s) (reloadRequested s) (audioJobs s) (nextJobId s) (completed s) (replayEnabled s) (warm s) (chr s) (rng s).

(** [app.updateProgressBar()]. *)
Definition refresh_display s := mkState (currentLang s) (wordMap s) (sequence s)
  (progressMap s) (currentGroupIndex s) (groupSize s) (activePool s) (currentQuestionKey s)
  (currentQuestionFailed s) (currentAudioCache s) (allKeys s) (deletedCount s)
  (treatCount s) (cards s)
  (updateProgressBar (progressMap s) (sequence s) (deletedCount s))
  (screen s) (pendingNext s) (reloadRequested s) (audioJobs s) (nextJobId s) (completed s) (replayEnabled s) (warm s) (chr s) (rng s).

(** The data of a new catalog ([loadData] after [parseScaleCSV]). *)
Definition set_catalog s wm sq pm keys := mkState (currentLang s) wm sq pm
  (currentGroupIndex s) (groupSize s) (activePool s) (currentQuestionKey s)
  (currentQuestionFailed s) (currentAudioCache s) keys (deletedCount s)
  (treatCount s) (cards s) (display s) (screen s) (pendingNext s) (reloadRequested s) (audioJobs s) (nextJobId s) (completed s) (replayEnabled s) (warm s) (chr s) (rng s).

(** The removals of [removeCurrentWord], [deletedCount] included. *)
Definition remove_key s key := mkState (currentLang s) (jsmap_delete key (wordMap s))
  (js_remove (sequence s) key) (delete key (progressMap s))
  (currentGroupIndex s) (groupSize s) (activePool s) (currentQuestionKey s)
  (currentQuestionFailed s) (currentAudioCache s) (js_remove (allKeys s) key)
  (S (deletedCount s)) (treatCount s) (cards s) (display s) (screen s)
  (pendingNext s) (reloadRequested s) (audioJobs s) (nextJobId s) (completed s) (replayEnabled s) (warm s) (chr s) (rng s).

(** [updateTreatCount()]. *)
Definition reward s := mkState (currentLang s) (wordMap s) (sequence s)
  (progressMap s) (currentGroupIndex s) (groupSize s) (activePool s) (currentQuestionKey s)
  (currentQuestionFailed s) (currentAudioCache s) (allKeys s) (deletedCount s)
  (S (treatCount s)) (cards s) (display s) (screen s) (pendingNext s)
  (reloadRequested s) (audioJobs s) (nextJobId s) (completed s) (replayEnabled s) (warm s) (chr s) (rng s).

(** A [posi] effect is playing; its [onended] callback will run. *)
Definition schedule_next s := mkState (currentLang s) (wordMap s) (sequence s)
  (progressMap s) (currentGroupIndex s) (groupSize s) (activePool s) (currentQuestionKey s)
  (currentQuestionFailed s) (currentAudioCache s) (allKeys s) (deletedCount s)
  (treatCount s) (cards s) (display s) (screen s) (S (pendingNext s))
  (reloadRequested s) (audioJobs s) (nextJobId s) (completed s) (replayEnabled s) (warm s) (chr s) (rng s).

Definition consume_next s := mkState (currentLang s) (wordMap s) (sequence s)
  (progressMap s) (currentGroupIndex s) (groupSize s) (activePool s) (currentQuestionKey s)
  (currentQuestionFailed s) (currentAudioCache s) (allKeys s) (deletedCount s)
  (treatCount s) (cards s) (display s) (screen s) (pred (pendingNext s))
  (reloadRequested s) (audioJobs s) (nextJobId s) (completed s) (replayEnabled s) (warm s) (chr s) (rng s).

(** [startGame]'s [currentGroupIndex = 0]. *)
Definition reset_group s := mkState (currentLang s) (wordMap s) (sequence s)
  (progressMap s) 0 (groupSize s) (activePool s) (currentQuestionKey s)
  (currentQuestionFailed s) (currentAudioCache s) (allKeys s) (deletedCount s)
  (treatCount s) (cards s) (display s) (screen s) (pendingNext s)
  (reloadRequested s) (audioJobs s) (nextJobId s) (completed s) (replayEnabled s) (warm s) (chr s) (rng s).

(** [app.state.currentAudioCache = c]. *)
Definition set_cache s c := mkState (currentLang s) (wordMap s) (sequence s)
  (progressMap s) (currentGroupIndex s) (groupSize s) (activePool s) (currentQuestionKey s)
  (currentQuestionFailed s) c (allKeys s) (deletedCount s)
  (treatCount s) (cards s) (display s) (screen s) (pendingNext s)
  (reloadRequested s) (audioJobs s) (nextJobId s) (completed s) (replayEnabled s) (warm s) (chr s) (rng s).

(** The unfinished [playAudio] calls and the replay button. *)
Definition set_audio s jobs next done replay := mkState (currentLang s) (wordMap s)
  (sequence s) (progressMap s) (currentGroupIndex s) (groupSize s) (activePool s)
  (currentQuestionKey s) (currentQuestionFailed s) (currentAudioCache s) (allKeys s)
  (deletedCount s) (treatCount s) (cards s) (display s) (screen s) (pendingNext s)
  (reloadRequested s) jobs next done replay (warm s) (chr s) (rng s).

(** The warm-up screen. *)
Definition set_warm s w := mkState (currentLang s) (wordMap s)
  (sequence s) (progressMap s) (currentGroupIndex s) (groupSize s) (activePool s)
  (currentQuestionKey s) (currentQuestionFailed s) (currentAudioCache s) (allKeys s)
  (deletedCount s) (treatCount s) (cards s) (display s) (screen s) (pendingNext s)
  (reloadRequested s) (audioJobs s) (nextJobId s) (completed s) (replayEnabled s) w (chr s) (rng s).

(** The character. *)
Definition set_chr s c := mkState (currentLang s) (wordMap s)
  (sequence s) (progressMap s) (currentGroupIndex s) (groupSize s) (activePool s)
  (currentQuestionKey s) (currentQuestionFailed s) (currentAudioCache s) (allKeys s)
  (deletedCount s) (treatCount s) (cards s) (display s) (screen s) (pendingNext s)
  (reloadRequested s) (audioJobs s) (nextJobId s) (completed s) (replayEnabled s) (warm s) c
  (rng s).

(** [updateCharacter(type)] (lines 419-446): both pictures show [type];
    a pending idle timer is cleared; unless [type] is [idle], a new timer
    will put the character back to [idle] after two seconds. *)
Definition update_char (type : string) (c : Character) : Character :=
  if String.eqb type "idle" then mkChar (ch_id c) type None (ch_nextTimer c)
  else mkChar (ch_id c) type (Some (ch_nextTimer c)) (S (ch_nextTimer c)).

Definition updateCharacter (type : string) (s : AppState) : AppState :=
  set_chr s (update_char type (chr s)).

(** The pose for a click on the option at a position of its row (lines
    193-200 and 830-836): [left], [middle], [right], else [default]. *)
Definition position_pose (default : string) (index : nat) : string :=
  match index with
  | 0 => "left"
  | 1 => "middle"
  | 2 => "right"
  | _ => default
  end.

(** One [Math.random()] draw from the state's source. *)
Definition draw_s (s : AppState) : Z * AppState :=
  let '(u, r') := draw (rng s) in (u, set_rng s r').

Definition random_index_s (n : nat) (s : AppState) : nat * AppState :=
  let '(i, r') := random_index n (rng s) in (i, set_rng s r').


Definition check_card (c : Card) : Card :=
  mkCard (card_key c) (card_target c) (card_image c) true (card_disabled c).
Definition disable_card (c : Card) : Card :=
  mkCard (card_key c) (card_target c) (card_image c) (card_checked c) true.
Definition enable_card (c : Card) : Card :=
  mkCard (card_key c) (card_target c) (card_image c) (card_checked c) false.

(** ** Audio *)

Definition find_job (id : nat) (jobs : list AudioJob) : option AudioJob :=
  List.find (fun j => job_id j =? id) jobs.

Definition drop_job (id : nat) (jobs : list AudioJob) : list AudioJob :=
  List.filter (fun j => negb (job_id j =? id)) jobs.

Definition set_phase (id : nat) (ph : AudioPhase) (jobs : list AudioJob) : list AudioJob :=
  map (fun j => if job_id j =? id
                then mkJob (job_id j) (job_text j) (job_lang j) (job_onEnd j) ph else j) jobs.

(** [playAudio(text, onEnd)] up to its first [await] (lines 671-690): with
    a cached clip an [Audio] element plays it; otherwise the request to
    [googleTTS.synthesize(text, app.state.currentLang)] is sent. *)
Definition playAudio (text : string) (onEnd : AudioCallback) (s : AppState) : AppState :=
  let phase := match currentAudioCache s with
               | Some _ => PlayingAudio false
               | None => Synthesizing
               end in
  set_audio s (audioJobs s ++ [mkJob (nextJobId s) text (currentLang s) onEnd phase])
    (S (nextJobId s)) (completed s) (replayEnabled s).

(** The body of an [onEnd] callback. *)
Definition run_callback (cb : AudioCallback) (s : AppState) : AppState :=
  match cb with
  | EnableCards => set_cards s (map enable_card (cards s))
  | EnableReplay => set_audio s (audioJobs s) (nextJobId s) (completed s) true
  end.

(** Job [j]'s [onEnd] runs, and the job is dropped unless [keep]. *)
Definition fire (j : AudioJob) (keep : bool) (s : AppState) : AppState :=
  run_callback (job_onEnd j)
    (set_audio s (if keep then audioJobs s else drop_job (job_id j) (audioJobs s))
       (nextJobId s) (completed s ++ [job_id j]) (replayEnabled s)).

Definition data_url (content : string) : string := "data:audio/mp3;base64," ++ content.

(** The part of [playAudio] after [await synthesize(...)] for job [id],
    which resolves to [res] ([null] on every error, lines 57-70). *)
Definition synthDone (speechAvailable : bool) (id : nat) (res : option string)
    (s : AppState) : AppState :=
  match find_job id (audioJobs s) with
  | Some j =>
      match job_phase j with
      | Synthesizing =>
          let fallback :=
            if speechAvailable
            then set_audio s (set_phase id Speaking (audioJobs s)) (nextJobId s)
                   (completed s) (replayEnabled s)
            else fire j false s in
          match res with
          | Some c =>
              if String.eqb c "" then fallback
              else let s := set_cache s (Some (data_url c)) in
                   set_audio s (set_phase id (PlayingAudio false) (audioJobs s))
                     (nextJobId s) (completed s) (replayEnabled s)
          | None => fallback
          end
      | _ => s
      end
  | None => s
  end.

(** [onended], [onerror] or the utterance's [onend]: [onEnd] runs. *)
Definition playbackEnd (id : nat) (s : AppState) : AppState :=
  match find_job id (audioJobs s) with
  | Some j =>
      match job_phase j with
      | Synthesizing => s
      | _ => fire j false s
      end
  | None => s
  end.

(** The [play()] promise of an [Audio] element rejects: its [catch] runs
    [onEnd]; the element may still fire [onerror] later. *)
Definition playRejected (id : nat) (s : AppState) : AppState :=
  match find_job id (audioJobs s) with
  | Some j =>
      match job_phase j with
      | PlayingAudio false =>
          fire j true (set_audio s (set_phase id (PlayingAudio true) (audioJobs s))
                         (nextJobId s) (completed s) (replayEnabled s))
      | _ => s
      end
  | None => s
  end.

(** The replay button (lines 348-362); it is not clickable while
    [pointerEvents] is ['none']. *)
Definition replay (s : AppState) : AppState :=
  if replayEnabled s then
    match currentQuestionKey s with
    | Some k =>
        if String.eqb k "" then s else
        match jsmap_get k (wordMap s) with
        | Some d =>
            playAudio (original d) EnableReplay
              (set_audio s (audioJobs s) (nextJobId s) (completed s) false)
        | None => s
        end
    | None => s
    end
  else s.

(** ** The warm-up screen *)

(** [startWarmUp] (lines 123-171): the warm-up screen is shown, a random
    item is the target, the start button is shown and the options, hidden
    and disabled, are rendered in the order of a shuffled [[0, 1, 2]]. *)
Definition startWarmUp (s : AppState) : AppState :=
  let s := set_screen s WarmupScreen in
  let '(t, s) := random_index_s 3 s in
  let '(order, r') := shuffleArray [0; 1; 2] (rng s) in
  let w := warm s in
  set_warm (set_rng s r') (mkWarm (Some t) order false false (wu_effects w) (wu_timers w)).

(** The page after a (re)load: the script's last line runs [app.init()],
    which binds the buttons and calls [startWarmUp]. *)
Definition page_load (r : Rng) : AppState := startWarmUp (initial_state r).

(** The click on the start button (lines 149-153): the button is hidden,
    the options are shown and [playWarmUpAudio] plays the target's name. *)
Definition warmStart (s : AppState) : AppState :=
  let w := warm s in
  set_warm s (mkWarm (wu_targetIndex w) (wu_order w) true (wu_enabled w)
                (wu_effects w) (wu_timers w)).

(** The [onended], [onerror] or [play()] rejection of [playWarmUpAudio]'s
    element (lines 173-188): each removes [disabled] from every option. *)
Definition warmAudioEnd (s : AppState) : AppState :=
  let w := warm s in
  set_warm s (mkWarm (wu_targetIndex w) (wu_order w) (wu_started w) true
                (wu_effects w) (wu_timers w)).

(** The [posi] effect of a correct warm-up answer ends: its callback sets
    the timer (lines 206-210). *)
Definition warmEffectDone (s : AppState) : AppState :=
  let w := warm s in
  if wu_effects w =? 0 then s else
  set_warm s (mkWarm (wu_targetIndex w) (wu_order w) (wu_started w) (wu_enabled w)
                (pred (wu_effects w)) (S (wu_timers w))).

(** The timer fires: [app.showScreen('language-screen')]. *)
Definition warmTimer (s : AppState) : AppState :=
  let w := warm s in
  if wu_timers w =? 0 then s else
  set_screen (set_warm s (mkWarm (wu_targetIndex w) (wu_order w) (wu_started w)
                            (wu_enabled w) (wu_effects w) (pred (wu_timers w))))
    LanguageScreen.

(** Whether the game screen is the one shown. *)
Definition on_game (s : AppState) : bool :=
  match screen s with GameScreen => true | _ => false end.

(** Whether the warm-up screen is the one shown. *)
Definition on_warmup (s : AppState) : bool :=
  match screen s with WarmupScreen => true | _ => false end.

(** [Math.random() < 0.3]: [0.3] is the double [5404319552844595 / 2^54]. *)
Definition below_03 (u : Z) : bool := (2 * u <? 5404319552844595)%Z.

Section Handlers.
(** [PACKAGE_MANIFEST] and the lengths of the lists of [AUDIO_MANIFEST],
    both defined outside [src/]; and the fuel given to the
    distractor loop of [generateOptions]. *)
Context (manifest : string -> option PackageImages).
Context (effectFiles : string -> nat).
Context (fuel : nat).

(** [playEffect(type)] without a callback: one draw picks the file. *)
Definition playEffect (type : string) (s : AppState) : AppState :=
  if effectFiles type =? 0 then s else snd (random_index_s (effectFiles type) s).

(** The [forEach] that renders the options (lines 614-630). *)
Fixpoint render_cards (target : string) (opts : list OptionItem) (s : AppState)
    : Outcome :=
  match opts with
  | [] => Done s
  | o :: opts' =>
      match opt_data o with
      | None => Crash s
      | Some d =>
          let '(i, s1) := random_index_s (length (images d)) s in
          render_cards target opts'
            (set_cards s1 (cards s1 ++
               [mkCard (opt_key o) target (nth i (images d) "undefined"%string)
                  false true]))
      end
  end.

(** [app.updateActivePool()] on the state. *)
Definition refresh_pool (s : AppState) : AppState :=
  let r := updateActivePool (sequence s) (progressMap s) (groupSize s)
             (currentGroupIndex s) in
  set_pool s (pr_group r) (pr_pool r) (reloadRequested s || pr_complete r).

Definition nextQuestion (s : AppState) : Outcome :=
  let s := updateCharacter "idle" s in
  let s := refresh_pool s in
  match activePool s with
  | [] => Done s
  | pool =>
      let s := set_question s (currentQuestionKey s) (currentQuestionFailed s) None in
      let '(poolIndex, s) := random_index_s (length pool) s in
      let targetKey := nth poolIndex pool ""%string in
      let s := set_question s (Some targetKey) false None in
      match progressMap s !! targetKey with
      | None => Crash s
      | Some p =>
          let s := set_progressMap s (<[targetKey := mark_seen p]> (progressMap s)) in
          match jsmap_get targetKey (wordMap s) with
          | None => Crash s
          | Some targetData =>
              match generateOptions (wordMap s) fuel (allKeys s) targetKey (rng s) with
              | (None, _) => Hang
              | (Some opts, r') =>
                  match render_cards targetKey opts (set_cards (set_rng s r') []) with
                  | Done s => Done (playAudio (original targetData) EnableCards s)
                  | o => o
                  end
              end
          end
      end
  end.

(** The callback of the [posi] effect (lines 885-891). *)
Definition posi_callback (s : AppState) : Outcome :=
  let '(u, s) := draw_s s in
  let s := if below_03 u then playEffect "cat" s else s in
  nextQuestion s.

(** [playEffect('posi', callback)]: without files the callback runs at
    once; otherwise a file is drawn and the callback runs later. *)
Definition play_posi (s : AppState) : Outcome :=
  if effectFiles "posi" =? 0 then posi_callback s
  else Done (schedule_next (playEffect "posi" s)).

Definition handleSelection (i : nat) (s : AppState) : Outcome :=
  match cards s !! i with
  | None => Done s
  | Some c =>
      if card_checked c then Done s else
      let s := updateCharacter (position_pose "_" i) s in
      let correctKey := card_target c in
      let isCorrect := String.eqb (card_key c) correctKey in
      let progress := progressMap s !! correctKey in
      let s := set_cards s (<[i := check_card c]> (cards s)) in
      if isCorrect then
        match progress with
        | None => Crash s
        | Some p =>
            let s := set_progressMap s
                       (<[correctKey := on_correct p (currentQuestionFailed s)]>
                          (progressMap s)) in
            let s := refresh_display s in
            let s := set_cards s (map disable_card (cards s)) in
            play_posi (reward s)
        end
      else Done (playEffect "neg" (set_failed s))
  end.

Definition removeCurrentWord (s : AppState) : Outcome :=
  match currentQuestionKey s with
  | None => Done s
  | Some key =>
      if String.eqb key "" then Done s
      else nextQuestion (refresh_display (remove_key s key))
  end.

Definition startGame (s : AppState) : Outcome :=
  let s := refresh_pool (reset_group s) in
  let s := refresh_display s in
  nextQuestion (set_screen s GameScreen).

(** [handleWarmUpSelection] (lines 190-217) for the option at position
    [pos] of the warm-up screen, which shows item [displayIndices[pos]].
    A disabled option does nothing; the target plays [posi], whose callback
    will set the timer (at once when [posi] has no files); another item
    plays [neg].  The character's picture is not modelled. *)
Definition handleWarmUpSelection (pos : nat) (s : AppState) : AppState :=
  let w := warm s in
  match wu_order w !! pos with
  | None => s
  | Some selectedIndex =>
      if negb (wu_enabled w) then s else
      let s := updateCharacter (position_pose "neutral" pos) s in
      if bool_decide (Some selectedIndex = wu_targetIndex w) then
        if effectFiles "posi" =? 0 then
          set_warm s (mkWarm (wu_targetIndex w) (wu_order w) (wu_started w)
                        (wu_enabled w) (wu_effects w) (S (wu_timers w)))
        else
          let s := playEffect "posi" s in
          set_warm s (mkWarm (wu_targetIndex w) (wu_order w) (wu_started w)
                        (wu_enabled w) (S (wu_effects w)) (wu_timers w))
      else playEffect "neg" s
  end.

(** [loadData] (lines 471-498): [inl] is the state left when it throws
    (the error is caught and shown by [startLoading]), [inr] the loaded
    state handed to [startGame]. *)
Definition loadData (fetched : option string) (s : AppState) : AppState + AppState :=
  let s := set_catalog s [] (sequence s) ∅ (allKeys s) in
  match currentLang s with
  | None => inl s
  | Some lang =>
      match langMap lang, fetched with
      | Some cfg, Some text =>
          let pr := parseScaleCSV lang (manifest (lang_package cfg)) text
                      (lang_package cfg) (wordMap s) in
          let sq := default (sequence s) (parsed_sequence pr) in
          let keys := jsmap_keys (parsed_wordMap pr) in
          let s := set_catalog s (parsed_wordMap pr) sq (progressMap s) keys in
          match keys with
          | [] => inl s
          | _ =>
              let pm := fold_left (fun m k => <[k := initial_progress]> m) sq
                          (progressMap s) in
              let '(sq', r') := shuffleArray sq (rng s) in
              inr (set_rng (set_catalog s (wordMap s) sq' pm keys) r')
          end
      | _, _ => inl s
      end
  end.

(** [startLoading] (lines 458-469); [fetched] is the text of the CSV,
    or [None] when the request fails. *)
Definition startLoading (fetched : option string) (s : AppState) : Outcome :=
  match loadData fetched (set_screen s LoadingScreen) with
  | inl s' => Done s'
  | inr s' => startGame s'
  end.
End Handlers.

(** The events of the page.  The warm-up events: the start button, the
    end (or failure) of the warm-up audio, a click on the option at a
    position, the end of a warm-up [posi] effect and its timer.  Then a
    language button, the endless-mode button or the confirmed restart of
    the settings modal ([startLoading] with the text the request returns,
    or [None] when it fails), a confirmed language of the settings modal,
    a click on the option card at a position, the end of a game [posi]
    effect, the browser's answers to [playAudio] (the TTS reply, which
    [synthesize] turns into a clip or [null] for [synthDone];
    [playbackEnd], [playRejected]), the replay button, the confirmed
    removal; the character's idle timer, a click elsewhere on the page
    and a character of the settings modal. *)
Inductive Event :=
| EvWarmStart
| EvWarmAudioEnd
| EvWarmClick (pos : nat)
| EvWarmEffectDone
| EvWarmTimer
| EvSelectLanguage (lang : string)
| EvStartLoading (fetched : option string)
| EvSettingsLanguage (lang : string) (fetched : option string)
| EvClick (i : nat)
| EvEffectDone
| EvSynthDone (id : nat) (reply : TtsReply)
| EvPlaybackEnd (id : nat)
| EvPlayRejected (id : nat)
| EvReplay
| EvRemove
| EvIdleTimer (id : nat)
| EvBackgroundClick
| EvPickCharacter (charId : string).

Section Machine.
(** [PACKAGE_MANIFEST], [AUDIO_MANIFEST], whether the browser has
    [window.speechSynthesis], and the fuel of the options loop. *)
Context (manifest : string -> option PackageImages).
Context (effectFiles : string -> nat).
Context (speechAvailable : bool).
Context (fuel : nat).

Definition handle (e : Event) (s : AppState) : Outcome :=
  match e with
  | EvWarmStart =>
      (* the button is shown on the warm-up screen until it is clicked *)
      Done (if on_warmup s && negb (wu_started (warm s)) then warmStart s else s)
  | EvWarmAudioEnd => Done (if wu_started (warm s) then warmAudioEnd s else s)
  | EvWarmClick pos =>
      (* the options are shown once the start button has been clicked *)
      Done (if on_warmup s && wu_started (warm s)
            then handleWarmUpSelection effectFiles pos s else s)
  | EvWarmEffectDone => Done (warmEffectDone s)
  | EvWarmTimer => Done (warmTimer s)
  | EvSelectLanguage lang => Done (set_lang s lang)
  | EvStartLoading fetched => startLoading manifest fuel fetched s
  | EvSettingsLanguage lang fetched =>
      (* a language of the settings modal, once confirmed (lines 250-260) *)
      startLoading manifest fuel fetched (set_lang s lang)
  | EvClick i => handleSelection effectFiles fuel i s
  | EvEffectDone =>
      if pendingNext s =? 0 then Done s
      else posi_callback effectFiles fuel (consume_next s)
  | EvSynthDone id reply => Done (synthDone speechAvailable id (synthesize reply) s)
  | EvPlaybackEnd id => Done (playbackEnd id s)
  | EvPlayRejected id => Done (playRejected id s)
  | EvReplay => Done (replay s)
  | EvRemove => removeCurrentWord fuel s
  | EvIdleTimer id =>
      (* a cleared timer never fires *)
      Done (if bool_decide (ch_idleTimer (chr s) = Some id) then updateCharacter "idle" s
            else s)
  | EvBackgroundClick =>
      (* the window's listener (lines 325-342): a click outside the option
         cards, the replay and the delete buttons, with the game shown *)
      Done (if on_game s then updateCharacter "neutral" s else s)
  | EvPickCharacter charId =>
      (* a character of the settings modal (lines 304-312) *)
      let c := chr s in
      Done (updateCharacter "idle"
              (set_chr s (mkChar charId (ch_pose c) (ch_idleTimer c) (ch_nextTimer c))))
  end.

(** [location.reload()] takes effect once the handler has returned. *)
Definition settle (o : Outcome) : Outcome :=
  match o with
  | Done s => if reloadRequested s then Done (page_load (rng s)) else Done s
  | Crash s => if reloadRequested s then Done (page_load (rng s)) else Crash s
  | Hang => Hang
  end.

Definition step (s : AppState) (e : Event) : Outcome := settle (handle e s).

Inductive reachable : AppState -> Prop :=
| reach_init r : reachable (page_load r)
| reach_done s e s' : reachable s -> step s e = Done s' -> reachable s'
| reach_crash s e s' : reachable s -> step s e = Crash s' -> reachable s'.
End Machine.
(** ** Lemmas *)

(** The fields of a chain of updates, evaluated lazily from the outside
    so that the state is never copied. *)
Ltac fields :=
  cbn [set_rng set_pool set_question set_progressMap set_cards set_failed
    set_screen set_lang refresh_display set_catalog remove_key reward
    schedule_next consume_next reset_group set_cache set_audio
    progressMap allKeys cards wordMap sequence rng currentGroupIndex groupSize
    activePool currentQuestionKey currentQuestionFailed deletedCount display screen
    pendingNext reloadRequested treatCount currentLang currentAudioCache
    audioJobs nextJobId completed replayEnabled set_warm warm
    wu_targetIndex wu_order wu_started wu_enabled wu_effects wu_timers
    updateCharacter set_chr chr
    pr_group pr_pool pr_complete] in *.

(** The fields no audio handler writes (all but the cards, the cache, the
    unfinished calls and the replay button). *)
Definition sched_view (s : AppState) :=
  (currentLang s, wordMap s, sequence s, progressMap s, currentGroupIndex s, groupSize s,
   activePool s, currentQuestionKey s, currentQuestionFailed s, allKeys s, deletedCount s,
   treatCount s, display s, screen s, pendingNext s, reloadRequested s, rng s).

Lemma fire_sched j keep s : sched_view (fire j keep s) = sched_view s.
Proof. unfold fire, run_callback. by destruct (job_onEnd j). Qed.

Lemma playAudio_sched t cb s : sched_view (playAudio t cb s) = sched_view s.
Proof. done. Qed.

Lemma synthDone_sched sp id res s : sched_view (synthDone sp id res s) = sched_view s.
Proof.
  unfold synthDone. destruct (find_job id (audioJobs s)) as [j|]; [| done].
  destruct (job_phase j); try done.
  destruct res as [c|]; [destruct (String.eqb c "") |]; try done;
    destruct sp; try done; apply fire_sched.
Qed.

Lemma playbackEnd_sched id s : sched_view (playbackEnd id s) = sched_view s.
Proof.
  unfold playbackEnd. destruct (find_job id (audioJobs s)) as [j|]; [| done].
  destruct (job_phase j); try done; apply fire_sched.
Qed.

Lemma playRejected_sched id s : sched_view (playRejected id s) = sched_view s.
Proof.
  unfold playRejected. destruct (find_job id (audioJobs s)) as [j|]; [| done].
  destruct (job_phase j) as [| [] |]; try done. by rewrite fire_sched.
Qed.

Lemma replay_sched s : sched_view (replay s) = sched_view s.
Proof.
  unfold replay. destruct (replayEnabled s); [| done].
  destruct (currentQuestionKey s) as [k|]; [| done].
  destruct (String.eqb k ""); [done |]. by destruct (jsmap_get k (wordMap s)).
Qed.

(** The character's events touch the character only. *)
Lemma idleTimer_sched id s :
  sched_view (if bool_decide (ch_idleTimer (chr s) = Some id)
              then updateCharacter "idle" s else s) = sched_view s.
Proof. by case_bool_decide. Qed.

Lemma backgroundClick_sched s :
  sched_view (if on_game s then updateCharacter "neutral" s else s) = sched_view s.
Proof. by destruct (on_game s). Qed.
End Session.
