(* ===== verification/Audio.v ===== *)
(** * Audio: the unfinished [playAudio] calls

    Properties of the audio part of [Session] ([app.playAudio], lines
    671-725, and its callers [nextQuestion] and the replay button): every
    call ends by running its [onEnd] once the TTS service has answered and
    the clip or utterance has ended, whatever the answer, so the cards of a
    question are always unlocked; every new question starts from an empty
    cache with a request for its own word; the answer of any pending TTS
    request, for whatever word, becomes the current question's clip; and
    an [Audio] element whose [play()] is rejected and which then fails
    runs [onEnd] twice. *)

From S2P Require Import Prelude Random Mastery Scheduler Catalog Options Progress Tts Session.
Import Mastery Scheduler Catalog Options ProgressBar Tts Session.

Module Audio.

(** A job with its phase replaced. *)
Definition with_phase (ph : AudioPhase) (j : AudioJob) : AudioJob :=
  mkJob (job_id j) (job_text j) (job_lang j) (job_onEnd j) ph.

(** The job that stays when a [play()] rejection has run [onEnd]. *)
Definition rejected_job (j : AudioJob) : AudioJob := with_phase (PlayingAudio true) j.

(** *** Finding jobs *)

Lemma find_job_id id jobs j : find_job id jobs = Some j -> job_id j = id.
Proof.
  unfold find_job. intros Hf. apply find_some in Hf as [_ Hf]. by apply Nat.eqb_eq.
Qed.

Lemma find_job_set_phase id ph jobs :
  find_job id (set_phase id ph jobs) = with_phase ph <$> find_job id jobs.
Proof.
  unfold find_job, set_phase. induction jobs as [|j jobs IH]; [done |]. cbn [map List.find].
  destruct (job_id j =? id) eqn:E; cbn [job_id]; rewrite ?E; [done | exact IH].
Qed.

Lemma find_job_drop id jobs : find_job id (drop_job id jobs) = None.
Proof.
  unfold find_job, drop_job. induction jobs as [|j jobs IH]; [done |]. cbn [List.filter].
  destruct (job_id j =? id) eqn:E; cbn; rewrite ?E; done.
Qed.

Lemma find_job_app_new id jobs j :
  Forall (fun j' => job_id j' < id) jobs -> job_id j = id ->
  find_job id (jobs ++ [j]) = Some j.
Proof.
  unfold find_job. induction jobs as [|j' jobs IH]; intros Hlt Hj; cbn.
  - by rewrite Hj, Nat.eqb_refl.
  - apply Forall_cons in Hlt as [H1 H2]. destruct (Nat.eqb_spec (job_id j') id); [lia |].
    by apply IH.
Qed.

(** *** What [fire] leaves *)

Lemma fire_completed j keep s : completed (fire j keep s) = completed s ++ [job_id j].
Proof. unfold fire, run_callback. by destruct (job_onEnd j). Qed.

Lemma fire_jobs j keep s :
  audioJobs (fire j keep s) =
  if keep then audioJobs s else drop_job (job_id j) (audioJobs s).
Proof. unfold fire, run_callback. by destruct (job_onEnd j). Qed.

(** The effect of [onEnd] on the page. *)
Definition unlocked (cb : AudioCallback) (s : AppState) : Prop :=
  match cb with
  | EnableCards => Forall (fun c => card_disabled c = false) (cards s)
  | EnableReplay => replayEnabled s = true
  end.

Lemma fire_unlocked j keep s : unlocked (job_onEnd j) (fire j keep s).
Proof.
  unfold fire, run_callback, unlocked. destruct (job_onEnd j); [| done].
  cbn [cards set_cards set_audio]. rewrite Forall_map. by apply Forall_true.
Qed.

(** What a finished call leaves, for [playbackEnd] to find. *)
Definition finished (id : nat) (cb : AudioCallback) (s : AppState) : Prop :=
  id ∈ completed s /\ find_job id (audioJobs s) = None /\ unlocked cb s.

Lemma playbackEnd_none id s : find_job id (audioJobs s) = None -> playbackEnd id s = s.
Proof. unfold playbackEnd. by intros ->. Qed.

Lemma playbackEnd_playing id s j :
  find_job id (audioJobs s) = Some j -> job_phase j <> Synthesizing ->
  finished id (job_onEnd j) (playbackEnd id s).
Proof.
  intros Hf Hph. pose proof (find_job_id _ _ _ Hf) as Hid.
  unfold playbackEnd. rewrite Hf.
  assert (Hfire : finished id (job_onEnd j) (fire j false s)).
  { split; [| split].
    - rewrite fire_completed, Hid. apply elem_of_app. right. by left.
    - rewrite fire_jobs, Hid. apply find_job_drop.
    - apply fire_unlocked. }
  by destruct (job_phase j).
Qed.

Lemma finished_playbackEnd id cb s : finished id cb s -> finished id cb (playbackEnd id s).
Proof. intros Hs. rewrite playbackEnd_none; [done | apply Hs]. Qed.

(** What [render_cards] leaves of the audio and the question. *)
Definition audio_view (s : AppState) :=
  (currentAudioCache s, audioJobs s, nextJobId s, currentLang s, currentQuestionKey s,
   wordMap s).

Lemma render_cards_audio t opts s s1 :
  render_cards t opts s = Done s1 -> audio_view s1 = audio_view s.
Proof.
  revert s. induction opts as [|o opts IH]; intros s Hr; cbn [render_cards] in Hr.
  - by injection Hr as <-.
  - destruct (opt_data o) as [d|]; [| discriminate].
    unfold random_index_s in Hr. destruct (random_index _ (rng s)) as [i r].
    rewrite (IH _ Hr). done.
Qed.

(** *** Theorems *)

(** C8: Every unfinished [playAudio] call finishes once the TTS service has
    answered (with a clip, with nothing, or with an error) and its clip or
    utterance has ended: its [onEnd] has run, the call is gone, and its
    effect is on the page (all option cards enabled, or the replay button
    clickable again), whether or not the browser has a speech fallback. *)
Theorem audio_call_completes speech id res s j :
  find_job id (audioJobs s) = Some j ->
  finished id (job_onEnd j) (playbackEnd id (synthDone speech id res s)).
Proof.
  intros Hf. pose proof (find_job_id _ _ _ Hf) as Hid.
  unfold synthDone. rewrite Hf.
  destruct (job_phase j) eqn:Hph; [| apply (playbackEnd_playing _ _ j); congruence ..].
  (* the request was pending *)
  assert (Hspeak : forall ph, ph <> Synthesizing -> forall s0,
            find_job id (audioJobs s0) = Some j ->
            finished id (job_onEnd j)
              (playbackEnd id (set_audio s0 (set_phase id ph (audioJobs s0))
                                 (nextJobId s0) (completed s0) (replayEnabled s0)))).
  { intros ph Hne s0 Hf0. apply (playbackEnd_playing _ _ (with_phase ph j)).
    - cbn [audioJobs set_audio]. by rewrite find_job_set_phase, Hf0.
    - done. }
  assert (Hfb : finished id (job_onEnd j)
            (playbackEnd id (if speech
                             then set_audio s (set_phase id Speaking (audioJobs s))
                                    (nextJobId s) (completed s) (replayEnabled s)
                             else fire j false s))).
  { destruct speech; [by apply Hspeak |]. apply finished_playbackEnd.
    split; [| split].
    - rewrite fire_completed, Hid. apply elem_of_app. right. by left.
    - rewrite fire_jobs, Hid. apply find_job_drop.
    - apply fire_unlocked. }
  destruct res as [c|]; [| exact Hfb].
  destruct (String.eqb c ""); [exact Hfb |]. by apply Hspeak.
Qed.

(** C9: Every question [nextQuestion] draws starts its audio afresh: the
    cache is empty and the newest unfinished call is a TTS request for the
    target's own word, in the current language, whose [onEnd] unlocks the
    cards.  (Its cache may still be filled later by the answer to an
    older request: see [Scenarios].) *)
Theorem nextQuestion_fresh_audio fuel s s' k :
  Forall (fun j => job_id j < nextJobId s) (audioJobs s) ->
  activePool (refresh_pool s) <> [] ->
  nextQuestion fuel s = Done s' -> currentQuestionKey s' = Some k ->
  currentAudioCache s' = None /\ nextJobId s' = S (nextJobId s) /\
  exists d, jsmap_get k (wordMap s) = Some d /\
    find_job (nextJobId s) (audioJobs s') =
      Some (mkJob (nextJobId s) (original d) (currentLang s) EnableCards Synthesizing).
Proof.
  intros Hids Hpool Hn Hk. unfold nextQuestion, refresh_pool in *. cbv zeta in Hn. fields.
  destruct (pr_pool _) as [|x xs] eqn:Hp; [done |].
  unfold random_index_s in *.
  match type of Hn with context [random_index ?n ?r] => destruct (random_index n r) as [i r1] end.
  fields.
  destruct (progressMap s !! _) as [p|]; [| discriminate].
  destruct (jsmap_get _ (wordMap s)) as [d|] eqn:Hd; [| discriminate].
  match type of Hn with context [generateOptions ?w ?f ?a ?t ?r] =>
    destruct (generateOptions w f a t r) as [[opts|] r']; [| discriminate] end.
  match type of Hn with context [render_cards ?t ?o ?s0] =>
    destruct (render_cards t o s0) as [s1|s1|] eqn:Er; [| discriminate | discriminate];
    pose proof (render_cards_audio _ _ _ _ Er) as Ha end.
  injection Hn as <-. unfold audio_view, playAudio in *. fields.
  injection Ha as E1 E2 E3 E4 E5 E6. rewrite E5 in Hk. injection Hk as <-.
  rewrite ?E1, ?E2, ?E3, ?E4.
  split; [done |]. split; [done |]. exists d. split; [exact Hd |].
  by apply find_job_app_new.
Qed.

(** C28: An [onEnd] can run twice: when the [play()] promise of an [Audio]
    element is rejected (its [catch] runs [onEnd]) and the element then
    fires [onerror] (which runs [onEnd] again), the call is logged as
    finished twice; the spec asks for exactly one completion. *)
Theorem play_rejected_then_error_fires_twice id s j :
  find_job id (audioJobs s) = Some j -> job_phase j = PlayingAudio false ->
  completed (playbackEnd id (playRejected id s)) = completed s ++ [id; id].
Proof.
  intros Hf Hph. pose proof (find_job_id _ _ _ Hf) as Hid.
  unfold playRejected. rewrite Hf, Hph.
  set (s1 := set_audio s (set_phase id (PlayingAudio true) (audioJobs s))
               (nextJobId s) (completed s) (replayEnabled s)).
  assert (Hf1 : find_job id (audioJobs (fire j true s1)) = Some (rejected_job j)).
  { rewrite fire_jobs. cbn [audioJobs s1 set_audio]. by rewrite find_job_set_phase, Hf. }
  unfold playbackEnd. rewrite Hf1. cbn [rejected_job with_phase job_phase].
  rewrite !fire_completed. cbn [completed s1 set_audio rejected_job with_phase job_id].
  rewrite Hid, <- app_assoc. done.
Qed.

(** C27: The answer to a TTS request is not checked against the question
    on screen: whatever word a still-pending request was made for (an
    older question's, after a removal or a restart), a non-empty clip in
    its answer becomes the cache of the current question and starts
    playing, and the replay button of the current question then plays that
    clip again instead of requesting its own word.  The spec keeps the
    cache for the current question's word only. *)
Theorem tts_answer_not_checked speech id j c err s :
  find_job id (audioJobs s) = Some j -> job_phase j = Synthesizing -> c <> ""%string ->
  let s' := synthDone speech id (synthesize (ReplyJson (Some c) err)) s in
  currentAudioCache s' = Some (data_url c) /\ currentQuestionKey s' = currentQuestionKey s /\
  find_job id (audioJobs s') = Some (with_phase (PlayingAudio false) j) /\
  (forall k d, replayEnabled s = true -> currentQuestionKey s = Some k -> k <> ""%string ->
     jsmap_get k (wordMap s) = Some d ->
     currentAudioCache (replay s') = Some (data_url c) /\
     last (audioJobs (replay s')) =
       Some (mkJob (nextJobId s) (original d) (currentLang s) EnableReplay (PlayingAudio false))).
Proof.
  intros Hf Hph Hc. unfold synthDone. rewrite Hf, Hph. cbn [synthesize].
  apply String.eqb_neq in Hc. cbv zeta. rewrite Hc. fields. rewrite Hc. fields.
  split; [done | split; [done | split]].
  - by rewrite find_job_set_phase, Hf.
  - intros k d Hre Hk Hne Hd. unfold replay. fields. rewrite Hre, Hk.
    apply String.eqb_neq in Hne. rewrite Hne, Hd. unfold playAudio. fields.
    split; [done |]. apply last_snoc.
Qed.
End Audio.
