(* ===== verification/Invariant.v ===== *)
(** * Invariant: what every reachable session state satisfies

    The session invariant [inv]: every progress record is well formed
    ([progress_wf]), [allKeys] has no duplicates and contains every key that
    has a progress record, and the option cards on the page are coherent
    (one target, distinct keys) and fresh (the unchecked correct card
    belongs to an unmastered word).  Every handler preserves it, on its
    normal and on its [TypeError] outcomes, so every reachable state
    satisfies it ([reachable_inv]); levels therefore never pass the mastery
    threshold. *)

From S2P Require Import Prelude Random Mastery Scheduler Catalog Options Progress Session.
Import Mastery Scheduler Catalog Options OptionsFacts ProgressBar Session.

Module Invariant.

Definition card_view (c : Card) : string * string * bool :=
  (card_key c, card_target c, card_checked c).

Definition cards_ok (pm : gmap string Progress) (cs : list Card) : Prop :=
  (forall c1 c2, c1 ∈ cs -> c2 ∈ cs -> card_target c1 = card_target c2) /\
  NoDup (map card_key cs) /\
  (forall c p, c ∈ cs -> card_key c = card_target c -> card_checked c = false ->
               pm !! card_key c = Some p -> mastered p = false).

Definition inv (s : AppState) : Prop :=
  (forall k p, progressMap s !! k = Some p -> progress_wf p = true) /\
  NoDup (allKeys s) /\
  (forall k, is_Some (progressMap s !! k) -> k ∈ allKeys s) /\
  cards_ok (progressMap s) (cards s).

Definition outcome_inv (o : Outcome) : Prop :=
  match o with
  | Done s | Crash s => inv s
  | Hang => True
  end.

Ltac setters :=
  unfold set_rng, set_pool, set_question, set_progressMap, set_cards, set_failed,
    set_screen, set_lang, refresh_display, set_catalog, remove_key, reward,
    schedule_next, consume_next, reset_group in *; cbn [progressMap allKeys cards
    wordMap sequence rng currentGroupIndex groupSize activePool currentQuestionKey
    currentQuestionFailed deletedCount display screen pendingNext reloadRequested
    treatCount currentLang currentAudioCache] in *.

(** *** Transfer along updates that keep the relevant fields *)

Lemma cards_ok_view pm cs cs' :
  map card_view cs' = map card_view cs -> cards_ok pm cs -> cards_ok pm cs'.
Proof.
  intros Hv (Ht & Hk & Hf).
  assert (Hin : forall c', c' ∈ cs' -> exists c, c ∈ cs /\ card_view c = card_view c').
  { intros c' Hc'. apply list_elem_of_In in Hc'.
    assert (Hm : In (card_view c') (map card_view cs)) by (rewrite <- Hv; by apply in_map).
    apply in_map_iff in Hm as (c & E & Hc).
    exists c. split; [by apply list_elem_of_In | done]. }
  assert (Hkeys : map card_key cs' = map card_key cs).
  { change card_key with (fun c => fst (fst (card_view c))).
    rewrite <- !(map_map card_view (fun v => fst (fst v))). by rewrite Hv. }
  split; [| split].
  - intros c1 c2 H1 H2.
    destruct (Hin c1 H1) as (d1 & Hd1 & E1), (Hin c2 H2) as (d2 & Hd2 & E2).
    unfold card_view in E1, E2. injection E1 as _ <- _. injection E2 as _ <- _.
    by apply Ht.
  - by rewrite Hkeys.
  - intros c p Hc. destruct (Hin c Hc) as (d & Hd & E).
    unfold card_view in E. injection E as <- <- <-. by apply Hf.
Qed.

Lemma inv_transfer s s' :
  progressMap s' = progressMap s -> allKeys s' = allKeys s ->
  map card_view (cards s') = map card_view (cards s) ->
  inv s -> inv s'.
Proof.
  intros Hp Ha Hc (I1 & I2 & I3 & I4). unfold inv. rewrite Hp, Ha.
  split; [done |]. split; [done |]. split; [done |].
  by eapply cards_ok_view.
Qed.

Lemma map_card_view_disable cs :
  map card_view (map disable_card cs) = map card_view cs.
Proof. rewrite map_map. by apply map_ext. Qed.

Lemma map_card_view_enable cs :
  map card_view (map enable_card cs) = map card_view cs.
Proof. rewrite map_map. by apply map_ext. Qed.


(** The part of [inv] that does not mention the cards. *)
Definition inv_base (s : AppState) : Prop :=
  (forall k p, progressMap s !! k = Some p -> progress_wf p = true) /\
  NoDup (allKeys s) /\
  (forall k, is_Some (progressMap s !! k) -> k ∈ allKeys s).

Lemma inv_base_of s : inv s -> inv_base s.
Proof. by intros (? & ? & ? & _). Qed.

Lemma inv_of_base s : inv_base s -> cards_ok (progressMap s) (cards s) -> inv s.
Proof. unfold inv_base, inv. tauto. Qed.

(** Cards that all belong to the question on [t] whose word is not
    mastered satisfy [cards_ok]. *)
Lemma cards_ok_fresh pm t cs :
  (forall c, c ∈ cs -> card_target c = t) -> NoDup (map card_key cs) ->
  (forall p, pm !! t = Some p -> mastered p = false) ->
  cards_ok pm cs.
Proof.
  intros Ht Hnd Hf. split; [| split; [done |]].
  - intros c1 c2 H1 H2. by rewrite (Ht c1 H1), (Ht c2 H2).
  - intros c p Hc Hkt _ Hp. rewrite Hkt, (Ht c Hc) in Hp. by apply Hf.
Qed.

Lemma render_cards_inv t opts s :
  inv_base s ->
  (forall c, c ∈ cards s -> card_target c = t) ->
  NoDup (map card_key (cards s) ++ map opt_key opts) ->
  (forall p, progressMap s !! t = Some p -> mastered p = false) ->
  outcome_inv (render_cards t opts s).
Proof.
  revert s. induction opts as [|o opts IH]; intros s Hb Ht Hnd Hf; simpl.
  - rewrite app_nil_r in Hnd. apply inv_of_base; [done |].
    by apply (cards_ok_fresh _ t).
  - destruct (opt_data o) as [d|].
    + unfold random_index_s. destruct (random_index (length (images d)) (rng s)) as [i r'].
      apply IH; setters.
      * done.
      * intros c. rewrite elem_of_app, list_elem_of_singleton.
        intros [Hc | ->]; [by apply Ht | done].
      * rewrite map_app, <- app_assoc. done.
      * done.
    + apply inv_of_base; [done |]. apply (cards_ok_fresh _ t); [done | | done].
      by apply NoDup_app in Hnd as [? _].
Qed.

Lemma nth_pool_in (pool : list string) i :
  i < length pool -> nth i pool ""%string ∈ pool.
Proof. intros Hi. apply list_elem_of_In, nth_In, Hi. Qed.

Lemma inv_mark_seen s t p :
  inv s -> progressMap s !! t = Some p ->
  inv (set_progressMap s (<[t := mark_seen p]> (progressMap s))).
Proof.
  intros (I1 & I2 & I3 & Ht & Hk & Hf) Hp. unfold inv. setters.
  split; [| split; [done | split; [| split; [done | split; [done |]]]]].
  - intros k q. rewrite lookup_insert. case_decide; [intros [= <-] | apply I1].
    rewrite mark_seen_wf. by apply (I1 t).
  - intros k. rewrite lookup_insert. case_decide; [subst; intros _ | apply I3].
    apply I3. by rewrite Hp.
  - intros c q Hc Hkt Hch. rewrite lookup_insert. case_decide as E.
    + intros [= <-]. simpl. apply (Hf c p); [done | done | done |]. by rewrite <- E.
    + by apply Hf.
Qed.

(** *** Audio *)

(** The audio handlers change no progress record, no key and no card
    view (they only enable cards). *)
Definition same_view (s s' : AppState) : Prop :=
  progressMap s' = progressMap s /\ allKeys s' = allKeys s /\
  map card_view (cards s') = map card_view (cards s).

Lemma same_view_inv s s' : same_view s s' -> inv s -> inv s'.
Proof. intros (Hp & Ha & Hc). by apply inv_transfer. Qed.

Lemma same_view_trans s1 s2 s3 : same_view s1 s2 -> same_view s2 s3 -> same_view s1 s3.
Proof. intros (A1 & B1 & C1) (A2 & B2 & C2). split; [congruence | split; congruence]. Qed.

Lemma same_view_audio s jobs next done replay : same_view s (set_audio s jobs next done replay).
Proof. done. Qed.

Lemma same_view_fire j keep s : same_view s (fire j keep s).
Proof.
  unfold fire, run_callback. destruct (job_onEnd j); [| done].
  split; [done | split; [done |]]. setters. apply map_card_view_enable.
Qed.

Lemma same_view_playAudio t cb s : same_view s (playAudio t cb s).
Proof. done. Qed.

Lemma same_view_synthDone sp id res s : same_view s (synthDone sp id res s).
Proof.
  unfold synthDone. destruct (find_job id (audioJobs s)) as [j|]; [| done].
  destruct (job_phase j); try done.
  destruct res as [c|]; [destruct (String.eqb c "") |]; try done;
    destruct sp; try done; apply same_view_fire.
Qed.

Lemma same_view_playbackEnd id s : same_view s (playbackEnd id s).
Proof.
  unfold playbackEnd. destruct (find_job id (audioJobs s)) as [j|]; [| done].
  destruct (job_phase j); try done; apply same_view_fire.
Qed.

Lemma same_view_playRejected id s : same_view s (playRejected id s).
Proof.
  unfold playRejected. destruct (find_job id (audioJobs s)) as [j|]; [| done].
  destruct (job_phase j) as [| [] |]; try done.
  eapply same_view_trans; [apply same_view_audio | apply same_view_fire].
Qed.

Lemma same_view_replay s : same_view s (replay s).
Proof.
  unfold replay. destruct (replayEnabled s); [| done].
  destruct (currentQuestionKey s) as [k|]; [| done].
  destruct (String.eqb k ""); [done |]. by destruct (jsmap_get k (wordMap s)).
Qed.

(** *** The warm-up screen *)

(** The warm-up handlers touch neither the records, the keys nor the
    option cards of the drill. *)
Lemma same_view_playEffect effectFiles t s : same_view s (playEffect effectFiles t s).
Proof.
  unfold playEffect, random_index_s. destruct (effectFiles t =? 0); [done |].
  by destruct (random_index _ _).
Qed.

Lemma same_view_startWarmUp s : same_view s (startWarmUp s).
Proof.
  unfold startWarmUp, random_index_s. destruct (random_index 3 _) as [t r].
  by destruct (shuffleArray _ _).
Qed.

Lemma same_view_handleWarmUpSelection effectFiles pos s :
  same_view s (handleWarmUpSelection effectFiles pos s).
Proof.
  unfold handleWarmUpSelection. destruct (wu_order (warm s) !! pos); [| done].
  destruct (negb _); [done |].
  apply (same_view_trans _ (updateCharacter (position_pose "neutral" pos) s)); [done |].
  case_bool_decide; [| apply same_view_playEffect].
  destruct (effectFiles "posi"%string =? 0); [done |].
  eapply same_view_trans; [apply same_view_playEffect | done].
Qed.

Lemma same_view_warm_events s : forall f, f = warmStart \/ f = warmAudioEnd \/ f = warmEffectDone \/ f = warmTimer -> same_view s (f s).
Proof.
  intros f [-> | [-> | [-> | ->]]]; [done | done | |];
    [unfold warmEffectDone | unfold warmTimer]; by case_match.
Qed.

Lemma outcome_inv_then o (f : AppState -> AppState) :
  (forall s, same_view s (f s)) -> outcome_inv o ->
  outcome_inv (match o with Done s => Done (f s) | Crash s => Crash s | Hang => Hang end).
Proof. intros Hf. destruct o as [s|s|]; simpl; [| done | done]. apply same_view_inv, Hf. Qed.

Lemma nextQuestion_inv fuel s0 : inv s0 -> outcome_inv (nextQuestion fuel s0).
Proof.
  intros Hs0. unfold nextQuestion. cbv zeta.
  set (s := updateCharacter "idle" s0).
  assert (Hs : inv s) by (by eapply inv_transfer). clearbody s. clear Hs0.
  unfold refresh_pool.
  set (r := updateActivePool (sequence s) (progressMap s) (groupSize s)
              (currentGroupIndex s)).
  assert (Hact : forall k, k ∈ pr_pool r ->
            exists p, progressMap s !! k = Some p /\ mastered p = false).
  { intros k Hk. exact (updateActivePool_pool_progress _ _ _ _ k Hk). }
  set (s1 := set_pool s (pr_group r) (pr_pool r) (reloadRequested s || pr_complete r)).
  assert (Hs1 : inv s1) by (by eapply inv_transfer).
  change (activePool s1) with (pr_pool r).
  destruct (pr_pool r) as [|x xs] eqn:Hpool; [done |].
  set (s2 := set_question s1 (currentQuestionKey s1) (currentQuestionFailed s1) None).
  assert (Hs2 : inv s2) by (by eapply inv_transfer).
  unfold random_index_s.
  pose proof (random_index_lt (length (x :: xs)) (rng s2)) as Hi.
  destruct (random_index (length (x :: xs)) (rng s2)) as [i r1]. simpl in Hi.
  set (t := nth i (x :: xs) ""%string).
  set (s3 := set_question (set_rng s2 r1) (Some t) false None).
  assert (Hs3 : inv s3) by (by eapply inv_transfer).
  assert (Ht : t ∈ x :: xs) by (apply nth_pool_in; simpl; lia).
  destruct (Hact t Ht) as (p & Hp & Hnm).
  change (progressMap s3) with (progressMap s). rewrite Hp.
  set (s4 := set_progressMap s3 (<[t:=mark_seen p]> (progressMap s))).
  assert (Hs4 : inv s4) by (exact (inv_mark_seen s3 t p Hs3 Hp)).
  change (wordMap s4) with (wordMap s).
  destruct (jsmap_get t (wordMap s)) as [d|]; [| exact Hs4].
  change (allKeys s4) with (allKeys s).
  destruct (generateOptions (wordMap s) fuel (allKeys s) t (rng s4))
    as [[opts|] r'] eqn:Hg; [| done].
  destruct Hs4 as (I1 & I2 & I3 & _).
  assert (Hin : t ∈ allKeys s).
  { apply (I3 t).
    change (progressMap s4) with (<[t:=mark_seen p]> (progressMap s)).
    by rewrite lookup_insert_eq. }
  pose proof (generateOptions_NoDup (wordMap s) fuel (rng s4) r' (allKeys s) t opts Hg)
    as Hnd.
  apply (outcome_inv_then _ (playAudio (original d) EnableCards));
    [intros; apply same_view_playAudio |].
  apply render_cards_inv.
  - split; [exact I1 | split; [exact I2 | exact I3]].
  - intros c Hc. by apply not_elem_of_nil in Hc.
  - exact Hnd.
  - intros q.
    change (progressMap (set_cards (set_rng s4 r') []))
      with (<[t:=mark_seen p]> (progressMap s)).
    rewrite lookup_insert_eq. intros [= <-]. done.
Qed.

(** *** Answers *)

Lemma inv_playEffect effectFiles ty s : inv s -> inv (playEffect effectFiles ty s).
Proof.
  unfold playEffect, random_index_s. destruct (_ =? 0); [done |].
  destruct (random_index _ (rng s)). simpl. by apply inv_transfer with (s := s).
Qed.

Lemma posi_callback_inv effectFiles fuel s :
  inv s -> outcome_inv (posi_callback effectFiles fuel s).
Proof.
  intros Hs. unfold posi_callback, draw_s. destruct (draw (rng s)) as [u r'].
  apply nextQuestion_inv.
  assert (Hs1 : inv (set_rng s r')) by (by apply inv_transfer with (s := s)).
  destruct (below_03 u); [by apply inv_playEffect | done].
Qed.

Lemma play_posi_inv effectFiles fuel s :
  inv s -> outcome_inv (play_posi effectFiles fuel s).
Proof.
  intros Hs. unfold play_posi. destruct (_ =? 0); [by apply posi_callback_inv |].
  simpl. apply inv_transfer with (s := playEffect effectFiles "posi" s); try done.
  by apply inv_playEffect.
Qed.

Lemma cards_ok_check pm cs i c :
  cards_ok pm cs -> cs !! i = Some c -> cards_ok pm (<[i := check_card c]> cs).
Proof.
  intros (Ht & Hk & Hf) Hi.
  assert (Hc : c ∈ cs) by (apply list_elem_of_lookup; eauto).
  split; [| split].
  - intros c1 c2 H1 H2.
    apply list_elem_of_insert_inv in H1 as [-> | H1];
      apply list_elem_of_insert_inv in H2 as [-> | H2]; simpl; auto.
  - by rewrite (map_insert_same card_key cs i (check_card c) c Hi).
  - intros c' p H' Hkt Hch Hp.
    apply list_elem_of_insert_inv in H' as [-> | H']; [done |].
    by apply (Hf c' p).
Qed.

(** After the correct card is checked, no unchecked card is correct. *)
Lemma cards_ok_answer pm cs i c q :
  cards_ok pm cs -> cs !! i = Some c -> card_key c = card_target c ->
  cards_ok (<[card_target c := q]> pm) (<[i := check_card c]> cs).
Proof.
  intros Hok Hi Hkt.
  destruct (cards_ok_check pm _ _ _ Hok Hi) as (Ht' & Hk' & _).
  destruct Hok as (Ht & Hk & Hf).
  assert (Hc : c ∈ cs) by (apply list_elem_of_lookup; eauto).
  split; [done | split; [done |]].
  intros c' p H' Hkt' Hch Hp.
  apply list_elem_of_lookup in H' as [j Hj].
  assert (Hlt : i < length cs) by (by eapply lookup_lt_Some).
  destruct (decide (j = i)) as [-> | Hne].
  { rewrite list_lookup_insert_eq in Hj by done. injection Hj as <-. done. }
  rewrite list_lookup_insert_ne in Hj by done.
  assert (Hc' : c' ∈ cs) by (apply list_elem_of_lookup; eauto).
  rewrite lookup_insert_ne in Hp.
  - by apply (Hf c' p).
  - intros E. apply Hne. apply (NoDup_map_lookup_inj card_key cs j i c' c Hk Hj Hi).
    rewrite Hkt', (Ht c' c Hc' Hc). done.
Qed.

Lemma handleSelection_inv effectFiles fuel i s :
  inv s -> outcome_inv (handleSelection effectFiles fuel i s).
Proof.
  intros Hs. unfold handleSelection.
  destruct (cards s !! i) as [c|] eqn:Hc; [| exact Hs].
  destruct (card_checked c) eqn:Hch; [exact Hs |].
  pose proof Hs as (I1 & I2 & I3 & I4). cbv zeta. fields.
  assert (Hchk : inv (set_cards (updateCharacter (position_pose "_" i) s)
                        (<[i:=check_card c]> (cards s)))).
  { split; [done | split; [done | split; [done |]]]. by apply cards_ok_check. }
  destruct (String.eqb_spec (card_key c) (card_target c)) as [Hkt | Hkt].
  - destruct (progressMap s !! card_target c) as [p|] eqn:Hp; [| exact Hchk].
    assert (Hnm : mastered p = false).
    { destruct I4 as (_ & _ & Hf). apply (Hf c p); try done.
      - apply list_elem_of_lookup. eauto.
      - by rewrite Hkt. }
    apply play_posi_inv.
    set (s2 := set_progressMap (set_cards s (<[i:=check_card c]> (cards s)))
                 (<[card_target c := on_correct p (currentQuestionFailed s)]>
                    (progressMap s))).
    assert (Hs2 : inv s2).
    { unfold s2, inv. setters. split; [| split; [done | split]].
      - intros k q. rewrite lookup_insert. case_decide as E; [intros [= <-] | apply I1].
        apply on_correct_wf; [by apply (I1 (card_target c)) | done].
      - intros k. rewrite lookup_insert. case_decide; [subst; intros _ | apply I3].
        apply I3. by rewrite Hp.
      - by apply cards_ok_answer. }
    apply inv_transfer with (s := s2); try done.
    fields. apply map_card_view_disable.
  - apply inv_playEffect. by apply inv_transfer with (s := set_cards s (<[i:=check_card c]> (cards s))).
Qed.

(** *** Removal *)

Lemma inv_remove_key s key : inv s -> inv (remove_key s key).
Proof.
  intros (I1 & I2 & I3 & Ht & Hk & Hf). unfold inv. setters.
  rewrite js_remove_first.
  split; [| split; [| split; [| split; [done | split; [done |]]]]].
  - intros k p. rewrite lookup_delete. case_decide; [done | apply I1].
  - by apply NoDup_remove_first.
  - intros k. rewrite lookup_delete. case_decide as E; [by intros [] |].
    intros Hk'. apply elem_of_remove_first; [done | by apply I3].
  - intros c p Hc Hkt Hch. rewrite lookup_delete. case_decide; [done |].
    by apply Hf.
Qed.

Lemma removeCurrentWord_inv fuel s : inv s -> outcome_inv (removeCurrentWord fuel s).
Proof.
  intros Hs. unfold removeCurrentWord.
  destruct (currentQuestionKey s) as [key|]; [| exact Hs].
  destruct (String.eqb key ""); [exact Hs |].
  apply nextQuestion_inv. apply inv_transfer with (s := remove_key s key); try done.
  by apply inv_remove_key.
Qed.

(** *** Loading *)

Lemma fold_initial_lookup (sq : list string) (m : gmap string Progress) k p :
  fold_left (fun m k => <[k := initial_progress]> m) sq m !! k = Some p ->
  (p = initial_progress /\ k ∈ sq) \/ m !! k = Some p.
Proof.
  revert m. induction sq as [|x sq IH]; intros m H; simpl in *; [by right |].
  apply IH in H as [[-> Hin] | H]; [left; split; [done | by right] |].
  rewrite lookup_insert in H. case_decide; subst.
  - injection H as <-. left. split; [done | by left].
  - by right.
Qed.

Lemma inv_loaded s wm sq pm keys :
  NoDup keys ->
  (forall k p, pm !! k = Some p -> p = initial_progress /\ k ∈ keys) ->
  cards_ok ∅ (cards s) ->
  inv (set_catalog s wm sq pm keys).
Proof.
  intros Hnd Hpm (Ht & Hk & _). unfold inv. setters.
  split; [| split; [done | split; [| split; [done | split; [done |]]]]].
  - intros k p Hp. apply Hpm in Hp as [-> _]. apply initial_progress_wf.
  - intros k [p Hp]. by apply Hpm in Hp as [_ Hin].
  - intros c p _ _ _ Hp. by apply Hpm in Hp as [-> _].
Qed.

Lemma startGame_inv fuel s : inv s -> outcome_inv (startGame fuel s).
Proof.
  intros Hs. unfold startGame, refresh_pool. apply nextQuestion_inv.
  by apply inv_transfer with (s := s).
Qed.

Lemma loadData_inv manifest fetched s :
  inv s ->
  match loadData manifest fetched s with inl s' | inr s' => inv s' end.
Proof.
  intros Hs. unfold loadData.
  set (s2 := set_catalog s [] (sequence s) ∅ (allKeys s)).
  assert (Hc2 : cards_ok ∅ (cards s)).
  { destruct Hs as (_ & _ & _ & Ht & Hk & _). split; [done | split; [done |]].
    intros c p _ _ _ Hp. by rewrite lookup_empty in Hp. }
  assert (Hs2 : inv s2).
  { destruct Hs as (_ & I2 & _ & _). unfold s2, inv. setters.
    split; [| split; [done | split; [| done]]]; intros k; [intros p Hp | intros [p Hp]];
      by rewrite lookup_empty in Hp. }
  change (currentLang s2) with (currentLang s).
  destruct (currentLang s) as [lang|]; [| exact Hs2].
  destruct (langMap lang) as [cfg|], fetched as [text|]; try exact Hs2.
  change (wordMap s2) with (@nil (string * WordData)).
  change (progressMap s2) with (∅ : gmap string Progress).
  set (pr := parseScaleCSV lang (manifest (lang_package cfg)) text (lang_package cfg) []).
  assert (Hempty : forall k p, (∅ : gmap string Progress) !! k = Some p ->
                     p = initial_progress /\ k ∈ jsmap_keys (parsed_wordMap pr)).
  { intros k p Hp. by rewrite lookup_empty in Hp. }
  destruct (parsed_sequence pr) as [sq0|] eqn:Hsq.
  - destruct (parse_result_wf _ _ _ _ _ Hsq) as (Hnd & Hiff & _). cbn [fst snd] in Hnd, Hiff.
    fold pr in Hnd, Hiff. simpl default.
    destruct (jsmap_keys (parsed_wordMap pr)) as [|k0 ks] eqn:Hkeys.
    { by apply inv_loaded. }
    set (s3 := set_catalog s2 (parsed_wordMap pr) sq0 ∅ (k0 :: ks)).
    change (progressMap s3) with (∅ : gmap string Progress).
    destruct (shuffleArray sq0 (rng s3)) as [sq' r'].
    apply inv_transfer with
      (s := set_catalog s3 (wordMap s3) sq'
              (fold_left (fun m k => <[k := initial_progress]> m) sq0 ∅) (k0 :: ks));
      try done.
    apply inv_loaded; [done | | done].
    intros k p Hp. apply fold_initial_lookup in Hp as [[-> Hin] | Hp].
    + split; [done |]. by apply Hiff.
    + by rewrite lookup_empty in Hp.
  - assert (Hwm : parsed_wordMap pr = []).
    { unfold pr, parseScaleCSV in *. destruct (manifest (lang_package cfg)); [| done].
      match goal with
      | H : context [fold_left ?f ?l ?a] |- _ => destruct (fold_left f l a)
      end. done. }
    rewrite Hwm in Hempty |- *. simpl. by apply inv_loaded; [constructor | |].
Qed.

Lemma startLoading_inv manifest fuel fetched s :
  inv s -> outcome_inv (startLoading manifest fuel fetched s).
Proof.
  intros Hs. unfold startLoading.
  assert (Hs1 : inv (set_screen s LoadingScreen)) by (by apply inv_transfer with (s := s)).
  pose proof (loadData_inv manifest fetched _ Hs1) as Hl.
  destruct (loadData manifest fetched (set_screen s LoadingScreen)); [done |].
  by apply startGame_inv.
Qed.

(** *** The event loop *)

Lemma inv_declared r : inv (initial_state r).
Proof.
  unfold inv, initial_state. cbn.
  split; [| split; [constructor | split; [| split; [| split; [constructor |]]]]].
  - intros k p Hp. by rewrite lookup_empty in Hp.
  - intros k [p Hp]. by rewrite lookup_empty in Hp.
  - by intros c1 c2 ?%not_elem_of_nil.
  - by intros c p ?%not_elem_of_nil.
Qed.

Lemma inv_initial r : inv (page_load r).
Proof. apply (same_view_inv (initial_state r)); [apply same_view_startWarmUp | apply inv_declared]. Qed.

Lemma handle_inv manifest effectFiles speech fuel e s :
  inv s -> outcome_inv (handle manifest effectFiles speech fuel e s).
Proof.
  intros Hs. destruct e; cbn [handle outcome_inv].
  - case_match; [| done]. by apply (same_view_inv s); [apply same_view_warm_events; left |].
  - case_match; [| done]. by apply (same_view_inv s); [apply same_view_warm_events; right; left |].
  - case_match; [| done]. by apply (same_view_inv s); [apply same_view_handleWarmUpSelection |].
  - by apply (same_view_inv s); [apply same_view_warm_events; right; right; left |].
  - by apply (same_view_inv s); [apply same_view_warm_events; right; right; right |].
  - by apply inv_transfer with (s := s).
  - by apply startLoading_inv.
  - apply startLoading_inv. by apply inv_transfer with (s := s).
  - by apply handleSelection_inv.
  - destruct (pendingNext s =? 0); [done |].
    apply posi_callback_inv. by apply inv_transfer with (s := s).
  - apply (same_view_inv s); [apply same_view_synthDone | done].
  - apply (same_view_inv s); [apply same_view_playbackEnd | done].
  - apply (same_view_inv s); [apply same_view_playRejected | done].
  - apply (same_view_inv s); [apply same_view_replay | done].
  - by apply removeCurrentWord_inv.
  - case_bool_decide; [by apply inv_transfer with (s := s) | done].
  - destruct (on_game s); [by apply inv_transfer with (s := s) | done].
  - by apply inv_transfer with (s := s).
Qed.

Lemma step_inv manifest effectFiles speech fuel s e :
  inv s -> outcome_inv (step manifest effectFiles speech fuel s e).
Proof.
  intros Hs. unfold step, settle.
  pose proof (handle_inv manifest effectFiles speech fuel e s Hs) as Ho.
  destruct (handle manifest effectFiles speech fuel e s) as [s'|s'|]; simpl in *; try done;
    destruct (reloadRequested s'); try done; apply inv_initial.
Qed.

(** C2: Every reachable state of the session satisfies the invariant:
    progress records are well formed, [allKeys] is duplicate-free and
    covers the progress records, and the option cards are coherent and
    fresh.  This holds after JavaScript errors too. *)
Theorem reachable_inv manifest effectFiles speech fuel s :
  reachable manifest effectFiles speech fuel s -> inv s.
Proof.
  induction 1 as [r | s e s' _ IH Hst | s e s' _ IH Hst].
  - apply inv_initial.
  - pose proof (step_inv manifest effectFiles speech fuel s e IH) as Ho. by rewrite Hst in Ho.
  - pose proof (step_inv manifest effectFiles speech fuel s e IH) as Ho. by rewrite Hst in Ho.
Qed.

End Invariant.
