(* ===== verification/Behaviour.v ===== *)
(** * Behaviour: what the events of a running game do to the session

    Properties of the handlers of [Session] stated on whole states: the
    answer rules of [handleSelection] (the learning and testing phases of
    [src/script.js] lines 855-875), the accounting of [removeCurrentWord]
    (lines 378-417) in the progress bar (lines 908-976), the stall that
    follows the removal of the only word of the last window (from such a
    state no click, sound ending or removal ever draws a question again or
    signals completion, and the removed word's correct card raises a
    [TypeError]), and what a restart ([startLoading], lines 458-498)
    keeps of the session it replaces. *)

From S2P Require Import Prelude Random Mastery Scheduler Catalog Options Progress Session Invariant.
Import Mastery Scheduler Catalog Options ProgressBar Session Invariant.

Module Behaviour.



Section Run.
Context (manifest : string -> option PackageImages).
Context (effectFiles : string -> nat).
Context (speech : bool).
Context (fuel : nat).

(** A sequence of events, each handled to completion before the next;
    a [TypeError] ends the handler, not the page. *)
Fixpoint run_events (s : AppState) (es : list Event) : Outcome :=
  match es with
  | [] => Done s
  | e :: es' =>
      match step manifest effectFiles speech fuel s e with
      | Done s' | Crash s' => run_events s' es'
      | Hang => Hang
      end
  end.

Lemma run_events_reachable s es s' :
  reachable manifest effectFiles speech fuel s ->
  (run_events s es = Done s' \/ run_events s es = Crash s') ->
  reachable manifest effectFiles speech fuel s'.
Proof.
  revert s. induction es as [|e es IH]; intros s Hr Hrun; cbn [run_events] in Hrun.
  - destruct Hrun as [Hrun | Hrun]; [injection Hrun as <-; done | discriminate].
  - destruct (step manifest effectFiles speech fuel s e) as [s1|s1|] eqn:E;
      [| | by destruct Hrun]; apply (IH s1); try done.
    + by eapply reach_done.
    + by eapply reach_crash.
Qed.
End Run.

(** The events of a running game: a click on a card, the end of a sound
    effect, the browser's answers to [playAudio], the replay and removal
    buttons, the character's idle timer and a click elsewhere on the page. *)
Definition game_event (e : Event) : bool :=
  match e with
  | EvClick _ | EvEffectDone | EvSynthDone _ _ | EvPlaybackEnd _ | EvPlayRejected _
  | EvReplay | EvRemove | EvIdleTimer _ | EvBackgroundClick => true
  | _ => false
  end.

(** The game screen shows, the active pool is empty, no reload is
    pending, and the window pointer is at or past the end of the
    sequence. *)
Definition stalled (s : AppState) : Prop :=
  screen s = GameScreen /\ activePool s = [] /\ reloadRequested s = false /\
  length (sequence s) <= currentGroupIndex s * groupSize s.

(** *** Answers *)

(** The level after a correct answer as the spec states the rule: one
    more in the learning phase (level below 2); in the testing phase one
    more only on a perfect first try, else the same. *)
Definition spec_level (p : Progress) (failed : bool) : nat :=
  if level p <? 2 then S (level p)
  else if failed then level p else S (level p).

(** The progress bar recomputed from a state ([app.updateProgressBar()]). *)
Definition bar (s : AppState) : Display :=
  updateProgressBar (progressMap s) (sequence s) (deletedCount s).

Lemma on_correct_spec_level p f : level (on_correct p f) = spec_level p f.
Proof. rewrite on_correct_level. unfold spec_level. by destruct (level p <? 2), f. Qed.

(** [playEffect] only draws from the random source. *)
Lemma playEffect_set_rng effectFiles t s :
  playEffect effectFiles t s = set_rng s (rng (playEffect effectFiles t s)).
Proof.
  unfold playEffect, random_index_s.
  destruct (effectFiles t =? 0); [by destruct s | by destruct (random_index _ _)].
Qed.

Lemma handleSelection_wrong_fields effectFiles fuel i s c :
  cards s !! i = Some c -> card_checked c = false -> card_key c <> card_target c ->
  exists s1, handleSelection effectFiles fuel i s = Done s1 /\
    currentQuestionFailed s1 = true /\ progressMap s1 = progressMap s /\
    cards s1 = <[i := check_card c]> (cards s) /\
    activePool s1 = activePool s /\ currentQuestionKey s1 = currentQuestionKey s.
Proof.
  intros Hc Hch Hne. unfold handleSelection. rewrite Hc, Hch. cbv zeta. fields.
  apply String.eqb_neq in Hne. rewrite Hne.
  eexists. split; [reflexivity |]. rewrite playEffect_set_rng. fields. tauto.
Qed.

Lemma handleSelection_correct_fields effectFiles fuel i s c p :
  cards s !! i = Some c -> card_checked c = false -> card_key c = card_target c ->
  progressMap s !! card_target c = Some p -> effectFiles "posi"%string <> 0 ->
  exists s', handleSelection effectFiles fuel i s = Done s' /\
    progressMap s' =
      <[card_target c := on_correct p (currentQuestionFailed s)]> (progressMap s) /\
    display s' = updateProgressBar (progressMap s') (sequence s') (deletedCount s') /\
    cards s' = map disable_card (<[i := check_card c]> (cards s)) /\
    sequence s' = sequence s /\ deletedCount s' = deletedCount s /\
    treatCount s' = S (treatCount s) /\ pendingNext s' = S (pendingNext s).
Proof.
  intros Hc Hch Hkt Hp Hposi. unfold handleSelection. rewrite Hc, Hch. cbv zeta. fields.
  rewrite Hkt.
  rewrite String.eqb_refl, Hp. unfold play_posi.
  apply Nat.eqb_neq in Hposi. rewrite Hposi.
  eexists. split; [reflexivity |]. rewrite playEffect_set_rng. fields. tauto.
Qed.

(** C4: A correct first click on an unchecked card raises the word's level
    by one in the learning phase (level below 2) whatever happened
    before, and in the testing phase only when no wrong answer preceded
    it in this presentation; the seen count and every other word's record
    stay, the progress bar is recomputed from the new records, every card
    is disabled, one treat is counted, and the next question waits for
    the end of the [posi] effect. *)
Theorem handleSelection_correct effectFiles fuel i s c p :
  cards s !! i = Some c -> card_checked c = false -> card_key c = card_target c ->
  progressMap s !! card_target c = Some p -> effectFiles "posi"%string <> 0 ->
  exists s' p', handleSelection effectFiles fuel i s = Done s' /\
    progressMap s' !! card_target c = Some p' /\
    level p' = spec_level p (currentQuestionFailed s) /\
    seenCount p' = seenCount p /\
    (forall k, k <> card_target c -> progressMap s' !! k = progressMap s !! k) /\
    display s' = bar s' /\
    Forall (fun c' => card_disabled c' = true) (cards s') /\
    treatCount s' = S (treatCount s) /\ pendingNext s' = S (pendingNext s).
Proof.
  intros Hc Hch Hkt Hp Hposi.
  destruct (handleSelection_correct_fields effectFiles fuel i s c p Hc Hch Hkt Hp Hposi)
    as (s' & Hs' & Hpm & Hd & Hcs & Hsq & Hdc & Ht & Hn).
  exists s', (on_correct p (currentQuestionFailed s)). rewrite Hpm.
  split; [done |]. split; [apply lookup_insert_eq |].
  split; [apply on_correct_spec_level |]. split; [apply on_correct_seen |].
  split; [intros k Hk; by apply lookup_insert_ne |].
  split; [unfold bar; by rewrite Hd, Hpm |].
  split; [| done]. rewrite Hcs, Forall_map. by apply Forall_true.
Qed.

(** C5: A wrong click marks the presentation as failed, checks the card
    and leaves every progress record as it was; a correct click after it
    still advances a word of the learning phase but leaves a word of the
    testing phase (level 2 or more) at its level. *)
Theorem wrong_then_correct effectFiles fuel s i j ci cj p :
  cards s !! i = Some ci -> card_checked ci = false -> card_key ci <> card_target ci ->
  cards s !! j = Some cj -> i <> j -> card_checked cj = false ->
  card_key cj = card_target cj -> progressMap s !! card_target cj = Some p ->
  effectFiles "posi"%string <> 0 ->
  exists s1 s2 p', handleSelection effectFiles fuel i s = Done s1 /\
    currentQuestionFailed s1 = true /\ progressMap s1 = progressMap s /\
    handleSelection effectFiles fuel j s1 = Done s2 /\
    progressMap s2 !! card_target cj = Some p' /\ level p' = spec_level p true.
Proof.
  intros Hci Hchi Hwi Hcj Hij Hchj Hkj Hp Hposi.
  destruct (handleSelection_wrong_fields effectFiles fuel i s ci Hci Hchi Hwi)
    as (s1 & Hs1 & Hf1 & Hpm1 & Hcs1 & _).
  assert (Hcj1 : cards s1 !! j = Some cj)
    by (rewrite Hcs1, list_lookup_insert_ne by done; exact Hcj).
  assert (Hp1 : progressMap s1 !! card_target cj = Some p) by (by rewrite Hpm1).
  destruct (handleSelection_correct_fields effectFiles fuel j s1 cj p Hcj1 Hchj Hkj Hp1 Hposi)
    as (s2 & Hs2 & Hpm2 & _).
  exists s1, s2, (on_correct p true). split; [done |]. split; [done |].
  split; [done |]. split; [done |]. rewrite Hpm2, lookup_insert_eq, Hf1.
  split; [done | apply on_correct_spec_level].
Qed.

(** *** Removal *)

(** What [nextQuestion] leaves of the progress bar, the removals and the
    pending [posi] callbacks. *)
Definition same_display (s s' : AppState) : Prop :=
  display s' = display s /\ sequence s' = sequence s /\ deletedCount s' = deletedCount s /\
  pendingNext s' = pendingNext s.

Definition outcome_from (s : AppState) (o : Outcome) : Prop :=
  match o with
  | Done s' | Crash s' => same_display s s'
  | Hang => True
  end.

Lemma render_cards_same s0 t opts s :
  same_display s0 s -> outcome_from s0 (render_cards t opts s).
Proof.
  revert s. induction opts as [|o opts IH]; intros s Hs; cbn [render_cards]; [done |].
  destruct (opt_data o) as [d|]; [| done].
  unfold random_index_s. destruct (random_index _ (rng s)) as [i r].
  apply IH. unfold same_display in *. fields. done.
Qed.

Lemma outcome_from_then s0 o (f : AppState -> AppState) :
  (forall s, same_display s (f s)) -> outcome_from s0 o ->
  outcome_from s0 (match o with Done s => Done (f s) | Crash s => Crash s | Hang => Hang end).
Proof.
  intros Hf. destruct o as [s|s|]; [| done | done]. cbn [outcome_from].
  intros (A & B & C & D). destruct (Hf s) as (A' & B' & C' & D').
  repeat split; congruence.
Qed.

Lemma nextQuestion_same fuel s : outcome_from s (nextQuestion fuel s).
Proof.
  unfold nextQuestion, refresh_pool.
  assert (Hs : forall s', same_display s s' -> outcome_from s (Done s')) by done.
  destruct (updateActivePool _ _ _ _) as [g pool c]. fields.
  destruct pool as [|x xs]; [by apply Hs |].
  unfold random_index_s.
  match goal with |- context [random_index ?n ?r] => destruct (random_index n r) as [i r1] end.
  fields. destruct (progressMap s !! _) as [p|]; [| done].
  destruct (jsmap_get _ (wordMap s)) as [d|]; [| done].
  match goal with
  | |- context [generateOptions ?w ?f ?a ?t ?r] =>
      destruct (generateOptions w f a t r) as [[opts|] r']; [| done]
  end.
  apply (outcome_from_then _ _ (playAudio (original d) EnableCards)); [done |].
  apply render_cards_same. done.
Qed.

Lemma removeCurrentWord_display fuel s k s' :
  currentQuestionKey s = Some k -> k <> ""%string ->
  (removeCurrentWord fuel s = Done s' \/ removeCurrentWord fuel s = Crash s') ->
  display s' = updateProgressBar (delete k (progressMap s)) (js_remove (sequence s) k)
                 (S (deletedCount s)) /\
  sequence s' = js_remove (sequence s) k /\ deletedCount s' = S (deletedCount s).
Proof.
  intros Hk Hne Hr. unfold removeCurrentWord in Hr. rewrite Hk in Hr.
  apply String.eqb_neq in Hne. rewrite Hne in Hr.
  pose proof (nextQuestion_same fuel (refresh_display (remove_key s k))) as Hn.
  destruct Hr as [Hr | Hr]; rewrite Hr in Hn; unfold same_display in Hn; fields;
    destruct Hn as (-> & -> & -> & _); done.
Qed.

(** C12: Removing the word on screen, when it is in the sequence with a
    progress record, leaves the displayed total unchanged and adds one
    to the displayed mastered count if the word was not mastered (none
    if it was); for a bar of at most 100 words the percentage does not
    decrease.  This matches the numeric scenario of the spec (10 words,
    none mastered: 1/10), not its clause that both counts grow. *)
Theorem removeCurrentWord_progress fuel s k p s' :
  currentQuestionKey s = Some k -> k <> ""%string -> k ∈ sequence s ->
  progressMap s !! k = Some p ->
  (removeCurrentWord fuel s = Done s' \/ removeCurrentWord fuel s = Crash s') ->
  shown_total (display s') = shown_total (bar s) /\
  shown_mastered (display s') = shown_mastered (bar s) + (if mastered p then 0 else 1) /\
  (shown_mastered (bar s) <= shown_total (bar s) <= 100 ->
   (shown_percentage (bar s) <= shown_percentage (display s'))%Z).
Proof.
  intros Hk Hne Hin Hp Hr.
  destruct (removeCurrentWord_display fuel s k s' Hk Hne Hr) as (Hd & _ & _).
  rewrite Hd. unfold bar, updateProgressBar.
  cbn [shown_total shown_mastered shown_percentage].
  rewrite js_remove_first, length_remove_first by done.
  rewrite (masteredCount_delete (progressMap s) k), Hp.
  assert (0 < length (sequence s))
    by (destruct (sequence s); [by apply not_elem_of_nil in Hin | simpl; lia]).
  assert (Ht : pred (length (sequence s)) + S (deletedCount s) =
               length (sequence s) + deletedCount s) by lia.
  rewrite Ht. split; [done |].
  destruct (mastered p); (split; [lia |]); intros Hb.
  - replace (1 + masteredCount (delete k (progressMap s)) + deletedCount s)
      with (masteredCount (delete k (progressMap s)) + S (deletedCount s)) by lia.
    lia.
  - replace (masteredCount (delete k (progressMap s)) + S (deletedCount s))
      with (S (0 + masteredCount (delete k (progressMap s)) + deletedCount s)) by lia.
    apply (percentage_table_ok_spec 100); [apply percentage_table_100 | lia | lia].
Qed.

(** C23: Removing a word that is no longer in the sequence and has no
    progress record (the word on screen after an earlier removal, whose
    question was not replaced) is not a no-op: the removal count grows
    and the progress bar counts the word again, in both its mastered
    count and its total. *)
Theorem removeCurrentWord_stale_key fuel s k s' :
  currentQuestionKey s = Some k -> k <> ""%string -> k ∉ sequence s ->
  progressMap s !! k = None ->
  (removeCurrentWord fuel s = Done s' \/ removeCurrentWord fuel s = Crash s') ->
  deletedCount s' = S (deletedCount s) /\ sequence s' = sequence s /\
  shown_total (display s') = S (shown_total (bar s)) /\
  shown_mastered (display s') = S (shown_mastered (bar s)).
Proof.
  intros Hk Hne Hin Hp Hr.
  destruct (removeCurrentWord_display fuel s k s' Hk Hne Hr) as (Hd & Hsq & Hdc).
  rewrite js_remove_first, remove_first_notin in Hd, Hsq by done.
  rewrite Hd. unfold bar, updateProgressBar. cbn [shown_total shown_mastered].
  rewrite (masteredCount_delete (progressMap s) k), Hp.
  split; [done | split; [done | lia]].
Qed.

(** *** The stall is preserved by every game event *)

Lemma stalled_transfer s s' :
  screen s' = screen s -> activePool s' = activePool s ->
  reloadRequested s' = reloadRequested s ->
  length (sequence s') <= length (sequence s) ->
  currentGroupIndex s' = currentGroupIndex s -> groupSize s' = groupSize s ->
  stalled s -> stalled s'.
Proof.
  intros E1 E2 E3 E4 E5 E6 (H1 & H2 & H3 & H4). unfold stalled.
  rewrite E1, E2, E3, E5, E6. split; [done | split; [done | split; [done | lia]]].
Qed.

(** [stalled] of a chain of field updates of a stalled state. *)
Ltac stalled_setters Hs :=
  refine (stalled_transfer _ _ _ _ _ _ _ _ Hs); fields;
  try match goal with
      | |- _ = _ => reflexivity
      | |- (_ <= _)%nat => lia
      end.

Lemma stalled_sched s s' : sched_view s' = sched_view s -> stalled s -> stalled s'.
Proof.
  intros E Hs. unfold sched_view in E. injection E; intros.
  apply (stalled_transfer s s'); try congruence.
  match goal with H : sequence s' = sequence s |- _ => rewrite H end. lia.
Qed.

Lemma stalled_playEffect effectFiles t s : stalled s -> stalled (playEffect effectFiles t s).
Proof.
  intros Hs. unfold playEffect, random_index_s.
  destruct (effectFiles t =? 0); [done |].
  destruct (random_index _ (rng s)) as [i r]. simpl. stalled_setters Hs.
Qed.

Lemma stalled_refresh_pool s :
  length (sequence s) <= currentGroupIndex s * groupSize s ->
  refresh_pool s = set_pool s (currentGroupIndex s) [] (reloadRequested s).
Proof.
  intros Hlen. unfold refresh_pool. rewrite updateActivePool_past_end by done.
  simpl. by rewrite orb_false_r.
Qed.

(** [nextQuestion] with the window pointer at or past the end of the
    sequence draws nothing: the game stays on screen with an empty pool,
    its cards and records as they were. *)
Lemma nextQuestion_past_end fuel s :
  screen s = GameScreen -> reloadRequested s = false ->
  length (sequence s) <= currentGroupIndex s * groupSize s ->
  exists s', nextQuestion fuel s = Done s' /\ stalled s' /\
             cards s' = cards s /\ progressMap s' = progressMap s.
Proof.
  intros Hsc Hrl Hlen. unfold nextQuestion.
  rewrite stalled_refresh_pool by (by fields). eexists. split; [reflexivity |].
  unfold stalled. fields. rewrite Hrl. tauto.
Qed.

Lemma nextQuestion_stalled fuel s :
  stalled s -> exists s', nextQuestion fuel s = Done s' /\ stalled s'.
Proof.
  intros (Hsc & _ & Hrl & Hlen).
  destruct (nextQuestion_past_end fuel s Hsc Hrl Hlen) as (s' & Hn & Hs' & _). eauto.
Qed.

(** Removing the only word of the last window: the sequence ends before
    the window pointer, and no question follows. *)
Lemma removeCurrentWord_past_end fuel s k :
  screen s = GameScreen -> reloadRequested s = false ->
  currentQuestionKey s = Some k -> k <> ""%string -> k ∈ sequence s ->
  length (sequence s) <= currentGroupIndex s * groupSize s + 1 ->
  exists s', removeCurrentWord fuel s = Done s' /\ stalled s' /\
             cards s' = cards s /\ progressMap s' = delete k (progressMap s).
Proof.
  intros Hsc Hrl Hk Hne Hin Hlen. unfold removeCurrentWord. rewrite Hk.
  apply String.eqb_neq in Hne. rewrite Hne.
  apply nextQuestion_past_end; fields; [done | done |].
  rewrite js_remove_first, length_remove_first by done. lia.
Qed.

Lemma posi_callback_stalled effectFiles fuel s :
  stalled s -> exists s', posi_callback effectFiles fuel s = Done s' /\ stalled s'.
Proof.
  intros Hs. unfold posi_callback, draw_s.
  destruct (draw (rng s)) as [u r]. apply nextQuestion_stalled.
  assert (Hs1 : stalled (set_rng s r)) by stalled_setters Hs.
  destruct (below_03 u); [by apply stalled_playEffect | done].
Qed.

(** The outcome of a handler run from a stalled state is stalled. *)
Definition outcome_stalled (o : Outcome) : Prop :=
  match o with
  | Done s | Crash s => stalled s
  | Hang => False
  end.

Lemma outcome_stalled_exists o :
  (exists s', o = Done s' /\ stalled s') -> outcome_stalled o.
Proof. by intros (s' & -> & Hs'). Qed.

Lemma handleSelection_stalled effectFiles fuel i s :
  stalled s -> outcome_stalled (handleSelection effectFiles fuel i s).
Proof.
  intros Hs. unfold handleSelection.
  destruct (cards s !! i) as [c|]; [| exact Hs].
  destruct (card_checked c); [exact Hs |]. cbv zeta. fields.
  destruct (String.eqb (card_key c) (card_target c)).
  - destruct (progressMap s !! card_target c) as [p|];
      [| cbn [outcome_stalled]; stalled_setters Hs].
    unfold play_posi. destruct (effectFiles "posi"%string =? 0).
    + apply outcome_stalled_exists, posi_callback_stalled. stalled_setters Hs.
    + cbn [outcome_stalled].
      match goal with
      | |- context [playEffect _ _ ?x] =>
          assert (Hp : stalled (playEffect effectFiles "posi" x))
            by (apply stalled_playEffect; stalled_setters Hs)
      end.
      stalled_setters Hp.
  - cbn [outcome_stalled]. apply stalled_playEffect. stalled_setters Hs.
Qed.

Lemma removeCurrentWord_stalled fuel s :
  stalled s -> outcome_stalled (removeCurrentWord fuel s).
Proof.
  intros Hs. unfold removeCurrentWord.
  destruct (currentQuestionKey s) as [key|]; [| exact Hs].
  destruct (String.eqb key ""); [exact Hs |].
  apply outcome_stalled_exists, nextQuestion_stalled.
  stalled_setters Hs. rewrite js_remove_first. apply length_remove_first_le.
Qed.

Lemma step_stalled manifest effectFiles speech fuel s e :
  stalled s -> game_event e = true ->
  outcome_stalled (step manifest effectFiles speech fuel s e).
Proof.
  intros Hs He. unfold step.
  assert (Hh : outcome_stalled (handle manifest effectFiles speech fuel e s)).
  { destruct e; try discriminate; cbn [handle].
    - by apply handleSelection_stalled.
    - destruct (pendingNext s =? 0); [exact Hs |].
      apply outcome_stalled_exists, posi_callback_stalled. stalled_setters Hs.
    - apply (stalled_sched s); [apply synthDone_sched | done].
    - apply (stalled_sched s); [apply playbackEnd_sched | done].
    - apply (stalled_sched s); [apply playRejected_sched | done].
    - apply (stalled_sched s); [apply replay_sched | done].
    - by apply removeCurrentWord_stalled.
    - apply (stalled_sched s); [apply idleTimer_sched | done].
    - apply (stalled_sched s); [apply backgroundClick_sched | done]. }
  destruct (handle manifest effectFiles speech fuel e s) as [s'|s'|]; [| | done];
    cbn [settle outcome_stalled] in *; by rewrite (proj1 (proj2 (proj2 Hh))).
Qed.

(** C21: A stalled session stays stalled: from a state that shows the game
    with an empty active pool, no pending reload and the window pointer at
    or past the end of the sequence, every sequence of clicks, sound
    endings, TTS answers, replays, removals and character events ends in
    such a state.  No question is drawn
    again, and the completion reload never happens. *)
Theorem stalled_forever manifest effectFiles speech fuel s es :
  stalled s -> forallb game_event es = true ->
  outcome_stalled (run_events manifest effectFiles speech fuel s es).
Proof.
  revert s. induction es as [|e es IH]; intros s Hs Hes; [exact Hs |].
  apply andb_prop in Hes as [He Hes]. simpl.
  pose proof (step_stalled manifest effectFiles speech fuel s e Hs He) as Ho.
  destruct (step manifest effectFiles speech fuel s e) as [s'|s'|]; [| | done]; by apply IH.
Qed.

(** C22: A removal can stall the session: removing the word on screen
    when it is the only word of the last window (the sequence holds at
    most one word from the window pointer on) leaves the game on screen
    with an empty active pool and no completion, in the state that
    [stalled_forever] never leaves.  [updateActivePool] neither advances
    nor completes on the empty window that is left. *)
Theorem removal_enters_stall fuel s k :
  screen s = GameScreen -> reloadRequested s = false ->
  currentQuestionKey s = Some k -> k <> ""%string -> k ∈ sequence s ->
  length (sequence s) <= currentGroupIndex s * groupSize s + 1 ->
  exists s', removeCurrentWord fuel s = Done s' /\ stalled s'.
Proof.
  intros Hsc Hrl Hk Hne Hin Hlen.
  destruct (removeCurrentWord_past_end fuel s k Hsc Hrl Hk Hne Hin Hlen) as (s' & Hr & Hs & _).
  eauto.
Qed.

(** C25: After a removal that stalls the session the cards of the removed
    word stay on the page (only the next question would replace them),
    and a click on its correct card reads the deleted progress record:
    the handler stops with a [TypeError] ([progress.level] of
    [undefined]). *)
Theorem stale_card_crash effectFiles fuel s k i c :
  screen s = GameScreen -> reloadRequested s = false ->
  currentQuestionKey s = Some k -> k <> ""%string -> k ∈ sequence s ->
  length (sequence s) <= currentGroupIndex s * groupSize s + 1 ->
  cards s !! i = Some c -> card_checked c = false -> card_key c = k -> card_target c = k ->
  exists s' s'', removeCurrentWord fuel s = Done s' /\ cards s' !! i = Some c /\
                 handleSelection effectFiles fuel i s' = Crash s''.
Proof.
  intros Hsc Hrl Hk Hne Hin Hlen Hc Hch Hkey Htg.
  destruct (removeCurrentWord_past_end fuel s k Hsc Hrl Hk Hne Hin Hlen)
    as (s' & Hr & _ & Hcs & Hpm).
  exists s'. unfold handleSelection. rewrite Hcs, Hc, Hch, Hkey, Htg, String.eqb_refl.
  cbv zeta. fields. rewrite Hpm, lookup_delete_eq. eauto.
Qed.

(** *** A restart *)

(** What [loadData] leaves of the removal count, the pending [posi]
    callbacks and the screen, whether it throws or not. *)
Lemma loadData_counters manifest fetched s :
  match loadData manifest fetched s with
  | inl s' => deletedCount s' = deletedCount s /\ pendingNext s' = pendingNext s /\
              screen s' = screen s
  | inr s' => deletedCount s' = deletedCount s /\ pendingNext s' = pendingNext s
  end.
Proof.
  unfold loadData. fields. destruct (currentLang s) as [lang|]; [| done].
  destruct (langMap lang) as [cfg|], fetched as [text|]; try done.
  fields. destruct (jsmap_keys _); [done |].
  match goal with |- context [shuffleArray ?a ?r] => destruct (shuffleArray a r) end.
  done.
Qed.

(** C26: A restart ([startLoading], from the restart button of the settings
    modal or a language confirmed there) resets neither the removal count
    nor the pending [posi] callbacks of the session it replaces: the new
    session's bar counts the earlier removals as done words in both its
    counts, and a [posi] sound still playing from the old session will run
    [nextQuestion] in the new one.  This holds for every outcome, a
    [TypeError] included. *)
Theorem startLoading_keeps_counters manifest fuel fetched s s' :
  (startLoading manifest fuel fetched s = Done s' \/
   startLoading manifest fuel fetched s = Crash s') ->
  deletedCount s' = deletedCount s /\ pendingNext s' = pendingNext s /\
  (screen s' = GameScreen ->
   shown_total (display s') = length (sequence s') + deletedCount s /\
   deletedCount s <= shown_mastered (display s')).
Proof.
  unfold startLoading. pose proof (loadData_counters manifest fetched (set_screen s LoadingScreen)) as Hl.
  destruct (loadData manifest fetched (set_screen s LoadingScreen)) as [s1|s1]; intros Hst.
  - destruct Hst as [Hst | Hst]; [injection Hst as <- | discriminate].
    destruct Hl as (Hd & Hp & Hsc). fields. split; [done | split; [done |]]. congruence.
  - destruct Hl as (Hd & Hp). unfold startGame in Hst. fields.
    match goal with Hst : context [nextQuestion fuel ?x] |- _ =>
      pose proof (nextQuestion_same fuel x) as Hn; set (s2 := x) in * end.
    destruct Hst as [Hst | Hst]; rewrite Hst in Hn; cbn [outcome_from] in Hn;
      destruct Hn as (Hdisp & Hsq & Hdc & Hpn); unfold s2, refresh_pool in *; fields;
      rewrite ?Hdisp, ?Hsq, ?Hdc, ?Hpn, ?Hd, ?Hp; cbn [updateProgressBar shown_total shown_mastered];
      (split; [done | split; [done | intros _; split; [done | lia]]]).
Qed.
End Behaviour.
