(* ===== verification/Character.v ===== *)
(** * Character: the pose of the character and its idle timer

    [updateCharacter] (lines 419-446 of [src/script.js]) shows a pose and
    keeps at most one timer that puts the character back to [idle]: it
    clears the pending timer and, for every pose but [idle], sets a new
    one.  It is called by [nextQuestion] ([idle]), [handleSelection] and
    [handleWarmUpSelection] (the clicked position), the window's click
    listener ([neutral]), the character picker and the timer itself
    ([idle]).  This file proves that in every reachable state the
    character is [idle] exactly when no timer is pending, so that a
    character in any other pose is always put back to [idle] by its
    timer. *)

From S2P Require Import Prelude Random Mastery Scheduler Catalog Options Progress Session Behaviour.
Import Scheduler Catalog Options Session Behaviour.

Module Character.

(** The character shows [idle] and no timer is pending, or it shows
    another pose and the pending timer is one already handed out. *)
Definition char_ok (c : Character) : bool :=
  match ch_idleTimer c with
  | None => String.eqb (ch_pose c) "idle"
  | Some t => negb (String.eqb (ch_pose c) "idle") && (t <? ch_nextTimer c)
  end.

Definition chr_ok (s : AppState) : Prop := char_ok (chr s) = true.

Definition outcome_chr_ok (o : Outcome) : Prop :=
  match o with
  | Done s | Crash s => chr_ok s
  | Hang => True
  end.

(** *** [updateCharacter] establishes it *)

Lemma update_char_ok t c : char_ok (update_char t c) = true.
Proof.
  unfold update_char, char_ok. destruct (String.eqb_spec t "idle") as [-> | Hne]; [done |].
  cbn [ch_idleTimer ch_pose ch_nextTimer]. apply andb_true_intro. split.
  - by apply negb_true_iff, String.eqb_neq.
  - apply Nat.ltb_lt. lia.
Qed.

Lemma updateCharacter_ok t s : chr_ok (updateCharacter t s).
Proof. apply update_char_ok. Qed.

(** [chr_ok] of a chain of updates that end in [updateCharacter] or keep
    the character. *)
Ltac chr_setters :=
  unfold chr_ok in *; fields;
  first [apply update_char_ok | assumption].

Lemma outcome_chr_ok_then o (f : AppState -> AppState) :
  (forall s, chr (f s) = chr s) -> outcome_chr_ok o ->
  outcome_chr_ok (match o with Done s => Done (f s) | Crash s => Crash s | Hang => Hang end).
Proof. intros Hf. destruct o as [s|s|]; [| done | done]. unfold outcome_chr_ok, chr_ok. by rewrite Hf. Qed.

Lemma playEffect_chr effectFiles t s : chr (playEffect effectFiles t s) = chr s.
Proof. by rewrite playEffect_set_rng. Qed.

(** *** The handlers *)

Lemma render_cards_chr t opts s : chr_ok s -> outcome_chr_ok (render_cards t opts s).
Proof.
  revert s. induction opts as [|o opts IH]; intros s Hs; cbn [render_cards]; [done |].
  destruct (opt_data o) as [d|]; [| done].
  unfold random_index_s. destruct (random_index _ (rng s)) as [i r].
  apply IH. chr_setters.
Qed.

(** [nextQuestion] starts with [updateCharacter('idle')]. *)
Lemma nextQuestion_chr fuel s : outcome_chr_ok (nextQuestion fuel s).
Proof.
  unfold nextQuestion, refresh_pool. cbv zeta. fields.
  destruct (pr_pool _) as [|x xs]; [chr_setters |].
  unfold random_index_s.
  match goal with |- context [random_index ?n ?r] => destruct (random_index n r) as [i r1] end.
  fields. destruct (progressMap s !! _) as [p|]; [| chr_setters].
  destruct (jsmap_get _ (wordMap s)) as [d|]; [| chr_setters].
  match goal with
  | |- context [generateOptions ?w ?f ?a ?t ?r] =>
      destruct (generateOptions w f a t r) as [[opts|] r']; [| done]
  end.
  apply (outcome_chr_ok_then _ (playAudio (original d) EnableCards)); [done |].
  apply render_cards_chr. chr_setters.
Qed.

Lemma posi_callback_chr effectFiles fuel s : outcome_chr_ok (posi_callback effectFiles fuel s).
Proof.
  unfold posi_callback, draw_s. destruct (draw (rng s)) as [u r]. apply nextQuestion_chr.
Qed.

Lemma play_posi_chr effectFiles fuel s : chr_ok s -> outcome_chr_ok (play_posi effectFiles fuel s).
Proof.
  intros Hs. unfold play_posi. destruct (effectFiles "posi"%string =? 0);
    [apply posi_callback_chr |]. unfold outcome_chr_ok, chr_ok. fields.
  by rewrite playEffect_chr.
Qed.

Lemma handleSelection_chr effectFiles fuel i s :
  chr_ok s -> outcome_chr_ok (handleSelection effectFiles fuel i s).
Proof.
  intros Hs. unfold handleSelection.
  destruct (cards s !! i) as [c|]; [| exact Hs].
  destruct (card_checked c); [exact Hs |]. cbv zeta.
  destruct (String.eqb (card_key c) (card_target c)).
  - destruct (progressMap _ !! card_target c) as [p|]; [| cbn [outcome_chr_ok]; chr_setters].
    apply play_posi_chr. chr_setters.
  - cbn [outcome_chr_ok]. unfold chr_ok. rewrite playEffect_chr. chr_setters.
Qed.

Lemma removeCurrentWord_chr fuel s : chr_ok s -> outcome_chr_ok (removeCurrentWord fuel s).
Proof.
  intros Hs. unfold removeCurrentWord.
  destruct (currentQuestionKey s) as [key|]; [| exact Hs].
  destruct (String.eqb key ""); [exact Hs | apply nextQuestion_chr].
Qed.

Lemma startLoading_chr manifest fuel fetched s :
  chr_ok s -> outcome_chr_ok (startLoading manifest fuel fetched s).
Proof.
  intros Hs. unfold startLoading.
  assert (Hl : match loadData manifest fetched (set_screen s LoadingScreen) with
               | inl s' | inr s' => chr s' = chr s
               end).
  { unfold loadData. fields. destruct (currentLang s) as [lang|]; [| done].
    destruct (langMap lang) as [cfg|], fetched as [text|]; try done.
    fields. destruct (jsmap_keys _); [done |].
    match goal with |- context [shuffleArray ?a ?r] => destruct (shuffleArray a r) end.
    done. }
  destruct (loadData manifest fetched (set_screen s LoadingScreen)) as [s'|s'].
  - cbn [outcome_chr_ok]. unfold chr_ok. by rewrite Hl.
  - unfold startGame. apply nextQuestion_chr.
Qed.

Lemma handleWarmUpSelection_chr effectFiles pos s :
  chr_ok s -> chr_ok (handleWarmUpSelection effectFiles pos s).
Proof.
  intros Hs. unfold handleWarmUpSelection.
  destruct (wu_order (warm s) !! pos); [| exact Hs].
  destruct (negb _); [exact Hs |]. cbv zeta.
  case_bool_decide; [destruct (effectFiles "posi"%string =? 0) |]; unfold chr_ok; fields;
    rewrite ?playEffect_chr; fields; apply update_char_ok.
Qed.

(** The audio handlers leave the character. *)
Lemma fire_chr j keep s : chr (fire j keep s) = chr s.
Proof. unfold fire, run_callback. by destruct (job_onEnd j). Qed.

Lemma synthDone_chr speech id res s : chr (synthDone speech id res s) = chr s.
Proof.
  unfold synthDone. destruct (find_job id (audioJobs s)) as [j|]; [| done].
  destruct (job_phase j); try done.
  destruct res as [c|]; [destruct (String.eqb c "") |]; destruct speech; try done;
    apply fire_chr.
Qed.

Lemma playbackEnd_chr id s : chr (playbackEnd id s) = chr s.
Proof.
  unfold playbackEnd. destruct (find_job id (audioJobs s)) as [j|]; [| done].
  destruct (job_phase j); try done; apply fire_chr.
Qed.

Lemma playRejected_chr id s : chr (playRejected id s) = chr s.
Proof.
  unfold playRejected. destruct (find_job id (audioJobs s)) as [j|]; [| done].
  destruct (job_phase j) as [| [] |]; try done. by rewrite fire_chr.
Qed.

Lemma replay_chr s : chr (replay s) = chr s.
Proof.
  unfold replay. destruct (replayEnabled s); [| done].
  destruct (currentQuestionKey s) as [k|]; [| done].
  destruct (String.eqb k ""); [done |]. by destruct (jsmap_get k (wordMap s)).
Qed.

(** *** The event loop *)

Lemma page_load_chr_eq r : chr (page_load r) = mkChar "1" "idle" None 1.
Proof.
  unfold page_load, startWarmUp, random_index_s.
  destruct (random_index 3 _) as [t r1].
  match goal with |- context [shuffleArray ?a ?r0] => destruct (shuffleArray a r0) end.
  done.
Qed.

Lemma page_load_chr r : chr_ok (page_load r).
Proof. unfold chr_ok. by rewrite page_load_chr_eq. Qed.

Section Loop.
Context (manifest : string -> option PackageImages) (effectFiles : string -> nat).
Context (speech : bool) (fuel : nat).

Lemma handle_chr e s : chr_ok s -> outcome_chr_ok (handle manifest effectFiles speech fuel e s).
Proof.
  intros Hs. destruct e; cbn [handle outcome_chr_ok].
  - destruct (_ && _); [chr_setters | exact Hs].
  - destruct (wu_started _); [chr_setters | exact Hs].
  - destruct (_ && _); [by apply handleWarmUpSelection_chr | exact Hs].
  - unfold warmEffectDone. destruct (_ =? 0); [exact Hs | chr_setters].
  - unfold warmTimer. destruct (_ =? 0); [exact Hs | chr_setters].
  - chr_setters.
  - by apply startLoading_chr.
  - apply startLoading_chr. chr_setters.
  - by apply handleSelection_chr.
  - destruct (pendingNext s =? 0); [exact Hs | apply posi_callback_chr].
  - unfold chr_ok. by rewrite synthDone_chr.
  - unfold chr_ok. by rewrite playbackEnd_chr.
  - unfold chr_ok. by rewrite playRejected_chr.
  - unfold chr_ok. by rewrite replay_chr.
  - by apply removeCurrentWord_chr.
  - case_bool_decide; [chr_setters | exact Hs].
  - destruct (on_game s); [chr_setters | exact Hs].
  - chr_setters.
Qed.

Lemma step_chr s e : chr_ok s -> outcome_chr_ok (step manifest effectFiles speech fuel s e).
Proof.
  intros Hs. unfold step, settle. pose proof (handle_chr e s Hs) as Ho.
  destruct (handle manifest effectFiles speech fuel e s) as [s'|s'|]; [| | done];
    destruct (reloadRequested s'); try apply page_load_chr; done.
Qed.

Lemma reachable_chr_ok s : reachable manifest effectFiles speech fuel s -> chr_ok s.
Proof.
  induction 1 as [r | s e s' _ IH Hst | s e s' _ IH Hst].
  - apply page_load_chr.
  - pose proof (step_chr s e IH) as Ho. by rewrite Hst in Ho.
  - pose proof (step_chr s e IH) as Ho. by rewrite Hst in Ho.
Qed.

(** C15: In every reachable state the character shows [idle] exactly when
    no idle timer is pending, and a pending timer is one already set:
    [updateCharacter] never leaves a pose other than [idle] without the
    timer that ends it, nor an [idle] character with a timer. *)
Theorem reachable_character_ok s :
  reachable manifest effectFiles speech fuel s -> char_ok (chr s) = true.
Proof. apply reachable_chr_ok. Qed.

(** C16: The character never stays in a pose other than [idle]: in every
    reachable state that shows another pose, a pending timer exists, and
    when it fires the character shows [idle] with no timer left. *)
Theorem character_returns_idle s :
  reachable manifest effectFiles speech fuel s -> ch_pose (chr s) <> "idle" ->
  exists id s', step manifest effectFiles speech fuel s (EvIdleTimer id) = Done s' /\
                ch_pose (chr s') = "idle" /\ ch_idleTimer (chr s') = None.
Proof.
  intros Hr Hpose. pose proof (reachable_chr_ok s Hr) as Hok. unfold chr_ok, char_ok in Hok.
  destruct (ch_idleTimer (chr s)) as [t|] eqn:Ht.
  2: { by apply String.eqb_eq in Hok. }
  exists t. unfold step. cbn [handle]. rewrite bool_decide_eq_true_2 by done.
  cbn [settle]. destruct (reloadRequested (updateCharacter "idle" s)).
  - eexists. split; [reflexivity |]. by rewrite page_load_chr_eq.
  - eexists. split; [reflexivity |]. done.
Qed.
End Loop.
End Character.
