(* ===== verification/Warmup.v ===== *)
(** * Warmup: the warm-up screen before the language choice

    Properties of the warm-up part of [Session] ([app.warmUp],
    [startWarmUp], [playWarmUpAudio] and [handleWarmUpSelection], lines
    109-217 of [src/script.js]): a loaded page shows the three items once
    each with one of them as the target ([page_load_fresh]); a learner who
    starts the warm-up, hears the name and clicks the target always reaches
    the language screen; the target stays clickable
    after a correct answer, so each further click schedules one more
    switch to the language screen; and no other event cancels such a
    switch, which can then fire during a game. *)

From S2P Require Import Prelude Random Mastery Scheduler Catalog Options Progress Session Behaviour.
Import Scheduler Catalog Options Session Behaviour.

Module Warmup.

(** The first position of [x] in [l]. *)
Fixpoint index_of (x : nat) (l : list nat) : nat :=
  match l with
  | [] => 0
  | y :: l' => if Nat.eqb x y then 0 else S (index_of x l')
  end.

(** The position of the target on the warm-up screen. *)
Definition warm_correct (w : WarmUp) : nat :=
  match wu_targetIndex w with Some t => index_of t (wu_order w) | None => 0 end.

(** A learner who clicks the start button, hears the name, clicks the
    target and waits for the [posi] sound and the timer. *)
Definition warm_pass (s : AppState) : list Event :=
  [EvWarmStart; EvWarmAudioEnd; EvWarmClick (warm_correct (warm s)); EvWarmEffectDone;
   EvWarmTimer].

(** The warm-up as [startWarmUp] leaves it: the three items each shown
    once, one of them the target, the options hidden and disabled. *)
Definition warm_fresh (w : WarmUp) : Prop :=
  wu_order w ≡ₚ [0; 1; 2] /\ (exists t, wu_targetIndex w = Some t /\ t < 3) /\
  wu_started w = false /\ wu_enabled w = false.

(** *** Lemmas *)

Lemma index_of_lookup x l : x ∈ l -> l !! index_of x l = Some x.
Proof.
  induction l as [|y l IH]; intros Hx; [by apply not_elem_of_nil in Hx |]. cbn [index_of].
  destruct (Nat.eqb_spec x y) as [-> | Hne]; [done |].
  apply elem_of_cons in Hx as [-> | Hx]; [done |]. by apply IH.
Qed.

Lemma page_load_fresh r :
  screen (page_load r) = WarmupScreen /\ reloadRequested (page_load r) = false /\
  warm_fresh (warm (page_load r)) /\
  wu_effects (warm (page_load r)) = 0 /\ wu_timers (warm (page_load r)) = 0.
Proof.
  unfold page_load, startWarmUp, random_index_s.
  pose proof (random_index_lt 3 (rng (set_screen (initial_state r) WarmupScreen))) as Ht.
  destruct (random_index 3 _) as [t r1]. cbn [fst] in Ht.
  match goal with |- context [shuffleArray ?a ?r0] =>
    assert (Hp : fst (shuffleArray a r0) ≡ₚ a) by apply shuffle_from_perm;
    destruct (shuffleArray a r0) as [o r2]
  end.
  fields. split; [done | split; [done |]]. split; [| done].
  split; [exact Hp |]. split; [| done]. exists t. split; [done | lia].
Qed.

(** The effect of a click on the option at [pos], as [handle] sees it. *)
Lemma handleWarmUpSelection_warm effectFiles pos s :
  warm (handleWarmUpSelection effectFiles pos s) =
  match wu_order (warm s) !! pos with
  | Some i =>
      if wu_enabled (warm s) && bool_decide (Some i = wu_targetIndex (warm s)) then
        let w := warm s in
        if effectFiles "posi"%string =? 0
        then mkWarm (wu_targetIndex w) (wu_order w) (wu_started w) (wu_enabled w)
               (wu_effects w) (S (wu_timers w))
        else mkWarm (wu_targetIndex w) (wu_order w) (wu_started w) (wu_enabled w)
               (S (wu_effects w)) (wu_timers w)
      else warm s
  | None => warm s
  end /\
  screen (handleWarmUpSelection effectFiles pos s) = screen s /\
  reloadRequested (handleWarmUpSelection effectFiles pos s) = reloadRequested s.
Proof.
  unfold handleWarmUpSelection. destruct (wu_order (warm s) !! pos) as [i|]; [| done].
  destruct (wu_enabled (warm s)); cbn [negb andb]; [| done].
  case_bool_decide; [destruct (effectFiles "posi"%string =? 0); [done |] |];
    rewrite (playEffect_set_rng effectFiles _ (updateCharacter (position_pose "neutral" pos) s));
    done.
Qed.

Section Pass.
Context (manifest : string -> option PackageImages).
Context (effectFiles : string -> nat).
Context (speech : bool).
Context (fuel : nat).

Lemma run_events_cons_done s e es s' :
  handle manifest effectFiles speech fuel e s = Done s' -> reloadRequested s' = false ->
  run_events manifest effectFiles speech fuel s (e :: es) =
  run_events manifest effectFiles speech fuel s' es.
Proof. intros Hh Hr. cbn [run_events]. unfold step. rewrite Hh. cbn [settle]. by rewrite Hr. Qed.

(** The warm-up is passed from every state that shows it with its start
    button, a target among the options and nothing pending. *)
Lemma warm_pass_from s t :
  screen s = WarmupScreen -> reloadRequested s = false -> wu_started (warm s) = false ->
  wu_targetIndex (warm s) = Some t -> t ∈ wu_order (warm s) ->
  wu_effects (warm s) = 0 -> wu_timers (warm s) = 0 ->
  exists s', run_events manifest effectFiles speech fuel s (warm_pass s) = Done s' /\
             screen s' = LanguageScreen /\ wu_timers (warm s') = 0.
Proof.
  intros Hsc Hrl Hst Ht Hin He Htm.
  assert (Hon : on_warmup s = true) by (unfold on_warmup; by rewrite Hsc).
  unfold warm_pass, warm_correct. rewrite Ht.
  set (p := index_of t (wu_order (warm s))).
  assert (Hp : wu_order (warm s) !! p = Some t) by (by apply index_of_lookup).
  rewrite (run_events_cons_done _ _ _ (warmStart s));
    [| cbn [handle]; by rewrite Hon, Hst | done].
  rewrite (run_events_cons_done _ _ _ (warmAudioEnd (warmStart s)));
    [| done | done].
  set (s2 := warmAudioEnd (warmStart s)).
  set (s3 := handleWarmUpSelection effectFiles p s2).
  destruct (handleWarmUpSelection_warm effectFiles p s2) as (Hw3 & Hsc3 & Hrl3).
  fold s3 in Hw3, Hsc3, Hrl3.
  assert (W2 : warm s2 = mkWarm (Some t) (wu_order (warm s)) true true 0 0 /\
               screen s2 = WarmupScreen /\ reloadRequested s2 = false).
  { unfold s2, warmAudioEnd, warmStart. fields. by rewrite Ht, He, Htm. }
  destruct W2 as (W2 & Hsc2 & Hrl2). rewrite W2 in Hw3. fields.
  rewrite Hp, bool_decide_eq_true_2 in Hw3 by done. cbn [andb] in Hw3.
  rewrite (run_events_cons_done _ _ _ s3);
    [| cbn [handle]; unfold on_warmup; by rewrite Hsc2, W2 | congruence].
  assert (Hs4 : warm (warmEffectDone s3) = mkWarm (Some t) (wu_order (warm s)) true true 0 1 /\
                reloadRequested (warmEffectDone s3) = false).
  { unfold warmEffectDone. rewrite Hw3.
    destruct (effectFiles "posi"%string =? 0); fields; cbn [Nat.eqb pred]; fields;
      (split; [done | by rewrite Hrl3]). }
  destruct Hs4 as (W4 & Hrl4).
  rewrite (run_events_cons_done _ _ _ (warmEffectDone s3)) by done.
  rewrite (run_events_cons_done _ _ _ (warmTimer (warmEffectDone s3)));
    [| done | unfold warmTimer; rewrite W4; by fields].
  cbn [run_events]. eexists. split; [reflexivity |].
  unfold warmTimer. rewrite W4. by fields.
Qed.
End Pass.

(** *** Theorems *)

(** C14: The warm-up can always be passed: from every loaded page, whatever
    the random draws and whatever the effect files, a learner who clicks
    the start button, hears the name and clicks the target reaches the
    language screen once the [posi] sound and its one-second timer are
    over. *)
Theorem warmup_passes manifest effectFiles speech fuel r :
  exists s', run_events manifest effectFiles speech fuel (page_load r) (warm_pass (page_load r))
             = Done s' /\ screen s' = LanguageScreen.
Proof.
  destruct (page_load_fresh r) as (Hsc & Hrl & (Hperm & (t & Ht & Hlt) & Hst & _) & He & Htm).
  destruct (warm_pass_from manifest effectFiles speech fuel (page_load r) t)
    as (s' & Hrun & Hs' & _); try done; [| by exists s'].
  rewrite Hperm. assert (t = 0 \/ t = 1 \/ t = 2) as [-> | [-> | ->]] by lia; set_solver.
Qed.

(** C32: The target stays clickable after a correct answer: each click on
    it leaves the options enabled and queues one more switch to the
    language screen (a pending [posi] callback or timer).  Nothing disables
    the options, so a double click schedules two switches. *)
Theorem warm_target_click_queues effectFiles pos s i :
  wu_order (warm s) !! pos = Some i -> Some i = wu_targetIndex (warm s) ->
  wu_enabled (warm s) = true ->
  wu_order (warm (handleWarmUpSelection effectFiles pos s)) = wu_order (warm s) /\
  wu_targetIndex (warm (handleWarmUpSelection effectFiles pos s)) = wu_targetIndex (warm s) /\
  wu_enabled (warm (handleWarmUpSelection effectFiles pos s)) = true /\
  wu_effects (warm (handleWarmUpSelection effectFiles pos s)) +
    wu_timers (warm (handleWarmUpSelection effectFiles pos s)) =
  S (wu_effects (warm s) + wu_timers (warm s)).
Proof.
  intros Hi Ht Hen. destruct (handleWarmUpSelection_warm effectFiles pos s) as (Hw & _).
  rewrite Hi, Hen, bool_decide_eq_true_2 in Hw by done. cbn [andb] in Hw. rewrite Hw.
  destruct (effectFiles "posi"%string =? 0); cbn; (split; [done | split; [done | split; [done | lia]]]).
Qed.

(** *** The warm-up's pending switches outlive it *)

(** The events of the warm-up screen. *)
Definition warm_event (e : Event) : bool :=
  match e with
  | EvWarmStart | EvWarmAudioEnd | EvWarmClick _ | EvWarmEffectDone | EvWarmTimer => true
  | _ => false
  end.

Definition outcome_warm (w : WarmUp) (o : Outcome) : Prop :=
  match o with
  | Done s | Crash s => warm s = w
  | Hang => True
  end.

Lemma outcome_warm_then w o (f : AppState -> AppState) :
  (forall s, warm (f s) = warm s) -> outcome_warm w o ->
  outcome_warm w (match o with Done s => Done (f s) | Crash s => Crash s | Hang => Hang end).
Proof. intros Hf. destruct o as [s|s|]; [| done | done]. cbn [outcome_warm]. by rewrite Hf. Qed.

Lemma playEffect_warm effectFiles t s : warm (playEffect effectFiles t s) = warm s.
Proof. by rewrite playEffect_set_rng. Qed.

Lemma render_cards_warm t opts s w : warm s = w -> outcome_warm w (render_cards t opts s).
Proof.
  revert s. induction opts as [|o opts IH]; intros s Hs; cbn [render_cards]; [done |].
  destruct (opt_data o) as [d|]; [| done].
  unfold random_index_s. destruct (random_index _ (rng s)) as [i r].
  apply IH. by fields.
Qed.

Lemma nextQuestion_warm fuel s : outcome_warm (warm s) (nextQuestion fuel s).
Proof.
  unfold nextQuestion, refresh_pool. cbv zeta. fields.
  destruct (pr_pool _) as [|x xs]; [done |].
  unfold random_index_s.
  match goal with |- context [random_index ?n ?r] => destruct (random_index n r) as [i r1] end.
  fields. destruct (progressMap s !! _) as [p|]; [| done].
  destruct (jsmap_get _ (wordMap s)) as [d|]; [| done].
  match goal with
  | |- context [generateOptions ?w ?f ?a ?t ?r] =>
      destruct (generateOptions w f a t r) as [[opts|] r']; [| done]
  end.
  apply (outcome_warm_then _ _ (playAudio (original d) EnableCards)); [done |].
  apply render_cards_warm. by fields.
Qed.

Lemma posi_callback_warm effectFiles fuel s :
  outcome_warm (warm s) (posi_callback effectFiles fuel s).
Proof.
  unfold posi_callback, draw_s. destruct (draw (rng s)) as [u r].
  destruct (below_03 u).
  - replace (warm s) with (warm (playEffect effectFiles "cat" (set_rng s r)))
      by (by rewrite playEffect_warm).
    apply nextQuestion_warm.
  - change (warm s) with (warm (set_rng s r)). apply nextQuestion_warm.
Qed.

Lemma handleSelection_warm_kept effectFiles fuel i s :
  outcome_warm (warm s) (handleSelection effectFiles fuel i s).
Proof.
  unfold handleSelection.
  destruct (cards s !! i) as [c|]; [| done].
  destruct (card_checked c); [done |]. cbv zeta.
  destruct (String.eqb (card_key c) (card_target c)).
  - destruct (progressMap _ !! card_target c) as [p|]; [| done].
    unfold play_posi. destruct (effectFiles "posi"%string =? 0).
    + match goal with |- context [posi_callback _ _ ?x] =>
        pose proof (posi_callback_warm effectFiles fuel x) as H end.
      by fields.
    + cbn [outcome_warm]. fields. by rewrite playEffect_warm.
  - cbn [outcome_warm]. by rewrite playEffect_warm.
Qed.

Lemma removeCurrentWord_warm fuel s : outcome_warm (warm s) (removeCurrentWord fuel s).
Proof.
  unfold removeCurrentWord.
  destruct (currentQuestionKey s) as [key|]; [| done].
  destruct (String.eqb key ""); [done |].
  change (warm s) with (warm (refresh_display (remove_key s key))). apply nextQuestion_warm.
Qed.

Lemma startLoading_warm manifest fuel fetched s :
  outcome_warm (warm s) (startLoading manifest fuel fetched s).
Proof.
  unfold startLoading.
  assert (Hl : match loadData manifest fetched (set_screen s LoadingScreen) with
               | inl s' | inr s' => warm s' = warm s
               end).
  { unfold loadData. fields. destruct (currentLang s) as [lang|]; [| done].
    destruct (langMap lang) as [cfg|], fetched as [text|]; try done.
    fields. destruct (jsmap_keys _); [done |].
    match goal with |- context [shuffleArray ?a ?r] => destruct (shuffleArray a r) end.
    done. }
  destruct (loadData manifest fetched (set_screen s LoadingScreen)) as [s'|s']; [done |].
  unfold startGame. rewrite <- Hl.
  match goal with |- outcome_warm _ (nextQuestion _ ?x) => change (warm s') with (warm x) end.
  apply nextQuestion_warm.
Qed.

Lemma audio_handlers_warm sp id res s :
  warm (synthDone sp id res s) = warm s /\ warm (playbackEnd id s) = warm s /\
  warm (playRejected id s) = warm s /\ warm (replay s) = warm s.
Proof.
  unfold synthDone, playbackEnd, playRejected, replay, fire, run_callback.
  repeat split; repeat case_match; done.
Qed.

(** The timer of a pending switch: the language screen over whatever is
    shown, the drill left as it was. *)
Lemma warmTimer_pending s :
  0 < wu_timers (warm s) ->
  screen (warmTimer s) = LanguageScreen /\ currentQuestionKey (warmTimer s) = currentQuestionKey s /\
  cards (warmTimer s) = cards s /\ progressMap (warmTimer s) = progressMap s.
Proof.
  intros Ht. unfold warmTimer. destruct (Nat.eqb_spec (wu_timers (warm s)) 0); [lia |]. by fields.
Qed.

Section Survive.
Context (manifest : string -> option PackageImages) (effectFiles : string -> nat).
Context (speech : bool) (fuel : nat).

Lemma handle_warm e s :
  warm_event e = false -> outcome_warm (warm s) (handle manifest effectFiles speech fuel e s).
Proof.
  intros He. destruct (audio_handlers_warm speech 0 None s) as (_ & _ & _ & Hrp).
  destruct e; try discriminate; cbn [handle outcome_warm].
  - done.
  - apply startLoading_warm.
  - change (warm s) with (warm (set_lang s lang)). apply startLoading_warm.
  - apply handleSelection_warm_kept.
  - destruct (pendingNext s =? 0); [done |].
    change (warm s) with (warm (consume_next s)). apply posi_callback_warm.
  - apply (proj1 (audio_handlers_warm _ _ _ s)).
  - apply (proj1 (proj2 (audio_handlers_warm speech _ None s))).
  - apply (proj1 (proj2 (proj2 (audio_handlers_warm speech _ None s)))).
  - exact Hrp.
  - apply removeCurrentWord_warm.
  - by case_bool_decide.
  - by destruct (on_game s).
  - done.
Qed.
End Survive.

(** C24: A switch to the language screen queued by the warm-up (a second
    click on its target, see [warm_target_click_queues]) is never
    cancelled: every event other than the warm-up's own leaves the
    warm-up's pending effects and timers as they were, unless the page
    reloads; so the timer can still fire during a game, and then shows the
    language screen over it, with the question, its cards and the
    progress records left as they were. *)
Theorem warm_switch_survives manifest effectFiles speech fuel s e s' :
  warm_event e = false ->
  (step manifest effectFiles speech fuel s e = Done s' \/
   step manifest effectFiles speech fuel s e = Crash s') ->
  (exists r, s' = page_load r) \/
  (warm s' = warm s /\
   (0 < wu_timers (warm s) ->
    screen (warmTimer s') = LanguageScreen /\
    currentQuestionKey (warmTimer s') = currentQuestionKey s' /\
    cards (warmTimer s') = cards s' /\ progressMap (warmTimer s') = progressMap s')).
Proof.
  intros He Hst. pose proof (handle_warm manifest effectFiles speech fuel e s He) as Hw.
  unfold step in Hst.
  destruct (handle manifest effectFiles speech fuel e s) as [s1|s1|]; cbn [settle] in Hst;
    [| | by destruct Hst]; destruct (reloadRequested s1);
    destruct Hst as [Hst | Hst]; try discriminate; injection Hst as <-;
    first [left; eexists; reflexivity | right].
  all: cbn [outcome_warm] in Hw; split; [exact Hw | intros Ht; apply warmTimer_pending; by rewrite Hw].
Qed.
End Warmup.
