(* ===== verification/Monotone.v ===== *)
(** * Monotone: what only grows during a game

    The spec asks that a word's level never decreases, that a mastered
    word stays mastered, and that the window pointer only moves forward.
    This file proves it of every event of a running game (clicks, sound
    endings, TTS answers, replay, removal, the character's timer): the
    progress records that are kept only grow and the group index never
    moves back, unless the completion reload takes the page back to a
    fresh page.  Loading
    (a restart or a language change) starts afresh by design. *)

From S2P Require Import Prelude Random Mastery Scheduler Catalog Options Progress Session Audio Invariant Behaviour.
Import Mastery Scheduler Catalog Options ProgressBar Session Audio Invariant Behaviour.

Module Monotone.

(** Every record kept from [pm] to [pm'] has grown. *)
Definition records_grow (pm pm' : gmap string Progress) : Prop :=
  forall k p p', pm !! k = Some p -> pm' !! k = Some p' ->
  level p <= level p' /\ (mastered p = true -> mastered p' = true).

(** The state grows from [s] to [s']: kept records grew, no record was
    created, and the group index did not move back. *)
Definition grows (s s' : AppState) : Prop :=
  records_grow (progressMap s) (progressMap s') /\
  (forall k, is_Some (progressMap s' !! k) -> is_Some (progressMap s !! k)) /\
  currentGroupIndex s <= currentGroupIndex s'.

Definition outcome_grows (s : AppState) (o : Outcome) : Prop :=
  match o with
  | Done s' | Crash s' => grows s s'
  | Hang => True
  end.

(** *** The relation *)

Lemma records_grow_insert pm k p p' :
  pm !! k = Some p -> level p <= level p' -> (mastered p = true -> mastered p' = true) ->
  records_grow pm (<[k := p']> pm).
Proof.
  intros Hk Hl Hm k2 q q'. rewrite lookup_insert.
  case_decide as E; [subst k2 | by intros -> [= <-]].
  rewrite Hk. intros [= <-] [= <-]. done.
Qed.

Lemma grows_refl s : grows s s.
Proof.
  split; [| split; [done | lia]]. intros k p p' H1 H2. rewrite H1 in H2.
  injection H2 as <-. done.
Qed.

Lemma grows_trans s1 s2 s3 : grows s1 s2 -> grows s2 s3 -> grows s1 s3.
Proof.
  intros (R1 & K1 & G1) (R2 & K2 & G2). split; [| split; [auto | lia]].
  intros k p p3 H1 H3. destruct (K2 k) as [p2 H2]; [by rewrite H3 |].
  destruct (R1 k p p2 H1 H2) as [L1 M1], (R2 k p2 p3 H2 H3) as [L2 M2].
  split; [lia | auto].
Qed.

(** Updates that keep the records and move the index forward. *)
Lemma grows_same s s' :
  progressMap s' = progressMap s -> currentGroupIndex s <= currentGroupIndex s' ->
  grows s s'.
Proof. intros Hp Hg. destruct (grows_refl s) as (R & K & _). unfold grows. rewrite Hp. by split. Qed.

Lemma grows_insert s s' k p p' :
  progressMap s !! k = Some p -> progressMap s' = <[k := p']> (progressMap s) ->
  level p <= level p' -> (mastered p = true -> mastered p' = true) ->
  currentGroupIndex s <= currentGroupIndex s' -> grows s s'.
Proof.
  intros Hk Hp Hl Hm Hg. unfold grows. rewrite Hp. split; [by apply (records_grow_insert _ _ p) |].
  split; [| done]. intros k2. rewrite lookup_insert. case_decide; [subst; by rewrite Hk | done].
Qed.

Lemma grows_delete s s' k :
  progressMap s' = delete k (progressMap s) ->
  currentGroupIndex s <= currentGroupIndex s' -> grows s s'.
Proof.
  intros Hp Hg. unfold grows. rewrite Hp. split; [| split; [| done]].
  - intros k2 q q' H1. rewrite lookup_delete. case_decide; [done |].
    rewrite H1. intros [= <-]. done.
  - intros k2. rewrite lookup_delete. by case_decide.
Qed.

Lemma outcome_grows_trans s1 s2 o : grows s1 s2 -> outcome_grows s2 o -> outcome_grows s1 o.
Proof. intros G. destruct o; [apply grows_trans | apply grows_trans | done]; done. Qed.

Lemma outcome_grows_then s0 o (f : AppState -> AppState) :
  (forall s, progressMap (f s) = progressMap s /\ currentGroupIndex (f s) = currentGroupIndex s) ->
  outcome_grows s0 o ->
  outcome_grows s0 (match o with Done s => Done (f s) | Crash s => Crash s | Hang => Hang end).
Proof.
  intros Hf. destruct o as [s|s|]; [| done | done]. cbn [outcome_grows].
  intros Hg. destruct (Hf s) as [Hp Hi]. apply (grows_trans _ s); [done |].
  apply grows_same; [exact Hp | lia].
Qed.

(** [grows] to a chain of field updates that keep the records. *)
Ltac grow_setters H :=
  refine (grows_trans _ _ _ H (grows_same _ _ _ _)); fields;
  try match goal with
      | |- _ = _ => reflexivity
      | |- (_ <= _)%nat => lia
      end.

(** *** The handlers *)

Lemma refresh_pool_grows s : grows s (refresh_pool s).
Proof.
  apply grows_same; [done |]. unfold refresh_pool. fields.
  by destruct (updateActivePool_spec (sequence s) (progressMap s) (groupSize s)
                 (currentGroupIndex s)) as (Hge & _).
Qed.

Lemma playEffect_grows effectFiles t s : grows s (playEffect effectFiles t s).
Proof. rewrite playEffect_set_rng. apply grows_same; done. Qed.

Lemma render_cards_grows s0 t opts s :
  grows s0 s -> outcome_grows s0 (render_cards t opts s).
Proof.
  revert s. induction opts as [|o opts IH]; intros s Hs; cbn [render_cards]; [done |].
  destruct (opt_data o) as [d|]; [| done].
  unfold random_index_s. destruct (random_index _ (rng s)) as [i r].
  apply IH. grow_setters Hs.
Qed.

Lemma nextQuestion_grows fuel s0 : outcome_grows s0 (nextQuestion fuel s0).
Proof.
  unfold nextQuestion. cbv zeta.
  apply (outcome_grows_trans s0 (updateCharacter "idle" s0)); [by apply grows_same |].
  set (s := updateCharacter "idle" s0). clearbody s.
  pose proof (refresh_pool_grows s) as H1.
  destruct (activePool (refresh_pool s)) as [|x xs] eqn:Hp; [done |].
  unfold random_index_s.
  match goal with |- context [random_index ?n ?r] => destruct (random_index n r) as [i r1] end.
  fields. unfold refresh_pool in *. fields.
  destruct (progressMap s !! _) as [p|] eqn:Hpm; [| cbn [outcome_grows]; grow_setters H1].
  match goal with
  | |- context [set_progressMap ?x ?pm] =>
      assert (G2 : grows s (set_progressMap x pm))
  end.
  { destruct H1 as (_ & _ & G1).
    apply (grows_insert _ _ (nth i (x :: xs) ""%string) p (mark_seen p));
      [exact Hpm | | done | done |]; fields;
      [reflexivity | exact G1]. }
  destruct (jsmap_get _ (wordMap s)) as [d|]; [| exact G2].
  match goal with
  | |- context [generateOptions ?w ?f ?a ?t ?r] =>
      destruct (generateOptions w f a t r) as [[opts|] r']; [| done]
  end.
  apply (outcome_grows_then _ _ (playAudio (original d) EnableCards)); [done |].
  apply render_cards_grows. grow_setters G2.
Qed.

Lemma posi_callback_grows effectFiles fuel s : outcome_grows s (posi_callback effectFiles fuel s).
Proof.
  unfold posi_callback, draw_s. destruct (draw (rng s)) as [u r].
  eapply outcome_grows_trans; [| apply nextQuestion_grows].
  destruct (below_03 u); [rewrite playEffect_set_rng |]; apply grows_same; done.
Qed.

Lemma play_posi_grows effectFiles fuel s : outcome_grows s (play_posi effectFiles fuel s).
Proof.
  unfold play_posi. destruct (effectFiles "posi"%string =? 0); [apply posi_callback_grows |].
  cbn [outcome_grows]. rewrite playEffect_set_rng. apply grows_same; done.
Qed.

Lemma handleSelection_grows effectFiles fuel i s :
  outcome_grows s (handleSelection effectFiles fuel i s).
Proof.
  pose proof (grows_refl s) as G0. unfold handleSelection.
  destruct (cards s !! i) as [c|]; [| exact G0].
  destruct (card_checked c); [exact G0 |]. cbv zeta. fields.
  destruct (String.eqb (card_key c) (card_target c)).
  - destruct (progressMap s !! card_target c) as [p|] eqn:Hp;
      [| cbn [outcome_grows]; apply grows_same; done].
    eapply outcome_grows_trans; [| apply play_posi_grows].
    apply (grows_insert _ _ (card_target c) p (on_correct p (currentQuestionFailed s)));
      [exact Hp | done | apply on_correct_mono | apply on_correct_mono | done].
  - cbn [outcome_grows]. rewrite playEffect_set_rng. apply grows_same; done.
Qed.

Lemma removeCurrentWord_grows fuel s : outcome_grows s (removeCurrentWord fuel s).
Proof.
  pose proof (grows_refl s) as G0. unfold removeCurrentWord.
  destruct (currentQuestionKey s) as [key|]; [| exact G0].
  destruct (String.eqb key ""); [exact G0 |].
  eapply outcome_grows_trans; [| apply nextQuestion_grows].
  by apply (grows_delete _ _ key).
Qed.

Lemma grows_sched s s' : sched_view s' = sched_view s -> grows s s'.
Proof. intros E. injection E; intros. apply grows_same; [congruence | lia]. Qed.

Lemma handle_grows manifest effectFiles speech fuel e s :
  game_event e = true -> outcome_grows s (handle manifest effectFiles speech fuel e s).
Proof.
  intros He. destruct e; try discriminate; cbn [handle outcome_grows].
  - apply handleSelection_grows.
  - destruct (pendingNext s =? 0); [apply grows_refl |].
    eapply outcome_grows_trans; [| apply posi_callback_grows]. apply grows_same; done.
  - apply grows_sched, synthDone_sched.
  - apply grows_sched, playbackEnd_sched.
  - apply grows_sched, playRejected_sched.
  - apply grows_sched, replay_sched.
  - apply removeCurrentWord_grows.
  - apply grows_sched, idleTimer_sched.
  - apply grows_sched, backgroundClick_sched.
Qed.

(** C3: During a game no level decreases and the window pointer never
    moves back: for every click, sound ending, TTS answer, replay,
    removal or character event, either the completion reload has taken the page back to a
    freshly loaded one, or every progress record that is kept has a level at
    least as high as before and stays mastered once mastered, no record is
    created, and the group index is at least what it was. *)
Theorem game_step_monotone manifest effectFiles speech fuel s e s' :
  game_event e = true ->
  (step manifest effectFiles speech fuel s e = Done s' \/
   step manifest effectFiles speech fuel s e = Crash s') ->
  (exists r, s' = page_load r) \/ grows s s'.
Proof.
  intros He Hst. pose proof (handle_grows manifest effectFiles speech fuel e s He) as Hg.
  unfold step in Hst.
  destruct (handle manifest effectFiles speech fuel e s) as [s1|s1|]; cbn [settle] in Hst;
    [| | by destruct Hst]; destruct (reloadRequested s1);
    destruct Hst as [Hst | Hst]; try discriminate; injection Hst as <-;
    first [left; eexists; reflexivity | right; exact Hg].
Qed.
End Monotone.
