(* ===== verification/Scenarios.v ===== *)
(** * Scenarios: concrete sessions run from the initial page

    A six-word German package (and a five-word one), a learner who always
    picks the correct card, and the traces that show the general theorems
    of the findings at work from the initial page: the stall after a
    removal is reachable, the [posi] callback of the previous session
    replaces the first question of the next one, the end of an older
    question's audio unlocks the cards of a newer one, and a double click
    on the warm-up's target hides the game behind the language screen.
    The source of [Math.random()] repeats [0, 1/4, 1/2, 3/4]; the warm-up
    of [opening] takes four draws, one full period.  Every state here is
    reached from [page_load] through [step] (the states the findings need
    are shown [reachable]); the witnesses of the general theorems are
    taken here. *)

From S2P Require Import Prelude Random Mastery Scheduler Catalog Options Progress Tts Session Audio Invariant Behaviour Character Warmup Monotone.
From Stdlib Require Import Ascii.
Import Mastery Scheduler Catalog Options ProgressBar Tts Session Audio Invariant Behaviour Character Warmup Monotone.

Module Scenarios.
Local Open Scope string_scope.

(** ** The environment: the package manifest and the effect files *)

Definition de_images : PackageImages :=
  <["1" := ["a.png"; "b.png"]]> (<["2" := ["c.png"]]> (<["3" := ["d.png"]]>
    (<["4" := ["e.png"]]> (<["5" := ["f.png"]]> (<["6" := ["g.png"]]> ∅))))).

Definition ex_manifest (pkg : string) : option PackageImages :=
  if String.eqb pkg "mini-german-package-k3" then Some de_images else None.

Definition ex_effects (type : string) : nat := 2.

Definition ex_fuel : nat := 40.

(** The browser has [window.speechSynthesis]. *)
Definition ex_speech : bool := true.

Definition nl (a b : string) : string := a ++ String "010" b.

Definition de_csv : string :=
  nl "id,word" (nl "1,der Hund" (nl "2,die Katze" (nl "3,das Haus"
    (nl "4,Baum" (nl "5,Apfel" "6,Tisch"))))).

Definition de_csv5 : string :=
  nl "id,word" (nl "1,der Hund" (nl "2,die Katze" (nl "3,das Haus"
    (nl "4,Baum" "5,Apfel")))).

Definition ex_step := step ex_manifest ex_effects ex_speech ex_fuel.
Definition ex_reachable := reachable ex_manifest ex_effects ex_speech ex_fuel.
Definition run := run_events ex_manifest ex_effects ex_speech ex_fuel.

(** ** Driving the page *)


(** The position of the correct card, for a learner who never errs. *)
Fixpoint correct_card (cs : list Card) (n : nat) : nat :=
  match cs with
  | [] => n
  | c :: cs' => if String.eqb (card_key c) (card_target c) then n
                else correct_card cs' (S n)
  end.

(** The TTS service answers the last [playAudio] call, whose clip then
    plays to its end (which enables the cards). *)
Definition hear (s : AppState) : list Event :=
  [EvSynthDone (pred (nextJobId s)) (ReplyJson (Some "bXAz") None); EvPlaybackEnd (pred (nextJobId s))].

(** [n] rounds: hear the word, click the correct card, then let the
    [posi] sound end. *)
Fixpoint drill (n : nat) (s : AppState) : Outcome :=
  match n with
  | O => Done s
  | S n' =>
      match run s (hear s ++ [EvClick (correct_card (cards s) 0); EvEffectDone]) with
      | Done s' | Crash s' => drill n' s'
      | Hang => Hang
      end
  end.

Definition after_run (o : Outcome) : AppState :=
  match o with
  | Done s | Crash s => s
  | Hang => page_load ex_rng
  end.

Lemma run_reachable s es :
  ex_reachable s -> (exists s', run s es = Done s' \/ run s es = Crash s') ->
  ex_reachable (after_run (run s es)).
Proof.
  intros Hr (s' & Hrun). apply (run_events_reachable _ _ _ _ s es); [done |].
  unfold run in *. destruct Hrun as [E | E]; rewrite E; [left | right]; reflexivity.
Qed.

Lemma drill_reachable n s :
  ex_reachable s -> (exists s', drill n s = Done s') -> ex_reachable (after_run (drill n s)).
Proof.
  revert s. induction n as [|n IH]; intros s Hr (s' & Hd); cbn [drill] in *; [done |].
  pose proof (run_reachable s (hear s ++ [EvClick (correct_card (cards s) 0); EvEffectDone]) Hr)
    as H1.
  destruct (run s _) as [s1|s1|]; [| | discriminate]; apply IH; eauto.
Qed.

(** ** The sessions *)

(** The page as loaded: the warm-up's target is item 0, shown at
    position 2. *)
Definition start : AppState := page_load ex_rng.

(** Through the warm-up (clicking its target) to the language screen,
    then German and the endless mode. *)
Definition opening (csv : string) : list Event :=
  warm_pass start ++ [EvSelectLanguage "de"; EvStartLoading (Some csv)].

(** The six-word package, loaded; the first question is on "tisch". *)
Definition loaded : AppState := after_run (run start (opening de_csv)).

(** The audio of the first question has ended: the cards are enabled. *)
Definition heard : AppState := after_run (run loaded (hear loaded)).

(** The correct card of the first question is clicked. *)
Definition first_answer : Event := EvClick (correct_card (cards heard) 0).

(** The first window mastered; the last question is on "hund". *)
Definition mastered_window : AppState := after_run (drill 25 loaded).

(** The audio of the question on "hund" ends, then "hund" is removed. *)
Definition stall_state : AppState :=
  after_run (run mastered_window (hear mastered_window ++ [EvRemove])).

Lemma loaded_reachable : ex_reachable loaded.
Proof.
  apply run_reachable; [apply reach_init |]. eexists. left. vm_compute. reflexivity.
Qed.

(** The audio of the question on "hund" has ended, before the removal. *)
Definition pre_stall : AppState := after_run (run mastered_window (hear mastered_window)).

Lemma stall_state_reachable : ex_reachable stall_state.
Proof.
  apply run_reachable; [| eexists; left; vm_compute; reflexivity].
  apply drill_reachable; [apply loaded_reachable |]. eexists. vm_compute. reflexivity.
Qed.

(** ** The findings on concrete sessions *)

(** The stall of [removal_enters_stall] is reachable: loading six words,
    mastering the first window of five and removing the sixth word (shown
    in the next question) reaches a state with the game on screen, every
    remaining word mastered and the progress bar at 100% (6/6), in which
    no question can be drawn and completion was not signalled. *)
Example removal_stall_reachable :
  ex_reachable stall_state /\ stalled stall_state /\
  display stall_state = mkDisplay 100 6 6 /\ length (sequence stall_state) = 5 /\
  Forall (fun k => is_active (progressMap stall_state !! k) = false)
    (sequence stall_state).
Proof.
  split; [apply stall_state_reachable |].
  split; [unfold stalled; vm_compute; repeat split; lia |].
  split; [vm_compute; reflexivity |]. split; [vm_compute; reflexivity |].
  apply Forall_forall. intros k Hk. vm_compute in Hk.
  repeat (apply elem_of_cons in Hk as [-> | Hk]; [vm_compute; reflexivity |]).
  by apply not_elem_of_nil in Hk.
Qed.

(** The [posi] callback of a correct answer survives a restart (see
    [startLoading_keeps_counters]): when its sound ends in the new session
    it runs [nextQuestion] there, replacing the first question ("hund",
    never answered) by another ("haus") and counting both as seen. *)
Example stale_callback_after_restart :
  let s1 := after_run (run loaded [EvClick 2; EvStartLoading (Some de_csv)]) in
  let s2 := after_run (ex_step s1 EvEffectDone) in
  pendingNext s1 = 1 /\ currentQuestionKey s1 = Some "hund" /\
  currentQuestionKey s2 = Some "haus" /\
  option_map seenCount (progressMap s2 !! "hund") = Some 1 /\
  option_map seenCount (progressMap s2 !! "haus") = Some 1.
Proof. vm_compute. repeat split. Qed.

(** The completion path of the spec's scenario: with five words (one
    window), answering each word correctly five times masters them all,
    and the scheduler then signals completion, which reloads the page. *)
Example five_words_complete :
  exists r, drill 25 (after_run (run start (opening de_csv5))) = Done (page_load r).
Proof. exists (mkRng (rng_stream ex_rng) 275). vm_compute. reflexivity. Qed.

(** The end of an older question's audio unlocks the cards of the current
    one ([audio_call_completes] holds for every call, whatever question
    it belonged to): after removing "tisch" while its audio was pending,
    the end of the "Tisch" clip enables the cards of the question on
    "baum", whose own audio has not even been answered yet. *)
Example stale_audio_unlocks_cards :
  let s := after_run (run loaded [EvRemove; EvSynthDone 0 (ReplyJson (Some "VGlzY2g=") None);
                                  EvPlaybackEnd 0]) in
  currentQuestionKey s = Some "baum" /\
  Forall (fun c => card_disabled c = false) (cards s) /\ cards s <> [] /\
  find_job 1 (audioJobs s) = Some (mkJob 1 "Baum" (Some "de") EnableCards Synthesizing).
Proof. vm_compute. repeat split; repeat constructor; discriminate. Qed.

(** A double click on the warm-up's target queues a second switch to the
    language screen (see [warm_switch_survives]): it fires after the
    learner has chosen a language and started the game, and hides the
    game screen in the middle of a question. *)
Example warmup_timer_hides_game :
  let s1 := after_run (run start [EvWarmStart; EvWarmAudioEnd; EvWarmClick 2; EvWarmClick 2;
                                  EvWarmEffectDone; EvWarmTimer; EvSelectLanguage "de";
                                  EvStartLoading (Some de_csv)]) in
  let s2 := after_run (run s1 [EvWarmEffectDone; EvWarmTimer]) in
  ex_reachable s1 /\ screen s1 = GameScreen /\ currentQuestionKey s1 = Some "hund" /\
  screen s2 = LanguageScreen /\ currentQuestionKey s2 = Some "hund" /\ cards s2 = cards s1.
Proof.
  split; [apply run_reachable; [apply reach_init | eexists; left; vm_compute; reflexivity] |].
  vm_compute. repeat split.
Qed.

(** ** Witnesses of the general theorems *)

(** The warm-up after the start button and its audio: item 2, 1, 0 at
    positions 0, 1, 2; the target is item 0. *)
Definition warm_ready : AppState := after_run (run start [EvWarmStart; EvWarmAudioEnd]).

Lemma warm_target_click_queues_witness :
  wu_effects (warm (handleWarmUpSelection ex_effects 2 warm_ready)) +
    wu_timers (warm (handleWarmUpSelection ex_effects 2 warm_ready)) = 1.
Proof.
  apply (warm_target_click_queues ex_effects 2 warm_ready 0);
    vm_compute; reflexivity.
Defined.

Definition tisch_card : Card :=
  mkCard "tisch" "tisch" "mini-german-package-k3/6/g.png" false true.
Definition haus_card : Card :=
  mkCard "haus" "tisch" "mini-german-package-k3/3/d.png" false true.
Definition tisch_seen : Progress := mkProgress 0 false 1.

Lemma reachable_inv_witness : inv loaded.
Proof. exact (reachable_inv ex_manifest ex_effects ex_speech ex_fuel loaded loaded_reachable). Defined.

Lemma handleSelection_correct_witness :
  exists s' p', handleSelection ex_effects ex_fuel 2 loaded = Done s' /\
    progressMap s' !! "tisch" = Some p' /\ level p' = 1.
Proof.
  destruct (handleSelection_correct ex_effects ex_fuel 2 loaded tisch_card tisch_seen)
    as (s' & p' & H1 & H2 & H3 & _);
    [vm_compute; reflexivity | reflexivity | reflexivity | vm_compute; reflexivity
    | discriminate |].
  exists s', p'. split; [exact H1 |]. split; [exact H2 |]. rewrite H3. vm_compute.
  reflexivity.
Defined.

Lemma wrong_then_correct_witness :
  exists s1 s2 p', handleSelection ex_effects ex_fuel 0 loaded = Done s1 /\
    handleSelection ex_effects ex_fuel 2 s1 = Done s2 /\
    progressMap s2 !! "tisch" = Some p' /\ level p' = 1.
Proof.
  destruct (wrong_then_correct ex_effects ex_fuel loaded 0 2 haus_card tisch_card tisch_seen)
    as (s1 & s2 & p' & H1 & _ & _ & H2 & H3 & H4);
    [vm_compute; reflexivity | reflexivity | discriminate | vm_compute; reflexivity
    | lia | reflexivity | reflexivity | vm_compute; reflexivity | discriminate |].
  exists s1, s2, p'. split; [exact H1 |]. split; [exact H2 |]. split; [exact H3 |].
  rewrite H4. reflexivity.
Defined.

Lemma removeCurrentWord_progress_witness :
  shown_mastered (display (after_run (removeCurrentWord ex_fuel loaded))) =
  shown_mastered (bar loaded) + 1.
Proof.
  destruct (removeCurrentWord_progress ex_fuel loaded "tisch" tisch_seen
              (after_run (removeCurrentWord ex_fuel loaded))) as (_ & H & _);
    [vm_compute; reflexivity | discriminate | apply (bool_decide_unpack _);
     vm_compute; reflexivity | vm_compute; reflexivity | left; vm_compute; reflexivity |].
  exact H.
Defined.

Lemma removeCurrentWord_stale_key_witness :
  deletedCount (after_run (removeCurrentWord ex_fuel stall_state)) = 2.
Proof.
  destruct (removeCurrentWord_stale_key ex_fuel stall_state "hund"
              (after_run (removeCurrentWord ex_fuel stall_state))) as (H & _);
    [vm_compute; reflexivity | discriminate | apply (bool_decide_unpack _);
     vm_compute; reflexivity | vm_compute; reflexivity | left; vm_compute; reflexivity |].
  rewrite H. vm_compute. reflexivity.
Defined.

Definition tisch_job : AudioJob := mkJob 0 "Tisch" (Some "de") EnableCards Synthesizing.

Lemma audio_call_completes_witness :
  finished 0 EnableCards (playbackEnd 0 (synthDone true 0 None loaded)).
Proof. apply (audio_call_completes true 0 None loaded tisch_job). vm_compute. reflexivity. Defined.

Lemma nextQuestion_fresh_audio_witness :
  currentAudioCache (after_run (nextQuestion ex_fuel loaded)) = None.
Proof.
  destruct (nextQuestion_fresh_audio ex_fuel loaded (after_run (nextQuestion ex_fuel loaded))
              "tisch") as [H _].
  - vm_compute. repeat constructor.
  - vm_compute. discriminate.
  - vm_compute. reflexivity.
  - vm_compute. reflexivity.
  - exact H.
Defined.

Definition replay_state : AppState :=
  after_run (run loaded [EvRemove; EvSynthDone 1 (ReplyJson (Some "QmF1bQ==") None);
                         EvSynthDone 0 (ReplyJson (Some "VGlzY2g=") None); EvReplay]).

Lemma play_rejected_then_error_fires_twice_witness :
  completed (playbackEnd 2 (playRejected 2 replay_state)) = [2; 2].
Proof.
  rewrite (play_rejected_then_error_fires_twice 2 replay_state
             (mkJob 2 "Baum" (Some "de") EnableReplay (PlayingAudio false)));
    vm_compute; reflexivity.
Defined.

Lemma stalled_forever_witness :
  outcome_stalled (run stall_state [EvRemove; EvClick 1; EvEffectDone; EvReplay]).
Proof.
  apply stalled_forever; [| reflexivity].
  unfold stalled. vm_compute. repeat split; lia.
Defined.

Lemma game_step_monotone_witness :
  (exists r, after_run (ex_step heard first_answer) = page_load r) \/ grows heard (after_run (ex_step heard first_answer)).
Proof.
  apply (game_step_monotone ex_manifest ex_effects ex_speech ex_fuel heard first_answer);
    [reflexivity | left; vm_compute; reflexivity].
Defined.

(** The first question answered: the character shows the position of the
    correct card, and its idle timer is pending. *)
Definition answered : AppState := after_run (run heard [first_answer]).

Lemma answered_reachable : ex_reachable answered.
Proof.
  apply run_reachable; [| eexists; left; vm_compute; reflexivity].
  apply run_reachable; [apply loaded_reachable | eexists; left; vm_compute; reflexivity].
Qed.

Lemma reachable_character_ok_witness : char_ok (chr answered) = true.
Proof. exact (reachable_character_ok ex_manifest ex_effects ex_speech ex_fuel answered answered_reachable). Defined.

Lemma character_returns_idle_witness :
  exists id s', ex_step answered (EvIdleTimer id) = Done s' /\
                ch_pose (chr s') = "idle" /\ ch_idleTimer (chr s') = None.
Proof.
  apply (character_returns_idle ex_manifest ex_effects ex_speech ex_fuel answered);
    [apply answered_reachable | vm_compute; discriminate].
Defined.
Lemma removal_enters_stall_witness :
  exists s', removeCurrentWord ex_fuel pre_stall = Done s' /\ stalled s'.
Proof.
  apply (removal_enters_stall ex_fuel pre_stall "hund");
    first [vm_compute; reflexivity | discriminate | vm_compute; lia
          | apply (bool_decide_unpack _); vm_compute; reflexivity].
Defined.

Definition hund_card : Card := mkCard "hund" "hund" "mini-german-package-k3/1/a.png" false false.

Lemma stale_card_crash_witness :
  exists s' s'', removeCurrentWord ex_fuel pre_stall = Done s' /\
                 cards s' !! 0 = Some hund_card /\
                 handleSelection ex_effects ex_fuel 0 s' = Crash s''.
Proof.
  apply (stale_card_crash ex_effects ex_fuel pre_stall "hund" 0 hund_card);
    first [vm_compute; reflexivity | discriminate | vm_compute; lia
          | apply (bool_decide_unpack _); vm_compute; reflexivity].
Defined.

(** One removal, then the restart button. *)
Definition removed_once : AppState := after_run (run loaded [EvRemove]).
Definition restarted : AppState :=
  after_run (startLoading ex_manifest ex_fuel (Some de_csv) removed_once).

Lemma startLoading_keeps_counters_witness :
  deletedCount restarted = 1 /\ pendingNext restarted = 0 /\
  (screen restarted = GameScreen ->
   shown_total (display restarted) = length (sequence restarted) + 1 /\
   1 <= shown_mastered (display restarted)).
Proof.
  destruct (startLoading_keeps_counters ex_manifest ex_fuel (Some de_csv) removed_once restarted)
    as (H1 & H2 & H3); [left; vm_compute; reflexivity |].
  assert (Hd : deletedCount removed_once = 1) by (vm_compute; reflexivity).
  rewrite H1, H2, Hd. split; [done | split; [vm_compute; reflexivity |]].
  intros Hs. destruct (H3 Hs) as [H4 H5]. rewrite Hd in H4, H5. split; [exact H4 | exact H5].
Defined.

(** "tisch" removed while its audio was still being synthesised: the
    question is now on "baum", with "Tisch"'s request still pending. *)
Definition removed_pending : AppState :=
  after_run (run loaded [EvRemove; EvSynthDone 1 (ReplyJson (Some "QmF1bQ==") None)]).

Lemma tts_answer_not_checked_witness :
  currentQuestionKey removed_pending = Some "baum" /\
  currentAudioCache
    (synthDone ex_speech 0 (synthesize (ReplyJson (Some "VGlzY2g=") None)) removed_pending)
  = Some (data_url "VGlzY2g=").
Proof.
  split; [vm_compute; reflexivity |].
  destruct (tts_answer_not_checked ex_speech 0 tisch_job "VGlzY2g=" None removed_pending)
    as [H _]; [vm_compute; reflexivity | vm_compute; reflexivity | discriminate | exact H].
Defined.

(** The warm-up's second [posi] effect is still pending when German is
    chosen. *)
Definition warm_pending : AppState :=
  after_run (run start [EvWarmStart; EvWarmAudioEnd; EvWarmClick 2; EvWarmClick 2;
                        EvWarmEffectDone; EvWarmTimer; EvWarmEffectDone; EvSelectLanguage "de"]).
Definition warm_game : AppState := after_run (ex_step warm_pending (EvStartLoading (Some de_csv))).

Lemma warm_switch_survives_witness :
  screen warm_game = GameScreen /\ 0 < wu_timers (warm warm_pending) /\
  ((exists r, warm_game = page_load r) \/
   (warm warm_game = warm warm_pending /\
    (0 < wu_timers (warm warm_pending) ->
     screen (warmTimer warm_game) = LanguageScreen /\
     currentQuestionKey (warmTimer warm_game) = currentQuestionKey warm_game /\
     cards (warmTimer warm_game) = cards warm_game /\
     progressMap (warmTimer warm_game) = progressMap warm_game))).
Proof.
  split; [vm_compute; reflexivity |]. split; [vm_compute; lia |].
  apply (warm_switch_survives ex_manifest ex_effects ex_speech ex_fuel warm_pending
           (EvStartLoading (Some de_csv)) warm_game); [reflexivity |].
  left. vm_compute. reflexivity.
Defined.
End Scenarios.
